(** * powerbi-tom-parser: the BIM normaliser of [parsers/bim-parser.js]

    A shallow embedding of the parser.  JavaScript values are trees
    ([value]); a call that may raise is a computation in the [result]
    monad, whose [Throw] carries the error object.  The functions below
    keep the names and the statement order of the source. *)

From Stdlib Require Import ZArith String Ascii List Bool Lia DecimalString.
From Stdlib Require Strings.Byte.
From stdpp Require Import base option list gmap strings.

Set Warnings "-register-all".

Local Open Scope Z_scope.
Local Open Scope string_scope.
Local Open Scope list_scope.

(** ** Values *)

(** Members of [Object.prototype], which every object literal inherits. *)
Inductive builtin : Type :=
| ObjectConstructor
| ObjectPrototype
| ProtoFunction (fname : string).

(** A JavaScript value as the parser can meet or build it: the six JSON
    shapes, [undefined], and the built-in members an inherited property
    read can return.  A JSON number is kept as an integer: the parser only
    tests numbers for truthiness and copies them.  An object is the list of
    its own properties in insertion order. *)
Inductive value : Type :=
| VUndef
| VNull
| VBool (b : bool)
| VNum (n : Z)
| VStr (s : string)
| VArr (items : list value)
| VObj (props : list (string * value))
| VBuiltin (f : builtin).

(** Structural induction that reaches the elements of an array and the
    property values of an object. *)
Section value_induction.

Variable P : value → Prop.
Hypothesis HUndef : P VUndef.
Hypothesis HNull : P VNull.
Hypothesis HBool : ∀ b, P (VBool b).
Hypothesis HNum : ∀ n, P (VNum n).
Hypothesis HStr : ∀ s, P (VStr s).
Hypothesis HArr : ∀ items, Forall P items → P (VArr items).
Hypothesis HObj : ∀ props, Forall (fun kv => P kv.2) props → P (VObj props).
Hypothesis HBuiltin : ∀ f, P (VBuiltin f).

Fixpoint value_nested_ind (v : value) : P v :=
  match v with
  | VUndef => HUndef
  | VNull => HNull
  | VBool b => HBool b
  | VNum n => HNum n
  | VStr s => HStr s
  | VArr items =>
      HArr items
        ((fix all (l : list value) : Forall P l :=
            match l with
            | [] => List.Forall_nil P
            | x :: rest => List.Forall_cons _ x rest (value_nested_ind x) (all rest)
            end) items)
  | VObj props =>
      HObj props
        ((fix all (l : list (string * value)) : Forall (fun kv => P kv.2) l :=
            match l with
            | [] => List.Forall_nil _
            | kv :: rest =>
                List.Forall_cons _ kv rest (value_nested_ind kv.2) (all rest)
            end) props)
  | VBuiltin f => HBuiltin f
  end.

End value_induction.

(** ** Errors and the result monad *)

Inductive errClass : Type :=
| ClsError | ClsTypeError | ClsRangeError | ClsSyntaxError | ClsTomParserError.

(** An error object: its class (what [instanceof] sees), its [code]
    property, its [message] and its [cause]. *)
Inductive error : Type :=
| MkError (cls : errClass) (code : option string) (message : string)
          (cause : option error).

Definition err_cls (e : error) : errClass := let 'MkError c _ _ _ := e in c.
Definition err_code (e : error) : option string := let 'MkError _ c _ _ := e in c.
Definition err_message (e : error) : string := let 'MkError _ _ m _ := e in m.
Definition err_cause (e : error) : option error := let 'MkError _ _ _ c := e in c.

Inductive result (A : Type) : Type :=
| Ok (a : A)
| Throw (e : error).
Arguments Ok {A} a.
Arguments Throw {A} e.

#[export] Instance result_ret : MRet result := fun _ a => Ok a.
#[export] Instance result_bind : MBind result := fun _ _ f m =>
  match m with Ok a => f a | Throw e => Throw e end.

(** Errors raised by the engine itself.  The wording of their messages is
    the engine's; only the class matters to the parser. *)
Definition TypeError (message : string) : error :=
  MkError ClsTypeError None message None.
Definition RangeError (message : string) : error :=
  MkError ClsRangeError (Some "ERR_INVALID_BUFFER_SIZE") message None.

(** [class TomParserError] of [types/index.js] with its static codes. *)
Definition TomParserError (code message : string) (cause : option error) : error :=
  MkError ClsTomParserError (Some code) message cause.
Definition FILE_NOT_FOUND : string := "FILE_NOT_FOUND".
Definition INVALID_JSON : string := "INVALID_JSON".
Definition MISSING_REQUIRED_FIELD : string := "MISSING_REQUIRED_FIELD".
Definition UNKNOWN_DATA_TYPE : string := "UNKNOWN_DATA_TYPE".
Definition MALFORMED_RELATIONSHIP : string := "MALFORMED_RELATIONSHIP".
Definition INVALID_PARTITION : string := "INVALID_PARTITION".

(** ** Operators of the language *)

(** ToBoolean. *)
Definition truthy (v : value) : bool :=
  match v with
  | VUndef | VNull => false
  | VBool b => b
  | VNum n => negb (n =? 0)%Z
  | VStr s => negb (String.eqb s "")
  | VArr _ | VObj _ | VBuiltin _ => true
  end.

Definition nullish (v : value) : bool :=
  match v with VUndef | VNull => true | _ => false end.

(** [a ?? b] *)
Definition coalesce (a b : value) : value := if nullish a then b else a.

(** [v === "s"] for a string literal [s]. *)
Definition str_eq (v : value) (s : string) : bool :=
  match v with VStr s' => String.eqb s' s | _ => false end.

Definition isArray (v : value) : bool :=
  match v with VArr _ => true | _ => false end.

(** Own property lookup.  A later binding of a key shadows an earlier one,
    as in an object read from JSON text with a repeated key. *)
Fixpoint lookup_prop {A} (k : string) (ps : list (string * A)) : option A :=
  match ps with
  | [] => None
  | (k', v) :: rest =>
      match lookup_prop k rest with
      | Some w => Some w
      | None => if String.eqb k k' then Some v else None
      end
  end.

Definition has_prop (k : string) (v : value) : bool :=
  match v with
  | VObj ps => bool_decide (is_Some (lookup_prop k ps))
  | _ => false
  end.

Definition builtin_name (f : builtin) : value :=
  match f with
  | ObjectConstructor => VStr "Object"
  | ProtoFunction n => VStr n
  | ObjectPrototype => VUndef
  end.

(** [v.k] for the property names the parser reads.  None of them is
    inherited from a built-in prototype of a string, number, boolean,
    array or plain object, so the read sees own properties only; a
    built-in function has the own property [name]. *)
Definition get (v : value) (k : string) : result value :=
  match v with
  | VUndef => Throw (TypeError ("Cannot read properties of undefined (reading '" +:+ k +:+ "')"))
  | VNull => Throw (TypeError ("Cannot read properties of null (reading '" +:+ k +:+ "')"))
  | VObj ps => Ok (default VUndef (lookup_prop k ps))
  | VBuiltin f => Ok (if String.eqb k "name" then builtin_name f else VUndef)
  | VBool _ | VNum _ | VStr _ | VArr _ => Ok VUndef
  end.

(** [v?.k] *)
Definition optget (v : value) (k : string) : result value :=
  if nullish v then Ok VUndef else get v k.

(** [obj.k = v] on the property list of [obj]: an existing key keeps its
    place, a new key goes last. *)
Fixpoint set_prop {A} (k : string) (v : A) (ps : list (string * A))
  : list (string * A) :=
  match ps with
  | [] => [(k, v)]
  | (k', w) :: rest =>
      if String.eqb k k' then (k', v) :: rest else (k', w) :: set_prop k v rest
  end.

(** [Array.prototype.filter] and [Array.prototype.map] with a callback
    that may raise: elements are visited left to right and the first
    exception ends the traversal. *)
Fixpoint filterM {A} (p : A → result bool) (l : list A) : result (list A) :=
  match l with
  | [] => Ok []
  | x :: rest =>
      b ← p x;
      kept ← filterM p rest;
      Ok (if b : bool then x :: kept else kept)
  end.

(** [String.prototype.toLowerCase] on the ASCII letters. *)
Definition lower_ascii (c : ascii) : ascii :=
  let n := nat_of_ascii c in
  if (65 <=? n)%nat && (n <=? 90)%nat then ascii_of_nat (n + 32) else c.

Fixpoint lower (s : string) : string :=
  match s with
  | EmptyString => EmptyString
  | String c rest => String (lower_ascii c) (lower rest)
  end.

(** [v.toLowerCase()] *)
Definition toLowerCase (v : value) : result string :=
  match v with
  | VStr s => Ok (lower s)
  | VUndef | VNull => Throw (TypeError "Cannot read properties of undefined (reading 'toLowerCase')")
  | _ => Throw (TypeError "toLowerCase is not a function")
  end.

(** ** Property keys *)

Definition numberToString (n : Z) : string := NilZero.string_of_int (Z.to_int n).

Definition join (parts : list string) : string :=
  match parts with
  | [] => ""
  | p :: rest => fold_left (fun acc q => acc +:+ "," +:+ q) rest p
  end.

(** ToString of a value used as a property key.  An array joins the texts
    of its elements; a plain object answers through [Object.prototype]
    unless an own [toString] property (never callable in data) hides it,
    in which case the conversion has no primitive to return. *)
Fixpoint toPropertyKey (v : value) : result string :=
  match v with
  | VUndef => Ok "undefined"
  | VNull => Ok "null"
  | VBool b => Ok (if b then "true" else "false")
  | VNum n => Ok (numberToString n)
  | VStr s => Ok s
  | VArr items =>
      parts ← (fix elems (l : list value) : result (list string) :=
                 match l with
                 | [] => Ok []
                 | x :: rest =>
                     s ← (if nullish x then Ok "" else toPropertyKey x);
                     ss ← elems rest;
                     Ok (s :: ss)
                 end) items;
      Ok (join parts)
  | VObj ps =>
      match lookup_prop "toString" ps with
      | Some _ => Throw (TypeError "Cannot convert object to primitive value")
      | None => Ok "[object Object]"
      end
  | VBuiltin ObjectPrototype => Ok "[object Object]"
  | VBuiltin ObjectConstructor => Ok "function Object() { [native code] }"
  | VBuiltin (ProtoFunction n) => Ok ("function " +:+ n +:+ "() { [native code] }")
  end.

(** ** Enumerations of [types/index.js] *)

Inductive DataType : Type :=
| Int64 | Double | Boolean | String_ | DateTime | Decimal | Binary | Table
| Variant | Unknown.

Inductive PartitionSourceType : Type := Query | M | Calculated | None_.
Inductive DataView : Type := Full | Sample.
Inductive RelationshipCardinality : Type := OneToOne | OneToMany | ManyToOne.
Inductive CrossFilteringBehavior : Type := BothDirections | OneDirection | NoneDirection.

(** Each member is the string the compiled enum object stores for it. *)
Definition DataType_value (d : DataType) : value :=
  VStr match d with
       | Int64 => "Int64" | Double => "Double" | Boolean => "Boolean"
       | String_ => "String" | DateTime => "DateTime" | Decimal => "Decimal"
       | Binary => "Binary" | Table => "Table" | Variant => "Variant"
       | Unknown => "Unknown"
       end.

Definition PartitionSourceType_value (p : PartitionSourceType) : value :=
  VStr match p with
       | Query => "query" | M => "m" | Calculated => "calculated" | None_ => "none"
       end.

Definition DataView_value (d : DataView) : value :=
  VStr match d with Full => "full" | Sample => "sample" end.

Definition RelationshipCardinality_value (c : RelationshipCardinality) : value :=
  VStr match c with OneToOne => "1:1" | OneToMany => "1:*" | ManyToOne => "*:1" end.

Definition CrossFilteringBehavior_value (c : CrossFilteringBehavior) : value :=
  VStr match c with
       | BothDirections => "bothDirections" | OneDirection => "oneDirection"
       | NoneDirection => "none"
       end.

(** ** Enum mappers *)

(** The object literal [typeMap] of [mapDataType]: its own properties. *)
Definition typeMap : list (string * DataType) :=
  [ ("Int64", Int64); ("Int32", Int64); ("Double", Double); ("Single", Double);
    ("Boolean", Boolean); ("String", String_); ("DateTime", DateTime);
    ("DateTimeOffset", DateTime); ("Decimal", Decimal); ("Binary", Binary);
    ("Table", Table); ("Variant", Variant) ].

(** What the literal inherits: the properties of [Object.prototype]. *)
Definition Object_prototype : list (string * builtin) :=
  [ ("constructor", ObjectConstructor);
    ("__proto__", ObjectPrototype);
    ("hasOwnProperty", ProtoFunction "hasOwnProperty");
    ("isPrototypeOf", ProtoFunction "isPrototypeOf");
    ("propertyIsEnumerable", ProtoFunction "propertyIsEnumerable");
    ("toLocaleString", ProtoFunction "toLocaleString");
    ("toString", ProtoFunction "toString");
    ("valueOf", ProtoFunction "valueOf");
    ("__defineGetter__", ProtoFunction "__defineGetter__");
    ("__defineSetter__", ProtoFunction "__defineSetter__");
    ("__lookupGetter__", ProtoFunction "__lookupGetter__");
    ("__lookupSetter__", ProtoFunction "__lookupSetter__") ].

Fixpoint assoc {A} (k : string) (l : list (string * A)) : option A :=
  match l with
  | [] => None
  | (k', a) :: rest => if String.eqb k k' then Some a else assoc k rest
  end.

(** [typeMap[key]]: an own property first, then the prototype. *)
Definition typeMap_get (key : string) : value :=
  match assoc key typeMap with
  | Some d => DataType_value d
  | None =>
      match assoc key Object_prototype with
      | Some f => VBuiltin f
      | None => VUndef
      end
  end.

Definition mapDataType (dataType : value) : result value :=
  if negb (truthy dataType) then Ok (DataType_value Unknown)
  else
    key ← toPropertyKey dataType;
    Ok (coalesce (typeMap_get key) (DataType_value Unknown)).

Definition mapPartitionSourceType (source : value) : result value :=
  if negb (truthy source) then Ok (PartitionSourceType_value None_)
  else
    ty ← get source "type";
    if str_eq ty "m" then Ok (PartitionSourceType_value M)
    else
      expression ← get source "expression";
      if truthy expression then Ok (PartitionSourceType_value Calculated)
      else
        query ← get source "query";
        if truthy query then Ok (PartitionSourceType_value Query)
        else Ok (PartitionSourceType_value None_).

Definition mapCardinality (crossFilterDirection fromCard toCard : value) : value :=
  if str_eq fromCard "1" && str_eq toCard "1" then RelationshipCardinality_value OneToOne
  else if str_eq fromCard "1" && str_eq toCard "*" then RelationshipCardinality_value OneToMany
  else if str_eq fromCard "*" && str_eq toCard "1" then RelationshipCardinality_value ManyToOne
  else RelationshipCardinality_value OneToMany.

Definition mapCrossFilteringBehavior (crossFilterDirection : value) : value :=
  if str_eq crossFilterDirection "Both" then CrossFilteringBehavior_value BothDirections
  else if str_eq crossFilterDirection "OneDirection" then CrossFilteringBehavior_value OneDirection
  else CrossFilteringBehavior_value NoneDirection.

(** ** Entity normalisers *)

Definition parseAnnotations (annotationsJson : value) : result value :=
  match annotationsJson with
  | VArr items =>
      out ← mapM (fun a =>
                    name ← get a "name";
                    val ← get a "value";
                    Ok (VObj [("name", coalesce name (VStr ""));
                              ("value", coalesce val (VStr ""))])) items;
      Ok (VArr out)
  | _ => Ok (VArr [])
  end.

Definition parseColumn (colJson : value) : result value :=
  name ← get colJson "name";
  rawType ← get colJson "dataType";
  dataType ← mapDataType rawType;
  isHidden ← get colJson "isHidden";
  description ← get colJson "description";
  let column := [("name", coalesce name (VStr "Column"));
                 ("dataType", dataType);
                 ("isHidden", isHidden);
                 ("description", description)] in
  expression ← get colJson "expression";
  column ←
    (if truthy expression then Ok (set_prop "expression" expression column)
     else
       calculatedColumn ← get colJson "calculatedColumn";
       nested ← optget calculatedColumn "expression";
       if truthy nested then Ok (set_prop "expression" nested column)
       else Ok column);
  formatString ← get colJson "formatString";
  let column :=
    if truthy formatString then set_prop "formatString" formatString column
    else column in
  summarizeBy ← get colJson "summarizeBy";
  let column :=
    if truthy summarizeBy then set_prop "summarization" summarizeBy column
    else column in
  Ok (VObj column).

Definition parseColumns (columnsJson includeHidden : value) : result value :=
  match columnsJson with
  | VArr items =>
      kept ← filterM (fun c =>
                        h ← get c "isHidden";
                        Ok (negb (truthy h) || truthy includeHidden)) items;
      out ← mapM parseColumn kept;
      Ok (VArr out)
  | _ => Ok (VArr [])
  end.

Definition parsePartition (partitionJson : value) : result value :=
  name ← get partitionJson "name";
  source ← get partitionJson "source";
  sourceType ← mapPartitionSourceType source;
  description ← get partitionJson "description";
  let partition := [("name", coalesce name (VStr "Partition"));
                    ("sourceType", sourceType);
                    ("description", description)] in
  partition ←
    (if truthy source then
       expression ← get source "expression";
       let partition :=
         if truthy expression then set_prop "expression" expression partition
         else partition in
       query ← get source "query";
       let partition :=
         if truthy query then set_prop "query" query partition else partition in
       dataView ← get source "dataView";
       Ok (if truthy dataView then
             set_prop "dataView"
               (if str_eq dataView "Sample" then DataView_value Sample
                else DataView_value Full) partition
           else partition)
     else Ok partition);
  Ok (VObj partition).

Definition parsePartitions (partitionsJson : value) : result value :=
  match partitionsJson with
  | VArr items => out ← mapM parsePartition items; Ok (VArr out)
  | _ => Ok (VArr [])
  end.

Definition parseMeasure (measureJson : value) : result value :=
  name ← get measureJson "name";
  expression ← get measureJson "expression";
  formatString ← get measureJson "formatString";
  displayFolder ← get measureJson "displayFolder";
  isHidden ← get measureJson "isHidden";
  description ← get measureJson "description";
  Ok (VObj [("name", coalesce name (VStr "Measure"));
            ("expression", coalesce expression (VStr ""));
            ("formatString", formatString);
            ("displayFolder", displayFolder);
            ("isHidden", isHidden);
            ("description", description)]).

Definition parseMeasures (measuresJson includeHidden : value) : result value :=
  match measuresJson with
  | VArr items =>
      kept ← filterM (fun m =>
                        h ← get m "isHidden";
                        Ok (negb (truthy h) || truthy includeHidden)) items;
      out ← mapM parseMeasure kept;
      Ok (VArr out)
  | _ => Ok (VArr [])
  end.

Definition parseTable (tableJson includeHidden : value) : result value :=
  name ← get tableJson "name";
  description ← get tableJson "description";
  isHidden ← get tableJson "isHidden";
  columnsJson ← get tableJson "columns";
  columns ← parseColumns (coalesce columnsJson (VArr [])) includeHidden;
  partitionsJson ← get tableJson "partitions";
  partitions ← parsePartitions (coalesce partitionsJson (VArr []));
  measuresJson ← get tableJson "measures";
  measures ← parseMeasures (coalesce measuresJson (VArr [])) includeHidden;
  Ok (VObj [("name", coalesce name (VStr "Table"));
            ("description", description);
            ("isHidden", isHidden);
            ("columns", columns);
            ("partitions", partitions);
            ("measures", measures)]).

Definition parseTables (tablesJson includeHidden : value) : result value :=
  match tablesJson with
  | VArr items =>
      kept ← filterM (fun t =>
                        h ← get t "isHidden";
                        Ok (negb (truthy h) || truthy includeHidden)) items;
      out ← mapM (fun tableJson => parseTable tableJson includeHidden) kept;
      Ok (VArr out)
  | _ => Ok (VArr [])
  end.

(** ** Relationships *)

(** [new Map(entries)]: entries are inserted in order, so a later entry
    with the same key replaces an earlier one. *)
Definition newMap (entries : list (string * value)) : gmap string value :=
  foldl (fun m kv => <[kv.1 := kv.2]> m) ∅ entries.

(** [tableMap.get(k)] *)
Definition Map_get (tableMap : gmap string value) (k : string) : value :=
  default VUndef (tableMap !! k).

Definition parseRelationship (relJson : value) (tableMap : gmap string value)
  : result value :=
  rawFrom ← get relJson "fromTable";
  let fromTableName := coalesce rawFrom (VStr "") in
  rawTo ← get relJson "toTable";
  let toTableName := coalesce rawTo (VStr "") in
  fromKey ← toLowerCase fromTableName;
  let fromTable := Map_get tableMap fromKey in
  toKey ← toLowerCase toTableName;
  let toTable := Map_get tableMap toKey in
  name ← get relJson "name";
  fromColumn ← get relJson "fromColumn";
  toColumn ← get relJson "toColumn";
  crossFilterDirection ← get relJson "crossFilterDirection";
  fromCardinality ← get relJson "fromCardinality";
  toCardinality ← get relJson "toCardinality";
  isActive ← get relJson "isActive";
  isReferentialIntegrityEnforced ← get relJson "isReferentialIntegrityEnforced";
  Ok (VObj [("name", name);
            ("fromTable", fromTableName);
            ("toTable", toTableName);
            ("fromColumn", coalesce fromColumn (VStr ""));
            ("toColumn", coalesce toColumn (VStr ""));
            ("cardinality",
              mapCardinality crossFilterDirection fromCardinality toCardinality);
            ("crossFilteringBehavior",
              mapCrossFilteringBehavior crossFilterDirection);
            ("isActive", coalesce isActive (VBool true));
            ("isReferentialIntegrityEnforced", isReferentialIntegrityEnforced)]).

(** The entries [[t.name.toLowerCase(), t]] of the name index. *)
Definition tableEntries (tables : list value) : result (list (string * value)) :=
  mapM (fun t => name ← get t "name"; key ← toLowerCase name; Ok (key, t)) tables.

Definition parseRelationships (relationshipsJson tables : value) : result value :=
  match relationshipsJson with
  | VArr items =>
      match tables with
      | VArr ts =>
          entries ← tableEntries ts;
          let tableMap := newMap entries in
          out ← mapM (fun relJson => parseRelationship relJson tableMap) items;
          Ok (VArr out)
      | _ => Throw (TypeError "tables.map is not a function")
      end
  | _ => Ok (VArr [])
  end.

(** ** Model assembler *)

Definition parseDataModelSchema (modelJson includeAnnotations : value) : result value :=
  name ← get modelJson "name";
  compatibilityLevel ← get modelJson "compatibilityLevel";
  let schema := [("name", coalesce name (VStr "Model"));
                 ("compatibilityLevel", coalesce compatibilityLevel (VNum 0));
                 ("cultures", VArr []);
                 ("annotations", VArr [])] in
  cultures ← get modelJson "cultures";
  schema ←
    match cultures with
    | VArr items =>
        cs ← mapM (fun c =>
                     cname ← get c "name";
                     annotations ←
                       (if truthy includeAnnotations then
                          raw ← get c "annotations"; parseAnnotations raw
                        else Ok VUndef);
                     Ok (VObj [("name", cname); ("annotations", annotations)]))
                  items;
        Ok (set_prop "cultures" (VArr cs) schema)
    | _ => Ok schema
    end;
  annotations ← get modelJson "annotations";
  schema ←
    (if truthy annotations && truthy includeAnnotations then
       parsed ← parseAnnotations annotations;
       Ok (set_prop "annotations" parsed schema)
     else Ok schema);
  Ok (VObj schema).

Definition dquote : string := String "034"%char EmptyString.

Definition missing_model_message : string :=
  "BIM JSON is missing required " +:+ dquote +:+ "model" +:+ dquote +:+ " property".

Definition parseBimJson (json options : value) : result value :=
  rawAnnotations ← optget options "includeAnnotations";
  let includeAnnotations := coalesce rawAnnotations (VBool true) in
  rawHidden ← optget options "includeHiddenObjects";
  let includeHidden := coalesce rawHidden (VBool true) in
  modelJson ← get json "model";
  if negb (truthy modelJson) then
    Throw (TomParserError MISSING_REQUIRED_FIELD missing_model_message None)
  else
    model ← parseDataModelSchema modelJson includeAnnotations;
    tablesJson ← get modelJson "tables";
    tables ← parseTables (coalesce tablesJson (VArr [])) includeHidden;
    relationshipsJson ← get modelJson "relationships";
    relationships ← parseRelationships (coalesce relationshipsJson (VArr [])) tables;
    Ok (VObj [("model", model); ("tables", tables); ("relationships", relationships)]).

(** ** Encoding detector and document loader *)

(** A decoded text is its sequence of UTF-16 code units. *)
Definition text : Type := list N.

(** [buffer[i] === b]; an index past the end reads [undefined]. *)
Definition byteIs (buffer : list Byte.byte) (i : nat) (b : Byte.byte) : bool :=
  match buffer !! i with
  | Some x => Byte.eqb x b
  | None => false
  end.

(** [buffer.toString('utf16le')]: each pair of bytes is one code unit, low
    byte first; a trailing single byte is dropped. *)
Fixpoint utf16leDecode (buffer : list Byte.byte) : text :=
  match buffer with
  | lo :: hi :: rest => (Byte.to_N lo + 256 * Byte.to_N hi)%N :: utf16leDecode rest
  | _ => []
  end.

Fixpoint swapPairs (buffer : list Byte.byte) : list Byte.byte :=
  match buffer with
  | a :: b :: rest => b :: a :: swapPairs rest
  | rest => rest
  end.

(** [buffer.swap16()]: raises unless the length is a multiple of two. *)
Definition swap16 (buffer : list Byte.byte) : result (list Byte.byte) :=
  if Nat.even (length buffer) then Ok (swapPairs buffer)
  else Throw (RangeError "Buffer size must be a multiple of 16-bits").

(** [s.slice(1)] *)
Definition slice1 (s : text) : text := drop 1 s.

Definition isTomParserError (e : error) : bool :=
  match err_cls e with ClsTomParserError => true | _ => false end.

Definition isSyntaxError (e : error) : bool :=
  match err_cls e with ClsSyntaxError => true | _ => false end.

Definition codeIs (e : error) (c : string) : bool :=
  match err_code e with Some c' => String.eqb c' c | None => false end.

Section Loader.

(** The host facilities the loader calls: [buffer.toString('utf-8')],
    [fs.readFile] and [JSON.parse]. *)
Variable utf8Decode : list Byte.byte → text.
Variable readFile : string → result (list Byte.byte).
Variable JSON_parse : text → result value.

Definition detectAndDecodeBom (buffer : list Byte.byte) : result text :=
  if (3 <=? length buffer)%nat && byteIs buffer 0 Byte.xef
     && byteIs buffer 1 Byte.xbb && byteIs buffer 2 Byte.xbf
  then Ok (slice1 (utf8Decode buffer))
  else if (2 <=? length buffer)%nat && byteIs buffer 0 Byte.xff
          && byteIs buffer 1 Byte.xfe
  then Ok (slice1 (utf16leDecode buffer))
  else if (2 <=? length buffer)%nat && byteIs buffer 0 Byte.xfe
          && byteIs buffer 1 Byte.xff
  then swapped ← swap16 buffer; Ok (slice1 (utf16leDecode swapped))
  else if (4 <=? length buffer)%nat && byteIs buffer 1 Byte.x00
          && byteIs buffer 3 Byte.x00
  then
    let hasZeroAtEven := negb (byteIs buffer 0 Byte.x00) in
    if hasZeroAtEven
       || ((10 <? length buffer)%nat && byteIs buffer 2 Byte.x00
           && byteIs buffer 4 Byte.x00)
    then Ok (utf16leDecode buffer)
    else Ok (utf8Decode buffer)
  else Ok (utf8Decode buffer).

(** The body of the [try] block. *)
Definition loadAndParse (filePath : string) (options : value) : result value :=
  buffer ← readFile filePath;
  content ← detectAndDecodeBom buffer;
  json ← JSON_parse content;
  parseBimJson json options.

(** The [catch] block. *)
Definition classify (filePath : string) (err : error) : error :=
  if isTomParserError err then err
  else if codeIs err "ENOENT" then
    TomParserError FILE_NOT_FOUND ("BIM file not found: " +:+ filePath) (Some err)
  else if isSyntaxError err then
    TomParserError INVALID_JSON
      ("Invalid JSON in BIM file: " +:+ err_message err) (Some err)
  else
    TomParserError "UNKNOWN"
      ("Error parsing BIM file: " +:+ err_message err) (Some err).

Definition parseBimFile (filePath : string) (options : value) : result value :=
  match loadAndParse filePath options with
  | Ok model => Ok model
  | Throw err => Throw (classify filePath err)
  end.

End Loader.

(** ** Vocabulary of the statements *)

(** The value a read of [v.k] yields, [undefined] when the read raises. *)
Definition prop (v : value) (k : string) : value :=
  match get v k with Ok x => x | Throw _ => VUndef end.

(** The raw [isHidden] flag of an item is truthy. *)
Definition hidden (item : value) : bool := truthy (prop item "isHidden").

(** A [ParseOptions] object with both flags given. *)
Definition parseOptions (includeAnnotations includeHiddenObjects : bool) : value :=
  VObj [("includeAnnotations", VBool includeAnnotations);
        ("includeHiddenObjects", VBool includeHiddenObjects)].

(** The error [parseBimJson] raises for a document without a model. *)
Definition missingModel : error :=
  TomParserError MISSING_REQUIRED_FIELD missing_model_message None.

(** A name the index can lower-case: a string, or absent. *)
Definition nameable (v : value) : bool :=
  match v with VStr _ | VUndef | VNull => true | _ => false end.

(** Neither an array nor an object. *)
Definition primitive (v : value) : bool :=
  match v with VArr _ | VObj _ => false | _ => true end.

(** Every entry of the collection [v], when it is an array, satisfies [p]. *)
Definition entries (p : value → bool) (v : value) : bool :=
  match v with VArr items => forallb p items | _ => true end.

Definition present (v : value) : bool := negb (nullish v).

Definition columnShaped (c : value) : bool :=
  present c && primitive (prop c "dataType").

Definition tableShaped (t : value) : bool :=
  present t && nameable (prop t "name")
  && entries columnShaped (prop t "columns")
  && entries present (prop t "partitions")
  && entries present (prop t "measures").

Definition cultureShaped (c : value) : bool :=
  present c && entries present (prop c "annotations").

Definition relationshipShaped (r : value) : bool :=
  present r && nameable (prop r "fromTable") && nameable (prop r "toTable").

(** A model node whose collections hold objects, whose table names and
    relationship end points are strings or absent, and whose column data
    types are primitive values. *)
Definition modelShaped (m : value) : bool :=
  entries cultureShaped (prop m "cultures")
  && entries present (prop m "annotations")
  && entries tableShaped (prop m "tables")
  && entries relationshipShaped (prop m "relationships").

(** What [parseRelationship] builds from a relationship whose end points
    are strings or absent. *)
Definition relationshipRecord (r : value) : value :=
  VObj [("name", prop r "name");
        ("fromTable", coalesce (prop r "fromTable") (VStr ""));
        ("toTable", coalesce (prop r "toTable") (VStr ""));
        ("fromColumn", coalesce (prop r "fromColumn") (VStr ""));
        ("toColumn", coalesce (prop r "toColumn") (VStr ""));
        ("cardinality",
          mapCardinality (prop r "crossFilterDirection")
            (prop r "fromCardinality") (prop r "toCardinality"));
        ("crossFilteringBehavior",
          mapCrossFilteringBehavior (prop r "crossFilterDirection"));
        ("isActive", coalesce (prop r "isActive") (VBool true));
        ("isReferentialIntegrityEnforced",
          prop r "isReferentialIntegrityEnforced")].

(** A parsed table whose name is a string, and the key it gets in the
    name index. *)
Definition namedTable (t : value) : bool :=
  present t && match prop t "name" with VStr _ => true | _ => false end.

Definition tableKey (t : value) : string :=
  match prop t "name" with VStr s => lower s | _ => "" end.

(** The hidden-objects flag [parseBimJson] derives from its options. *)
Definition includeHiddenOf (options : value) : value :=
  coalesce (if nullish options then VUndef else prop options "includeHiddenObjects")
           (VBool true).

(** An error of the engine: a TypeError, which carries no code. *)
Definition engineError (e : error) : Prop := e = TypeError (err_message e).

(** * The parser over a store

    The same functions with the objects of the program in a store: a
    value is a primitive or a reference, an object or array lives in a
    cell, an object or array literal allocates a cell, and an assignment
    [obj.k = v] updates the cell of [obj] in place.  This is the model in
    which mutation of the caller's document can be stated. *)

Module Store.

Abbreviation loc := nat.

Inductive val : Type :=
| SUndef
| SNull
| SBool (b : bool)
| SNum (n : Z)
| SStr (s : string)
| SRef (l : loc)
| SBuiltin (f : builtin).

Inductive cell : Type :=
| CObj (props : list (string * val))
| CArr (items : list val).

(** The store: the cell of reference [l] is the [l]-th element; a new cell
    goes at the end. *)
Abbreviation heap := (list cell).

(** A computation reads and updates the store and returns or raises. *)
Definition comp (A : Type) : Type := heap → result A * heap.

#[global] Instance comp_ret : MRet comp := fun _ a h => (Ok a, h).
#[global] Instance comp_bind : MBind comp := fun _ _ f m h =>
  match m h with
  | (Ok a, h') => f a h'
  | (Throw e, h') => (Throw e, h')
  end.

Definition throw {A} (e : error) : comp A := fun h => (Throw e, h).

(** A primitive or built-in value of the tree model as a store value. *)
Definition ofValue (t : value) : val :=
  match t with
  | VUndef => SUndef
  | VNull => SNull
  | VBool b => SBool b
  | VNum n => SNum n
  | VStr s => SStr s
  | VBuiltin f => SBuiltin f
  | VArr _ | VObj _ => SUndef
  end.

Definition truthy (v : val) : bool :=
  match v with
  | SUndef | SNull => false
  | SBool b => b
  | SNum n => negb (n =? 0)%Z
  | SStr s => negb (String.eqb s "")
  | SRef _ | SBuiltin _ => true
  end.

Definition nullish (v : val) : bool :=
  match v with SUndef | SNull => true | _ => false end.

Definition coalesce (a b : val) : val := if nullish a then b else a.

Definition str_eq (v : val) (s : string) : bool :=
  match v with SStr s' => String.eqb s' s | _ => false end.

(** [v.k]: a read through a reference looks the property up in the cell. *)
Definition get (v : val) (k : string) : comp val := fun h =>
  match v with
  | SUndef => (Throw (TypeError ("Cannot read properties of undefined (reading '" +:+ k +:+ "')")), h)
  | SNull => (Throw (TypeError ("Cannot read properties of null (reading '" +:+ k +:+ "')")), h)
  | SRef l =>
      (Ok match h !! l with
          | Some (CObj ps) => default SUndef (lookup_prop k ps)
          | _ => SUndef
          end, h)
  | SBuiltin f =>
      (Ok (if String.eqb k "name" then ofValue (builtin_name f) else SUndef), h)
  | SBool _ | SNum _ | SStr _ => (Ok SUndef, h)
  end.

Definition optget (v : val) (k : string) : comp val :=
  if nullish v then mret SUndef else get v k.

(** An object or array literal: a fresh cell at the end of the store. *)
Definition alloc (c : cell) : comp val := fun h => (Ok (SRef (length h)), h ++ [c]).

(** [obj.k = v]: the cell of the object is replaced in place.  The parser
    assigns only to an object literal it has built, so an array or a
    built-in as target is left as it is; a primitive target raises, the
    module being strict code. *)
Definition setProp (obj : val) (k : string) (v : val) : comp unit := fun h =>
  match obj with
  | SRef l =>
      match h !! l with
      | Some (CObj ps) => (Ok tt, <[l := CObj (set_prop k v ps)]> h)
      | _ => (Ok tt, h)
      end
  | SUndef | SNull =>
      (Throw (TypeError ("Cannot set properties of undefined (setting '" +:+ k +:+ "')")), h)
  | SBool _ | SNum _ | SStr _ =>
      (Throw (TypeError ("Cannot create property '" +:+ k +:+ "'")), h)
  | SBuiltin _ => (Ok tt, h)
  end.

(** [Array.isArray(v)] together with the elements of the array. *)
Definition arrayItems (v : val) : comp (option (list val)) := fun h =>
  (Ok match v with
      | SRef l => match h !! l with Some (CArr xs) => Some xs | _ => None end
      | _ => None
      end, h).

Fixpoint filterM {A} (p : A → comp bool) (l : list A) : comp (list A) :=
  match l with
  | [] => mret []
  | x :: rest =>
      b ← p x;
      kept ← filterM p rest;
      mret (if b : bool then x :: kept else kept)
  end.

Definition toLowerCase (v : val) : comp string :=
  match v with
  | SStr s => mret (lower s)
  | SUndef | SNull => throw (TypeError "Cannot read properties of undefined (reading 'toLowerCase')")
  | _ => throw (TypeError "toLowerCase is not a function")
  end.

(** The tree a value denotes in a store, read to a bounded depth. *)
Fixpoint read (fuel : nat) (h : heap) (v : val) {struct fuel} : option value :=
  match v with
  | SUndef => Some VUndef
  | SNull => Some VNull
  | SBool b => Some (VBool b)
  | SNum n => Some (VNum n)
  | SStr s => Some (VStr s)
  | SBuiltin f => Some (VBuiltin f)
  | SRef l =>
      match fuel with
      | O => None
      | S fuel' =>
          match h !! l with
          | Some (CObj ps) =>
              VObj <$> mapM (fun kv => pair kv.1 <$> read fuel' h kv.2) ps
          | Some (CArr xs) => VArr <$> mapM (read fuel' h) xs
          | None => None
          end
      end
  end.

(** The property key of a value: the conversion walks the cells the value
    reaches; nesting deeper than the store has cells is a cycle, on which
    the engine exhausts its stack. *)
Definition propertyKey (v : val) : comp string := fun h =>
  match read (length h) h v with
  | Some t => (toPropertyKey t, h)
  | None =>
      (Throw (MkError ClsRangeError None "Maximum call stack size exceeded" None), h)
  end.

Definition mapDataType (dataType : val) : comp val :=
  if negb (truthy dataType) then mret (ofValue (DataType_value Unknown))
  else
    key ← propertyKey dataType;
    mret (coalesce (ofValue (typeMap_get key)) (ofValue (DataType_value Unknown))).

Definition mapPartitionSourceType (source : val) : comp val :=
  if negb (truthy source) then mret (ofValue (PartitionSourceType_value None_))
  else
    ty ← get source "type";
    if str_eq ty "m" then mret (ofValue (PartitionSourceType_value M))
    else
      expression ← get source "expression";
      if truthy expression then mret (ofValue (PartitionSourceType_value Calculated))
      else
        query ← get source "query";
        if truthy query then mret (ofValue (PartitionSourceType_value Query))
        else mret (ofValue (PartitionSourceType_value None_)).

Definition mapCardinality (crossFilterDirection fromCard toCard : val) : val :=
  if str_eq fromCard "1" && str_eq toCard "1" then ofValue (RelationshipCardinality_value OneToOne)
  else if str_eq fromCard "1" && str_eq toCard "*" then ofValue (RelationshipCardinality_value OneToMany)
  else if str_eq fromCard "*" && str_eq toCard "1" then ofValue (RelationshipCardinality_value ManyToOne)
  else ofValue (RelationshipCardinality_value OneToMany).

Definition mapCrossFilteringBehavior (crossFilterDirection : val) : val :=
  if str_eq crossFilterDirection "Both" then ofValue (CrossFilteringBehavior_value BothDirections)
  else if str_eq crossFilterDirection "OneDirection" then ofValue (CrossFilteringBehavior_value OneDirection)
  else ofValue (CrossFilteringBehavior_value NoneDirection).

Definition parseAnnotations (annotationsJson : val) : comp val :=
  items ← arrayItems annotationsJson;
  match items with
  | Some items =>
      out ← mapM (fun a =>
                    name ← get a "name";
                    value ← get a "value";
                    alloc (CObj [("name", coalesce name (SStr ""));
                                 ("value", coalesce value (SStr ""))])) items;
      alloc (CArr out)
  | None => alloc (CArr [])
  end.

Definition parseColumn (colJson : val) : comp val :=
  name ← get colJson "name";
  rawType ← get colJson "dataType";
  dataType ← mapDataType rawType;
  isHidden ← get colJson "isHidden";
  description ← get colJson "description";
  column ← alloc (CObj [("name", coalesce name (SStr "Column"));
                        ("dataType", dataType);
                        ("isHidden", isHidden);
                        ("description", description)]);
  expression ← get colJson "expression";
  (if truthy expression then setProp column "expression" expression
   else
     calculatedColumn ← get colJson "calculatedColumn";
     nested ← optget calculatedColumn "expression";
     if truthy nested then setProp column "expression" nested else mret tt);;
  formatString ← get colJson "formatString";
  (if truthy formatString then setProp column "formatString" formatString
   else mret tt);;
  summarizeBy ← get colJson "summarizeBy";
  (if truthy summarizeBy then setProp column "summarization" summarizeBy
   else mret tt);;
  mret column.

(** The hidden-object test of the three filters. *)
Definition keepItem (includeHidden : val) (item : val) : comp bool :=
  h ← get item "isHidden";
  mret (negb (truthy h) || truthy includeHidden).

Definition parseColumns (columnsJson includeHidden : val) : comp val :=
  items ← arrayItems columnsJson;
  match items with
  | Some items =>
      kept ← filterM (keepItem includeHidden) items;
      alloc (CArr kept);;
      out ← mapM parseColumn kept;
      alloc (CArr out)
  | None => alloc (CArr [])
  end.

Definition parsePartition (partitionJson : val) : comp val :=
  name ← get partitionJson "name";
  source ← get partitionJson "source";
  sourceType ← mapPartitionSourceType source;
  description ← get partitionJson "description";
  partition ← alloc (CObj [("name", coalesce name (SStr "Partition"));
                           ("sourceType", sourceType);
                           ("description", description)]);
  (if truthy source then
     expression ← get source "expression";
     (if truthy expression then setProp partition "expression" expression
      else mret tt);;
     query ← get source "query";
     (if truthy query then setProp partition "query" query else mret tt);;
     dataView ← get source "dataView";
     if truthy dataView then
       setProp partition "dataView"
         (if str_eq dataView "Sample" then ofValue (DataView_value Sample)
          else ofValue (DataView_value Full))
     else mret tt
   else mret tt);;
  mret partition.

Definition parsePartitions (partitionsJson : val) : comp val :=
  items ← arrayItems partitionsJson;
  match items with
  | Some items => out ← mapM parsePartition items; alloc (CArr out)
  | None => alloc (CArr [])
  end.

Definition parseMeasure (measureJson : val) : comp val :=
  name ← get measureJson "name";
  expression ← get measureJson "expression";
  formatString ← get measureJson "formatString";
  displayFolder ← get measureJson "displayFolder";
  isHidden ← get measureJson "isHidden";
  description ← get measureJson "description";
  alloc (CObj [("name", coalesce name (SStr "Measure"));
               ("expression", coalesce expression (SStr ""));
               ("formatString", formatString);
               ("displayFolder", displayFolder);
               ("isHidden", isHidden);
               ("description", description)]).

Definition parseMeasures (measuresJson includeHidden : val) : comp val :=
  items ← arrayItems measuresJson;
  match items with
  | Some items =>
      kept ← filterM (keepItem includeHidden) items;
      alloc (CArr kept);;
      out ← mapM parseMeasure kept;
      alloc (CArr out)
  | None => alloc (CArr [])
  end.

(** [raw ?? []]: the empty array literal is built only when it is used. *)
Definition orEmpty (raw : val) : comp val :=
  if nullish raw then alloc (CArr []) else mret raw.

Definition parseTable (tableJson includeHidden : val) : comp val :=
  name ← get tableJson "name";
  description ← get tableJson "description";
  isHidden ← get tableJson "isHidden";
  columnsJson ← get tableJson "columns";
  columnsJson ← orEmpty columnsJson;
  columns ← parseColumns columnsJson includeHidden;
  partitionsJson ← get tableJson "partitions";
  partitionsJson ← orEmpty partitionsJson;
  partitions ← parsePartitions partitionsJson;
  measuresJson ← get tableJson "measures";
  measuresJson ← orEmpty measuresJson;
  measures ← parseMeasures measuresJson includeHidden;
  alloc (CObj [("name", coalesce name (SStr "Table"));
               ("description", description);
               ("isHidden", isHidden);
               ("columns", columns);
               ("partitions", partitions);
               ("measures", measures)]).

Definition parseTables (tablesJson includeHidden : val) : comp val :=
  items ← arrayItems tablesJson;
  match items with
  | Some items =>
      kept ← filterM (keepItem includeHidden) items;
      alloc (CArr kept);;
      out ← mapM (fun tableJson => parseTable tableJson includeHidden) kept;
      alloc (CArr out)
  | None => alloc (CArr [])
  end.

(** The name index: the entry pairs and the Map are temporaries that the
    call does not return; they are kept outside the store. *)
Definition newMap (entries : list (string * val)) : gmap string val :=
  foldl (fun m kv => <[kv.1 := kv.2]> m) ∅ entries.

Definition Map_get (tableMap : gmap string val) (k : string) : val :=
  default SUndef (tableMap !! k).

Definition parseRelationship (relJson : val) (tableMap : gmap string val) : comp val :=
  rawFrom ← get relJson "fromTable";
  let fromTableName := coalesce rawFrom (SStr "") in
  rawTo ← get relJson "toTable";
  let toTableName := coalesce rawTo (SStr "") in
  fromKey ← toLowerCase fromTableName;
  let fromTable := Map_get tableMap fromKey in
  toKey ← toLowerCase toTableName;
  let toTable := Map_get tableMap toKey in
  name ← get relJson "name";
  fromColumn ← get relJson "fromColumn";
  toColumn ← get relJson "toColumn";
  crossFilterDirection ← get relJson "crossFilterDirection";
  fromCardinality ← get relJson "fromCardinality";
  toCardinality ← get relJson "toCardinality";
  isActive ← get relJson "isActive";
  isReferentialIntegrityEnforced ← get relJson "isReferentialIntegrityEnforced";
  alloc (CObj [("name", name);
               ("fromTable", fromTableName);
               ("toTable", toTableName);
               ("fromColumn", coalesce fromColumn (SStr ""));
               ("toColumn", coalesce toColumn (SStr ""));
               ("cardinality",
                 mapCardinality crossFilterDirection fromCardinality toCardinality);
               ("crossFilteringBehavior",
                 mapCrossFilteringBehavior crossFilterDirection);
               ("isActive", coalesce isActive (SBool true));
               ("isReferentialIntegrityEnforced", isReferentialIntegrityEnforced)]).

Definition tableEntries (tables : list val) : comp (list (string * val)) :=
  mapM (fun t => name ← get t "name"; key ← toLowerCase name; mret (key, t)) tables.

Definition parseRelationships (relationshipsJson tables : val) : comp val :=
  items ← arrayItems relationshipsJson;
  match items with
  | Some items =>
      ts ← arrayItems tables;
      match ts with
      | Some ts =>
          entries ← tableEntries ts;
          let tableMap := newMap entries in
          out ← mapM (fun relJson => parseRelationship relJson tableMap) items;
          alloc (CArr out)
      | None => throw (TypeError "tables.map is not a function")
      end
  | None => alloc (CArr [])
  end.

Definition parseCulture (includeAnnotations c : val) : comp val :=
  cname ← get c "name";
  annotations ←
    (if truthy includeAnnotations then
       raw ← get c "annotations"; parseAnnotations raw
     else mret SUndef);
  alloc (CObj [("name", cname); ("annotations", annotations)]).

Definition parseDataModelSchema (modelJson includeAnnotations : val) : comp val :=
  name ← get modelJson "name";
  compatibilityLevel ← get modelJson "compatibilityLevel";
  emptyCultures ← alloc (CArr []);
  emptyAnnotations ← alloc (CArr []);
  schema ← alloc (CObj [("name", coalesce name (SStr "Model"));
                        ("compatibilityLevel", coalesce compatibilityLevel (SNum 0));
                        ("cultures", emptyCultures);
                        ("annotations", emptyAnnotations)]);
  cultures ← get modelJson "cultures";
  items ← arrayItems cultures;
  match items with
  | Some items =>
      cs ← mapM (parseCulture includeAnnotations) items;
      arr ← alloc (CArr cs);
      setProp schema "cultures" arr
  | None => mret tt
  end;;
  annotations ← get modelJson "annotations";
  (if truthy annotations && truthy includeAnnotations then
     parsed ← parseAnnotations annotations;
     setProp schema "annotations" parsed
   else mret tt);;
  mret schema.

Definition parseBimJson (json options : val) : comp val :=
  rawAnnotations ← optget options "includeAnnotations";
  let includeAnnotations := coalesce rawAnnotations (SBool true) in
  rawHidden ← optget options "includeHiddenObjects";
  let includeHidden := coalesce rawHidden (SBool true) in
  modelJson ← get json "model";
  if negb (truthy modelJson) then
    throw (TomParserError MISSING_REQUIRED_FIELD missing_model_message None)
  else
    model ← parseDataModelSchema modelJson includeAnnotations;
    tablesJson ← get modelJson "tables";
    tablesJson ← orEmpty tablesJson;
    tables ← parseTables tablesJson includeHidden;
    relationshipsJson ← get modelJson "relationships";
    relationshipsJson ← orEmpty relationshipsJson;
    relationships ← parseRelationships relationshipsJson tables;
    alloc (CObj [("model", model); ("tables", tables);
                 ("relationships", relationships)]).

End Store.

(** A tree laid out in a store, children first. *)
Fixpoint layout (t : value) (h : Store.heap) : Store.val * Store.heap :=
  match t with
  | VArr items =>
      let '(vs, h1) :=
        (fix each (l : list value) (h : Store.heap) :=
           match l with
           | [] => ([], h)
           | x :: rest =>
               let '(v, h') := layout x h in
               let '(vs, h'') := each rest h' in
               (v :: vs, h'')
           end) items h in
      (Store.SRef (length h1), h1 ++ [Store.CArr vs])
  | VObj props =>
      let '(ps, h1) :=
        (fix each (l : list (string * value)) (h : Store.heap) :=
           match l with
           | [] => ([], h)
           | (k, x) :: rest =>
               let '(v, h') := layout x h in
               let '(ps, h'') := each rest h' in
               ((k, v) :: ps, h'')
           end) props h in
      (Store.SRef (length h1), h1 ++ [Store.CObj ps])
  | _ => (Store.ofValue t, h)
  end.

(** ** Relating the store to the tree model *)

(** The tree a store value denotes when only the cells of a region [Q]
    may be followed. *)
Fixpoint readIn (Q : Store.loc → bool) (fuel : nat) (h : Store.heap)
    (v : Store.val) {struct fuel} : option value :=
  match v with
  | Store.SUndef => Some VUndef
  | Store.SNull => Some VNull
  | Store.SBool b => Some (VBool b)
  | Store.SNum n => Some (VNum n)
  | Store.SStr s => Some (VStr s)
  | Store.SBuiltin f => Some (VBuiltin f)
  | Store.SRef l =>
      match fuel with
      | O => None
      | S fuel' =>
          if Q l then
            match h !! l with
            | Some (Store.CObj ps) =>
                VObj <$> mapM (fun kv => pair kv.1 <$> readIn Q fuel' h kv.2) ps
            | Some (Store.CArr xs) => VArr <$> mapM (readIn Q fuel' h) xs
            | None => None
            end
          else None
      end
  end.

(** [v] denotes the tree [t] in the store [h], through cells of [Q];
    when [bounded], with a depth no larger than the number of cells, which
    is what the conversion of a property key can follow. *)
Definition reads (bounded : bool) (Q : Store.loc → bool) (h : Store.heap)
    (v : Store.val) (t : value) : Prop :=
  ∃ fuel, (bounded = true → (fuel <= length h)%nat)
          ∧ readIn Q fuel h v = Some t.

Abbreviation denotes := (reads false).
Abbreviation denotesWithin := (reads true).

Definition everywhere : Store.loc → bool := fun _ => true.

(** The region [Q] together with every cell from [n] on, and the part of
    [Q] before [n]. *)
Definition orAbove (Q : Store.loc → bool) (n : nat) : Store.loc → bool :=
  fun l => Q l || (n <=? l)%nat.

Definition below (Q : Store.loc → bool) (n : nat) : Store.loc → bool :=
  fun l => Q l && (l <? n)%nat.

(** The region holds every cell that is not allocated yet. *)
Definition open (Q : Store.loc → bool) (h : Store.heap) : Prop :=
  ∀ l, (length h <= l)%nat → Q l = true.

(** A store computation started in [h] and a tree computation end
    alike: both return, with results related by [R] in the final store, or
    both raise the same error; the final store extends the base [h0]. *)
Definition simB {A B} (R : Store.heap → A → B → Prop) (h0 h : Store.heap)
    (m : Store.comp A) (p : result B) : Prop :=
  h0 `prefix_of` (m h).2
  ∧ match (m h).1, p with
    | Ok a, Ok b => R (m h).2 a b
    | Throw e, Throw e' => e = e'
    | _, _ => False
    end.

(** The same when the store only grows from where the computation starts. *)
Definition sim {A B} (R : Store.heap → A → B → Prop) (h : Store.heap)
    (m : Store.comp A) (p : result B) : Prop :=
  simB R h h m p.

(** The properties of a cell denote the properties of a tree object. *)
Definition fieldsDenote (Q : Store.loc → bool) (h : Store.heap)
    (ps : list (string * Store.val)) (pst : list (string * value)) : Prop :=
  Forall2 (fun kv y => kv.1 = y.1 ∧ denotes Q h kv.2 y.2) ps pst.

(** ** What a call touches and what it returns *)

(** A computation leaves the first [n] cells of the store as they are and
    removes no cell. *)
Definition untouched {A} (n : nat) (m : Store.comp A) : Prop :=
  ∀ h, (n <= length h)%nat →
       take n (m h).2 = take n h ∧ (length h <= length (m h).2)%nat.

(** The region [Q] without the cell [l]. *)
Definition without (Q : nat → bool) (l : nat) : nat → bool :=
  fun l' => Q l' && negb (l' =? l)%nat.

(** A computation that returns, returns a reference to a cell that did not
    exist when it started. *)
Definition returnsNew (m : Store.comp Store.val) : Prop :=
  ∀ h v h', m h = (Ok v, h') → ∃ l, v = Store.SRef l ∧ (length h <= l)%nat.

(** ** Vocabulary of the further properties *)

(** The two bytes of a UTF-16 code unit. *)
Definition lowByte (u : N) : Byte.byte :=
  default Byte.x00 (Byte.of_N (u mod 256)%N).

Definition highByte (u : N) : Byte.byte :=
  default Byte.x00 (Byte.of_N (u / 256)%N).

(** A text made of 16-bit code units, as every string of the engine is. *)
Definition codeUnits (t : text) : bool := forallb (fun u => (u <? 65536)%N) t.

(** The bytes of a text written as UTF-16, low byte first
    ([Buffer.from(t, 'utf16le')]) and high byte first. *)
Definition utf16leEncode (t : text) : list Byte.byte :=
  flat_map (fun u => [lowByte u; highByte u]) t.

Definition utf16beEncode (t : text) : list Byte.byte :=
  flat_map (fun u => [highByte u; lowByte u]) t.

(** The buffer begins with the bytes of [marker]. *)
Fixpoint startsWith (marker buffer : list Byte.byte) : bool :=
  match marker, buffer with
  | [], _ => true
  | m :: ms, b :: bs => Byte.eqb b m && startsWith ms bs
  | _ :: _, [] => false
  end.

(** No byte of the buffer is zero. *)
Definition nulFree (buffer : list Byte.byte) : bool :=
  forallb (fun b => negb (Byte.eqb b Byte.x00)) buffer.

(** The error [buffer.swap16()] raises on a buffer of odd length. *)
Definition oddSwap : error := RangeError "Buffer size must be a multiple of 16-bits".

(** *** The shape of what the normalisers return *)

(** The own properties of [v] are named [ks], in that order. *)
Fixpoint keysAre (ks : list string) (ps : list (string * value)) : bool :=
  match ks, ps with
  | [], [] => true
  | k :: ks', (k', _) :: ps' => String.eqb k k' && keysAre ks' ps'
  | _, _ => false
  end.

Definition hasKeys (ks : list string) (v : value) : bool :=
  match v with VObj ps => keysAre ks ps | _ => false end.

(** Those of the names [ks] that [v] has as own properties. *)
Definition optionalKeys (ks : list string) (v : value) : list string :=
  List.filter (fun k => has_prop k v) ks.

(** An array whose elements all satisfy [p]. *)
Definition arrayOf (p : value → bool) (v : value) : bool :=
  match v with VArr items => forallb p items | _ => false end.

(** One of the strings [vs]. *)
Definition oneOf (vs : list string) (v : value) : bool := existsb (str_eq v) vs.

Definition isString (v : value) : bool :=
  match v with VStr _ => true | _ => false end.

(** A [ColumnSchema]: the four fixed properties, then those of
    [expression], [formatString] and [summarization] that were set, each
    truthy. *)
Definition columnOut (c : value) : bool :=
  let optional := optionalKeys ["expression"; "formatString"; "summarization"] c in
  hasKeys (["name"; "dataType"; "isHidden"; "description"] ++ optional) c
  && present (prop c "name") && present (prop c "dataType")
  && forallb (fun k => truthy (prop c k)) optional.

(** A [PartitionSchema]: the three fixed properties, then those of
    [expression], [query] and [dataView] that were set, each truthy; the
    source type and the data view are enum members. *)
Definition partitionOut (p : value) : bool :=
  let optional := optionalKeys ["expression"; "query"; "dataView"] p in
  hasKeys (["name"; "sourceType"; "description"] ++ optional) p
  && present (prop p "name")
  && oneOf ["query"; "m"; "calculated"; "none"] (prop p "sourceType")
  && forallb (fun k => truthy (prop p k)) optional
  && (negb (has_prop "dataView" p) || oneOf ["full"; "sample"] (prop p "dataView")).

Definition measureOut (m : value) : bool :=
  hasKeys ["name"; "expression"; "formatString"; "displayFolder"; "isHidden";
           "description"] m
  && present (prop m "name") && present (prop m "expression").

Definition tableOut (t : value) : bool :=
  hasKeys ["name"; "description"; "isHidden"; "columns"; "partitions"; "measures"] t
  && present (prop t "name")
  && arrayOf columnOut (prop t "columns")
  && arrayOf partitionOut (prop t "partitions")
  && arrayOf measureOut (prop t "measures").

Definition relationshipOut (r : value) : bool :=
  hasKeys ["name"; "fromTable"; "toTable"; "fromColumn"; "toColumn"; "cardinality";
           "crossFilteringBehavior"; "isActive"; "isReferentialIntegrityEnforced"] r
  && isString (prop r "fromTable") && isString (prop r "toTable")
  && present (prop r "fromColumn") && present (prop r "toColumn")
  && oneOf ["1:1"; "1:*"; "*:1"] (prop r "cardinality")
  && oneOf ["bothDirections"; "oneDirection"; "none"] (prop r "crossFilteringBehavior")
  && present (prop r "isActive").

Definition annotationOut (a : value) : bool :=
  hasKeys ["name"; "value"] a
  && present (prop a "name") && present (prop a "value").

Definition cultureOut (c : value) : bool :=
  hasKeys ["name"; "annotations"] c
  && (match prop c "annotations" with VUndef => true | _ => false end
      || arrayOf annotationOut (prop c "annotations")).

Definition schemaOut (m : value) : bool :=
  hasKeys ["name"; "compatibilityLevel"; "cultures"; "annotations"] m
  && present (prop m "name") && present (prop m "compatibilityLevel")
  && arrayOf cultureOut (prop m "cultures")
  && arrayOf annotationOut (prop m "annotations").

(** The [TabularModel] that [parseBimJson] returns. *)
Definition modelOut (out : value) : bool :=
  hasKeys ["model"; "tables"; "relationships"] out
  && schemaOut (prop out "model")
  && arrayOf tableOut (prop out "tables")
  && arrayOf relationshipOut (prop out "relationships").

(** No table, column or measure of the table list has a truthy [isHidden]. *)
Definition noHidden (tables : value) : bool :=
  arrayOf (fun t => negb (hidden t)
                    && arrayOf (fun c => negb (hidden c)) (prop t "columns")
                    && arrayOf (fun m => negb (hidden m)) (prop t "measures"))
          tables.

(** *** A sample document, in the manner of the repository's tests *)

Definition sampleColumns : value :=
  VArr [VObj [("name", VStr "Amount"); ("dataType", VStr "Decimal");
              ("formatString", VStr "0.00"); ("summarizeBy", VStr "sum")];
        VObj [("name", VStr "Margin"); ("dataType", VStr "Double");
              ("isHidden", VBool true);
              ("calculatedColumn",
               VObj [("expression", VStr "[Amount] * 0.2")])]].

Definition samplePartition : value :=
  VObj [("name", VStr "Sales-2024");
        ("source", VObj [("type", VStr "query");
                         ("query", VStr "SELECT * FROM Sales");
                         ("dataView", VStr "Sample")])].

Definition sampleTable : value :=
  VObj [("name", VStr "Sales");
        ("columns", sampleColumns);
        ("partitions", VArr [samplePartition]);
        ("measures",
         VArr [VObj [("name", VStr "Total");
                     ("expression", VStr "SUM(Sales[Amount])")];
               VObj [("name", VStr "Internal"); ("isHidden", VBool true)]])].

Definition sampleRelationship : value :=
  VObj [("name", VStr "r1");
        ("fromTable", VStr "sales"); ("fromColumn", VStr "CustomerKey");
        ("toTable", VStr "Customer"); ("toColumn", VStr "Key");
        ("fromCardinality", VStr "*"); ("toCardinality", VStr "1");
        ("crossFilterDirection", VStr "Both")].

Definition sampleDocument : value :=
  VObj [("name", VStr "SemanticModel");
        ("model",
         VObj [("name", VStr "TestModel");
               ("compatibilityLevel", VNum 1500);
               ("cultures", VArr [VObj [("name", VStr "en-US")]]);
               ("annotations",
                VArr [VObj [("name", VStr "PBI_Version"); ("value", VStr "1.0")]]);
               ("tables",
                VArr [sampleTable;
                      VObj [("name", VStr "Customer"); ("isHidden", VBool true);
                            ("columns",
                             VArr [VObj [("name", VStr "Key");
                                         ("dataType", VStr "Int64");
                                         ("isHidden", VBool true)]])]]);
               ("relationships", VArr [sampleRelationship])])].

(** What a computation returned, [undefined] when it raised. *)
Definition returnedValue (r : result value) : value :=
  match r with Ok v => v | Throw _ => VUndef end.

(** The annotations flag [parseBimJson] derives from its options. *)
Definition includeAnnotationsOf (options : value) : value :=
  coalesce (if nullish options then VUndef else prop options "includeAnnotations")
           (VBool true).


(** * Properties of the enum mappers *)

Lemma coalesce_present a b : nullish a = false → coalesce a b = a.
Proof. unfold coalesce. by intros ->. Qed.

Lemma coalesce_nullish a b : nullish a = true → coalesce a b = b.
Proof. unfold coalesce. by intros ->. Qed.

Lemma get_present v k : nullish v = false → get v k = Ok (prop v k).
Proof. unfold prop. destruct v; simpl; intros; try done. Qed.

Lemma truthy_present v : truthy v = true → nullish v = false.
Proof. by destruct v. Qed.

(** Every row of the lookup table. *)
Lemma mapDataType_table :
  Forall (fun row => mapDataType (VStr row.1) = Ok (DataType_value row.2)) typeMap.
Proof. repeat constructor. Qed.

(** A token that names neither a row of the table nor a member of
    [Object.prototype] maps to [Unknown]. *)
Lemma mapDataType_unlisted (s : string) :
  assoc s typeMap = None → assoc s Object_prototype = None →
  mapDataType (VStr s) = Ok (DataType_value Unknown).
Proof.
  intros Hown Hproto. unfold mapDataType.
  destruct (negb (truthy (VStr s))); [done|].
  simpl. unfold typeMap_get. by rewrite Hown, Hproto.
Qed.

(** C3 (defect): [mapDataType] follows the lookup table on its twelve rows
    and sends the empty string and an absent value to [Unknown], but the
    token [constructor], which is no row of the table, is answered with the
    inherited [Object] constructor instead of [Unknown]. *)
Theorem mapDataType_inherited_key :
  mapDataType (VStr "Int64") = Ok (DataType_value Int64)
  ∧ mapDataType (VStr "Int32") = Ok (DataType_value Int64)
  ∧ mapDataType (VStr "Double") = Ok (DataType_value Double)
  ∧ mapDataType (VStr "Single") = Ok (DataType_value Double)
  ∧ mapDataType (VStr "Boolean") = Ok (DataType_value Boolean)
  ∧ mapDataType (VStr "String") = Ok (DataType_value String_)
  ∧ mapDataType (VStr "DateTime") = Ok (DataType_value DateTime)
  ∧ mapDataType (VStr "DateTimeOffset") = Ok (DataType_value DateTime)
  ∧ mapDataType (VStr "Decimal") = Ok (DataType_value Decimal)
  ∧ mapDataType (VStr "Binary") = Ok (DataType_value Binary)
  ∧ mapDataType (VStr "Table") = Ok (DataType_value Table)
  ∧ mapDataType (VStr "Variant") = Ok (DataType_value Variant)
  ∧ mapDataType (VStr "") = Ok (DataType_value Unknown)
  ∧ mapDataType VUndef = Ok (DataType_value Unknown)
  ∧ mapDataType (VStr "UnknownType") = Ok (DataType_value Unknown)
  ∧ assoc "constructor" typeMap = None
  ∧ mapDataType (VStr "constructor") = Ok (VBuiltin ObjectConstructor)
  ∧ VBuiltin ObjectConstructor ≠ DataType_value Unknown.
Proof. repeat split; try reflexivity. discriminate. Qed.

(** C5 (counterexample): a source whose [expression] property is present
    but empty is not mapped to [Calculated]; with a query beside it the
    result is [Query]. *)
Lemma mapPartitionSourceType_empty_expression :
  let source := VObj [("expression", VStr ""); ("query", VStr "SELECT 1")] in
  has_prop "expression" source = true
  ∧ str_eq (prop source "type") "m" = false
  ∧ mapPartitionSourceType source = Ok (PartitionSourceType_value Query)
  ∧ PartitionSourceType_value Query ≠ PartitionSourceType_value Calculated.
Proof. repeat split; try reflexivity. discriminate. Qed.

(** C5 (amended): the mapper never raises; a falsy source (absent, null)
    yields [None]; a source whose [type] is the string m yields [M] whatever
    else it carries; otherwise a truthy (non-empty) [expression] yields
    [Calculated]; otherwise a truthy [query] yields [Query]; otherwise
    [None]. *)
Theorem mapPartitionSourceType_spec (source : value) :
  mapPartitionSourceType source =
  Ok (PartitionSourceType_value
        (if negb (truthy source) then None_
         else if str_eq (prop source "type") "m" then M
         else if truthy (prop source "expression") then Calculated
         else if truthy (prop source "query") then Query
         else None_)).
Proof.
  unfold mapPartitionSourceType.
  destruct (truthy source) eqn:Ht; simpl; [|done].
  pose proof (truthy_present _ Ht) as Hp.
  rewrite !(get_present _ _ Hp). simpl.
  destruct (str_eq _ "m"); [done|].
  destruct (truthy (prop source "expression")); [done|].
  by destruct (truthy (prop source "query")).
Qed.

(** The precedence example of the specification. *)
Lemma mapPartitionSourceType_m_with_expression (e : string) :
  mapPartitionSourceType (VObj [("type", VStr "m"); ("expression", VStr e)])
  = Ok (PartitionSourceType_value M).
Proof. reflexivity. Qed.

Lemma mapPartitionSourceType_Ok source :
  ∃ r, mapPartitionSourceType source = Ok r.
Proof.
  unfold mapPartitionSourceType.
  destruct (truthy source) eqn:Ht; simpl; [|eauto].
  rewrite !(get_present _ _ (truthy_present _ Ht)). simpl.
  destruct (str_eq _ "m"); [eauto|].
  destruct (truthy (prop source "expression")); [eauto|].
  destruct (truthy (prop source "query")); eauto.
Qed.

Lemma str_eq_spec v s : str_eq v s = true ↔ v = VStr s.
Proof.
  destruct v; simpl; try (split; [done | discriminate]).
  split; [by intros ->%String.eqb_eq | intros [= ->]; apply String.eqb_refl].
Qed.

(** C6: the cardinality mapper sends the token pair one/one to [OneToOne],
    one/many to [OneToMany], many/one to [ManyToOne], and every other pair
    of values, many/many and absent tokens among them, to [OneToMany]; the
    cross-filter argument plays no part. *)
Theorem mapCardinality_exact (crossFilterDirection fromCard toCard : value) :
  mapCardinality crossFilterDirection (VStr "1") (VStr "1")
    = RelationshipCardinality_value OneToOne
  ∧ mapCardinality crossFilterDirection (VStr "1") (VStr "*")
    = RelationshipCardinality_value OneToMany
  ∧ mapCardinality crossFilterDirection (VStr "*") (VStr "1")
    = RelationshipCardinality_value ManyToOne
  ∧ mapCardinality crossFilterDirection (VStr "*") (VStr "*")
    = RelationshipCardinality_value OneToMany
  ∧ mapCardinality crossFilterDirection VUndef VUndef
    = RelationshipCardinality_value OneToMany
  ∧ (fromCard = VStr "1" ∧ toCard = VStr "1"
     ∨ fromCard = VStr "*" ∧ toCard = VStr "1"
     ∨ mapCardinality crossFilterDirection fromCard toCard
       = RelationshipCardinality_value OneToMany).
Proof.
  repeat split; try reflexivity.
  unfold mapCardinality.
  destruct (str_eq fromCard "1") eqn:F1, (str_eq toCard "1") eqn:T1; simpl;
    try (apply str_eq_spec in F1); try (apply str_eq_spec in T1); subst; auto.
  - destruct (str_eq toCard "*"); auto.
  - destruct (str_eq fromCard "*") eqn:Fs; [apply str_eq_spec in Fs; auto | auto].
  - destruct (str_eq toCard "*"); auto.
    all: by destruct (str_eq fromCard "*"); auto.
Qed.

(** * The encoding detector *)

Lemma byteIs_inj buffer i x y :
  byteIs buffer i x = true → byteIs buffer i y = true → x = y.
Proof.
  unfold byteIs. destruct (buffer !! i) as [b|]; [|done].
  intros Hx%Byte.byte_dec_bl Hy%Byte.byte_dec_bl. congruence.
Qed.

Lemma byteIs_length buffer i x : byteIs buffer i x = true → (i < length buffer)%nat.
Proof.
  unfold byteIs. destruct (buffer !! i) as [b|] eqn:E; [|done].
  intros _. by apply lookup_lt_Some in E.
Qed.

(** The detector raises exactly on a buffer of odd length that starts with
    the big-endian marker. *)
Lemma detectAndDecodeBom_raises utf8Decode (buffer : list Byte.byte) :
  (∃ e, detectAndDecodeBom utf8Decode buffer = Throw e)
  ↔ byteIs buffer 0 Byte.xfe = true ∧ byteIs buffer 1 Byte.xff = true
    ∧ Nat.even (length buffer) = false.
Proof.
  unfold detectAndDecodeBom, swap16. split.
  - intros [e He].
    repeat (case_match; try discriminate); simplify_eq/=.
    repeat match goal with H : _ && _ = true |- _ => apply andb_prop in H as [? ?] end.
    done.
  - intros (H0 & H1 & Hodd).
    assert (byteIs buffer 0 Byte.xef = false) as ->.
    { destruct (byteIs buffer 0 Byte.xef) eqn:E; [|done].
      by pose proof (byteIs_inj _ _ _ _ H0 E). }
    assert (byteIs buffer 0 Byte.xff = false) as ->.
    { destruct (byteIs buffer 0 Byte.xff) eqn:E; [|done].
      by pose proof (byteIs_inj _ _ _ _ H0 E). }
    rewrite H0, H1, Hodd, !andb_false_r.
    apply byteIs_length in H1.
    destruct (2 <=? length buffer)%nat eqn:E; [simpl; eauto|].
    apply Nat.leb_gt in E. lia.
Qed.

(** C2 (defect): on the three bytes FE FF 41, a big-endian marker followed
    by a single byte, the detector raises a RangeError from the byte swap
    and returns no text, while the little-endian path accepts the same odd
    length and drops the trailing byte. *)
Theorem detectAndDecodeBom_odd_big_endian (utf8Decode : list Byte.byte → text) :
  detectAndDecodeBom utf8Decode [Byte.xfe; Byte.xff; Byte.x41]
    = Throw (RangeError "Buffer size must be a multiple of 16-bits")
  ∧ detectAndDecodeBom utf8Decode [Byte.xff; Byte.xfe; Byte.x41] = Ok []
  ∧ detectAndDecodeBom utf8Decode [Byte.xfe; Byte.xff; Byte.x00; Byte.x41]
    = Ok [65%N].
Proof. repeat split; reflexivity. Qed.

(** The order of the detector's rules on the buffers it accepts. *)
Lemma detectAndDecodeBom_utf8_marker utf8Decode rest :
  detectAndDecodeBom utf8Decode (Byte.xef :: Byte.xbb :: Byte.xbf :: rest)
  = Ok (slice1 (utf8Decode (Byte.xef :: Byte.xbb :: Byte.xbf :: rest))).
Proof. reflexivity. Qed.

Lemma detectAndDecodeBom_utf16le_marker utf8Decode rest :
  detectAndDecodeBom utf8Decode (Byte.xff :: Byte.xfe :: rest)
  = Ok (utf16leDecode rest).
Proof. unfold detectAndDecodeBom. by destruct (3 <=? _)%nat. Qed.

Lemma utf16leDecode_swapPairs_marker rest :
  slice1 (utf16leDecode (swapPairs (Byte.xfe :: Byte.xff :: rest)))
  = utf16leDecode (swapPairs rest).
Proof. reflexivity. Qed.

Lemma detectAndDecodeBom_utf16be_marker utf8Decode rest :
  Nat.even (length rest) = true →
  detectAndDecodeBom utf8Decode (Byte.xfe :: Byte.xff :: rest)
  = Ok (utf16leDecode (swapPairs rest)).
Proof.
  intros Hev. unfold detectAndDecodeBom, swap16.
  destruct (3 <=? _)%nat; simpl; by rewrite Hev.
Qed.

(** * The document loader *)

(** C8: a failure of the load is mapped by first match.  An error that is
    already a TomParserError is rethrown as it is; otherwise the error is
    wrapped in a TomParserError whose code is FILE_NOT_FOUND when the
    error's code is ENOENT, else INVALID_JSON when it is a SyntaxError,
    else UNKNOWN, and the wrapper keeps the original error as its cause.
    A failure of the read, of the deserialisation or of the assembler is
    the failure that is mapped. *)
Theorem parseBimFile_failure_mapping
    (utf8Decode : list Byte.byte → text)
    (readFile : string → result (list Byte.byte))
    (JSON_parse : text → result value) (filePath : string) (options : value) :
  let run := parseBimFile utf8Decode readFile JSON_parse filePath options in
  match loadAndParse utf8Decode readFile JSON_parse filePath options with
  | Ok model => run = Ok model
  | Throw e =>
      ∃ e', run = Throw e'
        ∧ (if isTomParserError e then e' = e
           else err_cls e' = ClsTomParserError
                ∧ err_cause e' = Some e
                ∧ err_code e' =
                    Some (if codeIs e "ENOENT" then FILE_NOT_FOUND
                          else if isSyntaxError e then INVALID_JSON
                          else "UNKNOWN"))
  end
  ∧ (∀ e, readFile filePath = Throw e →
          run = Throw (classify filePath e))
  ∧ (∀ buffer content e,
        readFile filePath = Ok buffer →
        detectAndDecodeBom utf8Decode buffer = Ok content →
        JSON_parse content = Throw e →
        run = Throw (classify filePath e))
  ∧ (∀ buffer content json e,
        readFile filePath = Ok buffer →
        detectAndDecodeBom utf8Decode buffer = Ok content →
        JSON_parse content = Ok json →
        parseBimJson json options = Throw e →
        run = Throw (classify filePath e)
        ∧ (isTomParserError e = true → run = Throw e)).
Proof.
  intros run. subst run. unfold parseBimFile.
  split; [|split; [|split]].
  - destruct (loadAndParse _ _ _ _ _) as [model|e]; [done|].
    eexists; split; [done|]. unfold classify.
    destruct (isTomParserError e); [done|].
    destruct (codeIs e "ENOENT"); [done|].
    by destruct (isSyntaxError e).
  - intros e He. unfold loadAndParse. by rewrite He.
  - intros buffer content e Hr Hd Hp. unfold loadAndParse.
    rewrite Hr. simpl. rewrite Hd. simpl. by rewrite Hp.
  - intros buffer content json e Hr Hd Hp Hj. unfold loadAndParse.
    rewrite Hr. simpl. rewrite Hd. simpl. rewrite Hp. simpl. rewrite Hj.
    split; [done|]. intros Ht. unfold classify. by rewrite Ht.
Qed.

(** * The missing-model check *)

(** C10: a document whose [model] property is absent, or present and
    holding null, false, zero or the empty string, makes [parseBimJson]
    fail with the MissingRequiredField error, whatever the options. *)
Theorem parseBimJson_falsy_model (props : list (string * value)) (options m : value) :
  lookup_prop "model" props = Some m →
  m = VNull ∨ m = VBool false ∨ m = VNum 0 ∨ m = VStr "" →
  has_prop "model" (VObj props) = true
  ∧ parseBimJson (VObj props) options = Throw missingModel
  ∧ parseBimJson (VObj []) options = Throw missingModel
  ∧ err_code missingModel = Some MISSING_REQUIRED_FIELD.
Proof.
  intros Hm Hfalsy. split; [|split; [|split]].
  - unfold has_prop. apply bool_decide_eq_true. by rewrite Hm.
  - unfold parseBimJson.
    assert (Hopt : ∀ k, ∃ v, optget options k = Ok v).
    { intros k. unfold optget. destruct options; simpl; eauto. }
    destruct (Hopt "includeAnnotations") as [a ->].
    destruct (Hopt "includeHiddenObjects") as [h ->]. simpl.
    rewrite Hm. simpl.
    by destruct Hfalsy as [-> | [-> | [-> | ->]]].
  - unfold parseBimJson.
    assert (Hopt : ∀ k, ∃ v, optget options k = Ok v).
    { intros k. unfold optget. destruct options; simpl; eauto. }
    destruct (Hopt "includeAnnotations") as [a ->].
    by destruct (Hopt "includeHiddenObjects") as [h ->].
  - reflexivity.
Qed.

Lemma parseBimJson_falsy_model_witness :
  parseBimJson (VObj [("name", VStr "x"); ("model", VNum 0)])
    (parseOptions true false) = Throw missingModel.
Proof.
  apply (parseBimJson_falsy_model [("name", VStr "x"); ("model", VNum 0)]
           (parseOptions true false) (VNum 0)).
  - reflexivity.
  - right. right. left. reflexivity.
Defined.

(** * Where the normalisers can raise *)


Lemma bind_Throw {A B} (m : result A) (f : A → result B) e :
  m ≫= f = Throw e → m = Throw e ∨ ∃ a, m = Ok a ∧ f a = Throw e.
Proof. destruct m; simpl; eauto. intros [= ->]. by left. Qed.

Lemma bind_Ok {A B} (m : result A) (f : A → result B) b :
  m ≫= f = Ok b → ∃ a, m = Ok a ∧ f a = Ok b.
Proof. destruct m; simpl; eauto. discriminate. Qed.

Lemma mapM_Throw {A B} (f : A → result B) l e :
  mapM f l = Throw e → ∃ x, x ∈ l ∧ f x = Throw e.
Proof.
  induction l as [|x l IH]; simpl; [discriminate|].
  intros [H | (y & Hy & H)]%bind_Throw.
  - exists x. split; [left | done].
  - apply bind_Throw in H as [H | (ys & Hys & H)]; [|discriminate].
    destruct (IH H) as (z & Hz & Hf). exists z. split; [by right | done].
Qed.

Lemma filterM_Throw {A} (p : A → result bool) l e :
  filterM p l = Throw e → ∃ x, x ∈ l ∧ p x = Throw e.
Proof.
  induction l as [|x l IH]; simpl; [discriminate|].
  intros [H | (y & Hy & H)]%bind_Throw.
  - exists x. split; [left | done].
  - apply bind_Throw in H as [H | (ys & Hys & H)]; [|discriminate].
    destruct (IH H) as (z & Hz & Hf). exists z. split; [by right | done].
Qed.

Lemma get_engine v k e : get v k = Throw e → engineError e.
Proof. destruct v; simpl; intros [= <-] || discriminate; done. Qed.

Lemma optget_engine v k e : optget v k = Throw e → engineError e.
Proof. unfold optget. destruct (nullish v); [discriminate | apply get_engine]. Qed.

Lemma toLowerCase_engine v e : toLowerCase v = Throw e → engineError e.
Proof. destruct v; simpl; intros [= <-] || discriminate; done. Qed.

Lemma toPropertyKey_engine v e : toPropertyKey v = Throw e → engineError e.
Proof.
  revert e. induction v as [| | | | |items IH|props _|f] using value_nested_ind;
    intros e; simpl; try discriminate.
  - intros [H | (parts & Hparts & H)]%bind_Throw; [|discriminate].
    revert e H. induction items as [|x r IHr]; [discriminate|].
    intros e [H | (s & Hs & H)]%bind_Throw.
    + destruct (nullish x); [discriminate|]. eapply (Forall_inv IH); eauto.
    + apply bind_Throw in H as [H | (ss & Hss & H)]; [|discriminate].
      eapply IHr; eauto. by eapply Forall_inv_tail.
  - case_match; [intros [= <-]; done | discriminate].
  - destruct f; discriminate.
Qed.

Lemma mapPartitionSourceType_total source e :
  mapPartitionSourceType source = Throw e → False.
Proof. destruct (mapPartitionSourceType_Ok source) as [r ->]. discriminate. Qed.

(** Splits a raising computation into the step that raised. *)
Ltac raised :=
  repeat match goal with
    | H : Ok _ = Throw _ |- _ => discriminate H
    | H : Throw _ = Throw _ |- _ => injection H as <-
    | H : mapPartitionSourceType _ = Throw _ |- _ =>
        destruct (mapPartitionSourceType_total _ _ H)
    | H : get _ _ = Throw _ |- _ => exact (get_engine _ _ _ H)
    | H : optget _ _ = Throw _ |- _ => exact (optget_engine _ _ _ H)
    | H : toLowerCase _ = Throw _ |- _ => exact (toLowerCase_engine _ _ H)
    | H : toPropertyKey _ = Throw _ |- _ => exact (toPropertyKey_engine _ _ H)
    | H : _ ≫= _ = Throw _ |- _ => apply bind_Throw in H as [H | (? & ? & H)]
    | H : (if ?b then _ else _) = Throw _ |- _ => destruct b eqn:?
    | H : mapM _ _ = Throw _ |- _ => apply mapM_Throw in H as (? & ? & H)
    | H : filterM _ _ = Throw _ |- _ => apply filterM_Throw in H as (? & ? & H)
    | H : match ?v with VArr _ => _ | _ => _ end = Throw _ |- _ =>
        destruct v; try discriminate H
    end.

Lemma mapDataType_engine v e : mapDataType v = Throw e → engineError e.
Proof. unfold mapDataType. intros H. raised. Qed.

Lemma parseAnnotations_engine v e : parseAnnotations v = Throw e → engineError e.
Proof. unfold parseAnnotations. intros H. raised. Qed.

Lemma parseColumn_engine c e : parseColumn c = Throw e → engineError e.
Proof. unfold parseColumn. intros H. raised. eauto using mapDataType_engine. Qed.

Lemma parseColumns_engine v inc e : parseColumns v inc = Throw e → engineError e.
Proof. unfold parseColumns. intros H. raised. eauto using parseColumn_engine. Qed.

Lemma parsePartition_engine p e : parsePartition p = Throw e → engineError e.
Proof. unfold parsePartition. intros H. raised. Qed.

Lemma parsePartitions_engine v e : parsePartitions v = Throw e → engineError e.
Proof. unfold parsePartitions. intros H. raised. eauto using parsePartition_engine. Qed.

Lemma parseMeasure_engine m e : parseMeasure m = Throw e → engineError e.
Proof. unfold parseMeasure. intros H. raised. Qed.

Lemma parseMeasures_engine v inc e : parseMeasures v inc = Throw e → engineError e.
Proof. unfold parseMeasures. intros H. raised. eauto using parseMeasure_engine. Qed.

Lemma parseTable_engine t inc e : parseTable t inc = Throw e → engineError e.
Proof.
  unfold parseTable. intros H. raised;
    eauto using parseColumns_engine, parsePartitions_engine, parseMeasures_engine.
Qed.

Lemma parseTables_engine v inc e : parseTables v inc = Throw e → engineError e.
Proof. unfold parseTables. intros H. raised. eauto using parseTable_engine. Qed.

Lemma parseRelationship_engine r tm e :
  parseRelationship r tm = Throw e → engineError e.
Proof. unfold parseRelationship. intros H. raised. Qed.

Lemma parseRelationships_engine v tables e :
  parseRelationships v tables = Throw e → engineError e.
Proof.
  unfold parseRelationships, tableEntries. intros H.
  destruct v; try discriminate H. destruct tables; try (by injection H as <-).
  raised. eauto using parseRelationship_engine.
Qed.

Lemma parseDataModelSchema_engine m inc e :
  parseDataModelSchema m inc = Throw e → engineError e.
Proof.
  unfold parseDataModelSchema. intros H. raised;
    eauto using parseAnnotations_engine.
Qed.

Lemma optget_total options k : optget options k = Ok (if nullish options then VUndef else prop options k).
Proof.
  unfold optget. destruct (nullish options) eqn:E; [done|]. by apply get_present.
Qed.

(** The two ways [parseBimJson] can fail. *)
Lemma parseBimJson_Throw json options e :
  parseBimJson json options = Throw e →
  (e = missingModel ∧ nullish json = false ∧ truthy (prop json "model") = false)
  ∨ engineError e.
Proof.
  unfold parseBimJson. rewrite !optget_total. simpl.
  destruct (nullish json) eqn:Hj.
  { destruct json; try discriminate Hj; simpl; intros [= <-]; by right. }
  rewrite (get_present _ _ Hj). simpl.
  destruct (truthy (prop json "model")) eqn:Hm; simpl.
  - intros H. right. raised;
      eauto using parseDataModelSchema_engine, parseTables_engine,
        parseRelationships_engine.
  - intros [= <-]. by left.
Qed.

Lemma parseBimJson_missing json options :
  nullish json = false → truthy (prop json "model") = false →
  parseBimJson json options = Throw missingModel.
Proof.
  intros Hj Hm. unfold parseBimJson. rewrite !optget_total. simpl.
  rewrite (get_present _ _ Hj). simpl. by rewrite Hm.
Qed.

(** * Where the normalisers return *)

Lemma forallb_Forall {A} (p : A → bool) l :
  forallb p l = true ↔ Forall (fun x => p x = true) l.
Proof.
  induction l as [|x l IH]; simpl; [by split|].
  rewrite andb_true_iff, IH, Forall_cons. tauto.
Qed.

Lemma mapM_Ok {A B} (f : A → result B) l :
  Forall (fun x => ∃ y, f x = Ok y) l →
  ∃ ys, mapM f l = Ok ys ∧ Forall2 (fun x y => f x = Ok y) l ys.
Proof.
  induction 1 as [|x l [y Hy] _ (ys & Hys & IH)]; simpl.
  - exists []. by split.
  - exists (y :: ys). rewrite Hy. simpl. rewrite Hys. simpl.
    split; [done | by constructor].
Qed.

Lemma mapM_Forall2 {A B} (f : A → result B) l ys :
  mapM f l = Ok ys → Forall2 (fun x y => f x = Ok y) l ys.
Proof.
  revert ys. induction l as [|x l IH]; simpl; intros ys.
  - intros [= <-]. constructor.
  - intros (y & Hy & (zs & Hzs & [= <-])%bind_Ok)%bind_Ok.
    constructor; auto.
Qed.

Lemma mapM_length {A B} (f : A → result B) l ys :
  mapM f l = Ok ys → length ys = length l.
Proof. intros H%mapM_Forall2. symmetry. by eapply Forall2_length. Qed.

Lemma filterM_pure {A} (p : A → result bool) (q : A → bool) l :
  Forall (fun x => p x = Ok (q x)) l → filterM p l = Ok (List.filter q l).
Proof.
  induction 1 as [|x l Hx _ IH]; simpl; [done|].
  rewrite Hx. simpl. rewrite IH. simpl. by destruct (q x).
Qed.

(** The hidden-object filter of the three collections, on entries that are
    objects: the entries kept are those of the pure filter. *)
Lemma hidden_filter_pure (includeHidden : value) items :
  Forall (fun x => present x = true) items →
  filterM (fun x => h ← get x "isHidden";
                    Ok (negb (truthy h) || truthy includeHidden)) items
  = Ok (List.filter (fun x => negb (hidden x) || truthy includeHidden) items).
Proof.
  intros Hall. apply filterM_pure. eapply Forall_impl; [exact Hall|].
  intros x Hx. simpl in Hx. unfold present in Hx. apply negb_true_iff in Hx.
  by rewrite (get_present _ _ Hx).
Qed.

Lemma Forall_filter_keeps {A} (P : A → Prop) (q : A → bool) l :
  Forall P l → Forall P (List.filter q l).
Proof.
  induction 1 as [|x l Hx _ IH]; simpl; [constructor|].
  destruct (q x); [by constructor | done].
Qed.

Lemma get_Ok_prop v k x : get v k = Ok x → x = prop v k.
Proof. unfold prop. by intros ->. Qed.

Lemma present_get v k : present v = true → get v k = Ok (prop v k).
Proof. unfold present. intros H%negb_true_iff. by apply get_present. Qed.

Lemma mapDataType_primitive v :
  primitive v = true → ∃ d, mapDataType v = Ok d.
Proof.
  unfold mapDataType. destruct (negb (truthy v)); [eauto|].
  destruct v as [| | | | | | |[]]; simpl; try discriminate; eauto.
Qed.

Lemma parseAnnotations_Ok v :
  entries present v = true → ∃ out, parseAnnotations v = Ok (VArr out).
Proof.
  unfold parseAnnotations. destruct v; simpl; eauto.
  intros Hall%forallb_Forall.
  edestruct (mapM_Ok (fun a =>
               name ← get a "name"; val ← get a "value";
               Ok (VObj [("name", coalesce name (VStr ""));
                         ("value", coalesce val (VStr ""))])) items)
    as (out & -> & _); [|simpl; eauto].
  eapply Forall_impl; [exact Hall|]. intros a Ha. simpl in Ha.
  rewrite !(present_get _ _ Ha). simpl. eauto.
Qed.

Lemma parseColumn_Ok c : columnShaped c = true → ∃ r, parseColumn c = Ok r.
Proof.
  unfold columnShaped. intros [Hc Hd]%andb_prop.
  unfold parseColumn. rewrite !(present_get _ _ Hc). simpl.
  destruct (mapDataType_primitive _ Hd) as [d ->]. simpl.
  rewrite optget_total.
  destruct (truthy (prop c "expression")); simpl; [eauto|].
  destruct (truthy (if nullish _ then _ else _)); simpl; eauto.
Qed.

Lemma parseColumns_Ok v includeHidden :
  entries columnShaped v = true →
  ∃ out, parseColumns v includeHidden = Ok (VArr out).
Proof.
  unfold parseColumns. destruct v; simpl; eauto.
  intros Hall%forallb_Forall.
  rewrite hidden_filter_pure.
  2:{ eapply Forall_impl; [exact Hall|]. simpl. unfold columnShaped.
      by intros x [? ?]%andb_prop. }
  simpl.
  edestruct (mapM_Ok parseColumn) as (out & -> & _); [|simpl; eauto].
  apply Forall_filter_keeps. eapply Forall_impl; [exact Hall|].
  intros x Hx. by apply parseColumn_Ok.
Qed.

Lemma parsePartition_Ok p : present p = true → ∃ r, parsePartition p = Ok r.
Proof.
  intros Hp. unfold parsePartition. rewrite !(present_get _ _ Hp). simpl.
  destruct (mapPartitionSourceType_Ok (prop p "source")) as [st ->]. simpl.
  destruct (truthy (prop p "source")) eqn:Hs; simpl; [|eauto].
  rewrite !(get_present _ _ (truthy_present _ Hs)). simpl. eauto.
Qed.

Lemma parsePartitions_Ok v :
  entries present v = true → ∃ out, parsePartitions v = Ok (VArr out).
Proof.
  unfold parsePartitions. destruct v; simpl; eauto.
  intros Hall%forallb_Forall.
  edestruct (mapM_Ok parsePartition) as (out & -> & _); [|simpl; eauto].
  eapply Forall_impl; [exact Hall|]. intros x Hx. by apply parsePartition_Ok.
Qed.

Lemma parseMeasure_Ok m : present m = true → ∃ r, parseMeasure m = Ok r.
Proof.
  intros Hm. unfold parseMeasure. rewrite !(present_get _ _ Hm). simpl. eauto.
Qed.

Lemma parseMeasures_Ok v includeHidden :
  entries present v = true →
  ∃ out, parseMeasures v includeHidden = Ok (VArr out).
Proof.
  unfold parseMeasures. destruct v; simpl; eauto.
  intros Hall%forallb_Forall.
  rewrite hidden_filter_pure by done. simpl.
  edestruct (mapM_Ok parseMeasure) as (out & -> & _); [|simpl; eauto].
  apply Forall_filter_keeps. eapply Forall_impl; [exact Hall|].
  intros x Hx. by apply parseMeasure_Ok.
Qed.

Lemma entries_coalesce p v :
  entries p v = true → entries p (coalesce v (VArr [])) = true.
Proof. by destruct v. Qed.

(** A parsed table has a name the index can lower-case. *)
Lemma parseTable_Ok t includeHidden :
  tableShaped t = true →
  ∃ r, parseTable t includeHidden = Ok r
       ∧ present r = true ∧ (∃ s, prop r "name" = VStr s).
Proof.
  unfold tableShaped.
  intros [[[[Ht Hn]%andb_prop Hc]%andb_prop Hp]%andb_prop Hm]%andb_prop.
  unfold parseTable. rewrite !(present_get _ _ Ht). simpl.
  destruct (parseColumns_Ok _ includeHidden (entries_coalesce _ _ Hc)) as [cs ->].
  destruct (parsePartitions_Ok _ (entries_coalesce _ _ Hp)) as [ps ->].
  destruct (parseMeasures_Ok _ includeHidden (entries_coalesce _ _ Hm)) as [ms ->].
  simpl. eexists. split; [done|]. split; [done|].
  destruct (prop t "name"); try discriminate Hn; cbv; eauto.
Qed.

Lemma parseTables_Ok v includeHidden :
  entries tableShaped v = true →
  ∃ out, parseTables v includeHidden = Ok (VArr out)
         ∧ Forall (fun r => present r = true ∧ ∃ s, prop r "name" = VStr s) out.
Proof.
  unfold parseTables. destruct v; simpl; try (by eexists; split; [done|constructor]).
  intros Hall%forallb_Forall.
  rewrite hidden_filter_pure.
  2:{ eapply Forall_impl; [exact Hall|]. simpl. unfold tableShaped.
      by intros x [[[[? ?]%andb_prop ?]%andb_prop ?]%andb_prop ?]%andb_prop. }
  simpl.
  set (kept := List.filter _ items).
  assert (Hkept : Forall (fun x => tableShaped x = true) kept)
    by by apply Forall_filter_keeps.
  clearbody kept. clear Hall.
  induction Hkept as [|x l Hx _ (out & IH & Hout)]; simpl.
  - eexists. split; [done | constructor].
  - destruct (parseTable_Ok _ includeHidden Hx) as (r & -> & Hr). simpl.
    apply bind_Ok in IH as (ys & -> & [= <-]). simpl.
    eexists. split; [done|]. by constructor.
Qed.

Lemma tableEntries_Ok ts :
  Forall (fun r => present r = true ∧ ∃ s, prop r "name" = VStr s) ts →
  ∃ es, tableEntries ts = Ok es.
Proof.
  unfold tableEntries. intros Hall.
  edestruct (mapM_Ok (fun t => name ← get t "name"; key ← toLowerCase name;
                               Ok (key, t)) ts) as (es & -> & _); [|eauto].
  eapply Forall_impl; [exact Hall|]. intros t (Ht & s & Hs). simpl.
  rewrite (present_get _ _ Ht), Hs. simpl. eauto.
Qed.

Lemma toLowerCase_nameable v :
  nameable v = true → ∃ k, toLowerCase (coalesce v (VStr "")) = Ok k.
Proof. destruct v; try discriminate; simpl; eauto. Qed.

Lemma parseRelationship_Ok r (tableMap : gmap string value) :
  relationshipShaped r = true →
  parseRelationship r tableMap = Ok (relationshipRecord r).
Proof.
  unfold relationshipShaped. intros [[Hr Hf]%andb_prop Ht]%andb_prop.
  unfold parseRelationship. rewrite !(present_get _ _ Hr). simpl.
  destruct (toLowerCase_nameable _ Hf) as [kf ->].
  by destruct (toLowerCase_nameable _ Ht) as [kt ->].
Qed.

Lemma parseRelationships_Ok v ts :
  entries relationshipShaped v = true →
  Forall (fun r => present r = true ∧ ∃ s, prop r "name" = VStr s) ts →
  ∃ out, parseRelationships v (VArr ts) = Ok (VArr out).
Proof.
  unfold parseRelationships. destruct v; simpl; eauto.
  intros Hall%forallb_Forall Hts.
  destruct (tableEntries_Ok _ Hts) as [es ->]. simpl.
  edestruct (mapM_Ok (fun relJson => parseRelationship relJson (newMap es)))
    as (out & -> & _); [|simpl; eauto].
  eapply Forall_impl; [exact Hall|]. intros x Hx. simpl in Hx.
  rewrite (parseRelationship_Ok _ _ Hx). eauto.
Qed.

Lemma cultures_Ok includeAnnotations items :
  Forall (fun c => cultureShaped c = true) items →
  ∃ cs, mapM (fun c =>
                cname ← get c "name";
                annotations ←
                  (if truthy includeAnnotations then
                     raw ← get c "annotations"; parseAnnotations raw
                   else Ok VUndef);
                Ok (VObj [("name", cname); ("annotations", annotations)]))
             items = Ok cs.
Proof.
  intros Hc.
  edestruct (mapM_Ok (fun c =>
                cname ← get c "name";
                annotations ←
                  (if truthy includeAnnotations then
                     raw ← get c "annotations"; parseAnnotations raw
                   else Ok VUndef);
                Ok (VObj [("name", cname); ("annotations", annotations)]))
              items) as (cs & -> & _); [|eauto].
  eapply Forall_impl; [exact Hc|]. intros c Hcs. simpl in Hcs.
  unfold cultureShaped in Hcs. apply andb_prop in Hcs as [Hp Hann].
  rewrite !(present_get _ _ Hp). simpl.
  destruct (truthy includeAnnotations); simpl; [|eauto].
  destruct (parseAnnotations_Ok _ Hann) as [out ->]. simpl. eauto.
Qed.

Lemma parseDataModelSchema_Ok m includeAnnotations :
  present m = true →
  entries cultureShaped (prop m "cultures") = true →
  entries present (prop m "annotations") = true →
  ∃ r, parseDataModelSchema m includeAnnotations = Ok r.
Proof.
  intros Hm Hc Ha. unfold parseDataModelSchema.
  rewrite !(present_get _ _ Hm). simpl.
  destruct (prop m "cultures") eqn:Ecult; simpl.
  6:{ simpl in Hc. apply forallb_Forall in Hc.
      destruct (cultures_Ok includeAnnotations _ Hc) as [cs ->]. simpl.
      destruct (truthy (prop m "annotations") && truthy includeAnnotations);
        [|simpl; eauto].
      destruct (parseAnnotations_Ok _ Ha) as [out ->]. simpl. eauto. }
  all: destruct (truthy (prop m "annotations") && truthy includeAnnotations);
    [|simpl; eauto].
  all: destruct (parseAnnotations_Ok _ Ha) as [out ->]; simpl; eauto.
Qed.

Lemma truthy_prop_present v k : truthy (prop v k) = true → nullish v = false.
Proof. unfold prop. by destruct v. Qed.

Lemma parseBimJson_Ok json options :
  truthy (prop json "model") = true →
  modelShaped (prop json "model") = true →
  ∃ schema tables relationships,
    parseBimJson json options
    = Ok (VObj [("model", schema); ("tables", VArr tables);
                ("relationships", VArr relationships)]).
Proof.
  intros Hm. unfold modelShaped.
  intros [[[Hc Ha]%andb_prop Ht]%andb_prop Hr]%andb_prop.
  pose proof (truthy_prop_present _ _ Hm) as Hj.
  pose proof (truthy_present _ Hm) as Hp.
  unfold parseBimJson. rewrite !optget_total. simpl.
  rewrite (get_present _ _ Hj). simpl. rewrite Hm. simpl.
  edestruct (parseDataModelSchema_Ok (prop json "model")) as [schema ->];
    [by unfold present; rewrite Hp | done | done |].
  simpl. rewrite !(get_present _ _ Hp). simpl.
  edestruct (parseTables_Ok (coalesce (prop (prop json "model") "tables") (VArr [])))
    as (tables & -> & Htables); [by apply entries_coalesce|].
  simpl.
  edestruct (parseRelationships_Ok
               (coalesce (prop (prop json "model") "relationships") (VArr [])))
    as (rels & ->); [by apply entries_coalesce | exact Htables |].
  simpl. eauto.
Qed.

(** * The assembler's contract *)

(** C1 (counterexample): a document whose [model] property is present and
    holds null fails with MissingRequiredField, and one whose model holds a
    table list with a null entry has its [model] property and fails with a
    TypeError. *)
Lemma parseBimJson_model_present_fails :
  has_prop "model" (VObj [("model", VNull)]) = true
  ∧ parseBimJson (VObj [("model", VNull)]) VUndef = Throw missingModel
  ∧ has_prop "model" (VObj [("model", VObj [("tables", VArr [VNull])])]) = true
  ∧ parseBimJson (VObj [("model", VObj [("tables", VArr [VNull])])]) VUndef
    = Throw (TypeError "Cannot read properties of null (reading 'isHidden')").
Proof. repeat split; reflexivity. Qed.

(** C1 (amended): for a document that is not null, [parseBimJson] fails
    with the MissingRequiredField kind exactly when the [model] property is
    absent or falsy (null, false, zero, the empty string), and then returns
    no result; when the model is truthy and its collections are well shaped
    (entries are objects, table names and relationship end points are
    strings or absent, column data types are primitive) it returns a model
    with its schema, table list and relationship list; a collection that is
    not an array counts as empty. *)
Theorem parseBimJson_outcomes (json options : value) :
  nullish json = false →
  ((∃ e, parseBimJson json options = Throw e
         ∧ err_code e = Some MISSING_REQUIRED_FIELD)
   ↔ truthy (prop json "model") = false)
  ∧ (truthy (prop json "model") = false →
     parseBimJson json options = Throw missingModel)
  ∧ (truthy (prop json "model") = true →
     modelShaped (prop json "model") = true →
     ∃ schema tables relationships,
       parseBimJson json options
       = Ok (VObj [("model", schema); ("tables", VArr tables);
                   ("relationships", VArr relationships)]))
  ∧ (∀ collection includeHidden tables,
       isArray collection = false →
       parseTables collection includeHidden = Ok (VArr [])
       ∧ parseColumns collection includeHidden = Ok (VArr [])
       ∧ parseMeasures collection includeHidden = Ok (VArr [])
       ∧ parsePartitions collection = Ok (VArr [])
       ∧ parseAnnotations collection = Ok (VArr [])
       ∧ parseRelationships collection tables = Ok (VArr [])).
Proof.
  intros Hj. split; [|split; [|split]].
  - split.
    + intros (e & He & Hcode).
      apply parseBimJson_Throw in He as [(_ & _ & Hm) | He]; [done|].
      rewrite He in Hcode. discriminate.
    + intros Hm. exists missingModel. split; [|done].
      by apply parseBimJson_missing.
  - by apply parseBimJson_missing.
  - apply parseBimJson_Ok.
  - intros collection includeHidden tables Harr.
    by destruct collection.
Qed.

Lemma parseBimJson_outcomes_witness :
  ∃ schema tables relationships,
    parseBimJson
      (VObj [("model",
              VObj [("name", VStr "S"); ("compatibilityLevel", VNum 1500);
                    ("tables",
                     VArr [VObj [("name", VStr "T");
                                 ("columns",
                                  VArr [VObj [("name", VStr "C");
                                              ("dataType", VStr "Int64")]])]]);
                    ("relationships", VArr [])])])
      (parseOptions true false)
    = Ok (VObj [("model", schema); ("tables", VArr tables);
                ("relationships", VArr relationships)]).
Proof.
  refine (proj1 (proj2 (proj2 (parseBimJson_outcomes _ _ _))) _ _);
    reflexivity.
Defined.

(** * Hidden-object filtering *)

(** Splits a returning computation into its steps. *)
Ltac returned :=
  repeat match goal with
    | H : Throw _ = Ok _ |- _ => discriminate H
    | H : Ok _ = Ok _ |- _ => injection H as <-
    | H : get _ _ = Ok ?x |- _ => apply get_Ok_prop in H; subst x
    | H : _ ≫= _ = Ok _ |- _ => apply bind_Ok in H as (? & ? & H)
    | H : (if ?b then _ else _) = Ok _ |- _ => destruct b eqn:?
    end.

Lemma parseTable_isHidden t includeHidden r :
  parseTable t includeHidden = Ok r → prop r "isHidden" = prop t "isHidden".
Proof. unfold parseTable. intros H. returned. reflexivity. Qed.

Lemma parseColumn_isHidden c r :
  parseColumn c = Ok r → prop r "isHidden" = prop c "isHidden".
Proof.
  unfold parseColumn. intros H. returned;
    repeat match goal with |- context [if ?b then _ else _] => destruct b end;
    reflexivity.
Qed.

Lemma parseMeasure_isHidden m r :
  parseMeasure m = Ok r → prop r "isHidden" = prop m "isHidden".
Proof. unfold parseMeasure. intros H. returned. reflexivity. Qed.

(** What a returning [parseBimJson] was assembled from. *)
Lemma parseBimJson_Ok_inv json options out :
  parseBimJson json options = Ok out →
  let modelJson := prop json "model" in
  ∃ schema tables relationships,
    out = VObj [("model", schema); ("tables", tables);
                ("relationships", relationships)]
    ∧ parseTables (coalesce (prop modelJson "tables") (VArr []))
        (includeHiddenOf options) = Ok tables
    ∧ parseRelationships (coalesce (prop modelJson "relationships") (VArr []))
        tables = Ok relationships.
Proof.
  unfold parseBimJson. rewrite !optget_total. simpl. intros H.
  apply bind_Ok in H as (m & Hm & H). apply get_Ok_prop in Hm. subst m.
  destruct (truthy (prop json "model")) eqn:Ht; simpl in H; [|discriminate].
  pose proof (truthy_present _ Ht) as Hp.
  rewrite !(get_present _ _ Hp) in H. simpl in H.
  apply bind_Ok in H as (schema & _ & H).
  apply bind_Ok in H as (tables & Htables & H).
  apply bind_Ok in H as (rels & Hrels & [= <-]).
  by exists schema, tables, rels.
Qed.

(** The children of a table are normalised with the flag of the table
    level; its partitions take no flag. *)
Lemma parseTable_children t includeHidden r :
  parseTable t includeHidden = Ok r →
  parseColumns (coalesce (prop t "columns") (VArr [])) includeHidden
    = Ok (prop r "columns")
  ∧ parsePartitions (coalesce (prop t "partitions") (VArr []))
    = Ok (prop r "partitions")
  ∧ parseMeasures (coalesce (prop t "measures") (VArr [])) includeHidden
    = Ok (prop r "measures").
Proof. unfold parseTable. intros H. returned. by repeat split. Qed.

Lemma filter_sublist {A} (q : A → bool) l : List.filter q l `sublist_of` l.
Proof.
  induction l as [|x l IH]; simpl; [constructor|].
  destruct (q x); by constructor.
Qed.

Lemma filter_hidden_middle (q : value → bool) pre t post :
  q t = false → List.filter q (pre ++ t :: post) = List.filter q (pre ++ post).
Proof. intros Hq. rewrite !List.filter_app. simpl. by rewrite Hq. Qed.

(** C4: on a collection whose entries are objects, the tables, columns and
    measures that are normalised are exactly the entries kept by the
    filter, in their original order: with a falsy [includeHiddenObjects]
    these are the entries whose raw [isHidden] is falsy, with a truthy one
    all of them.  A hidden table is dropped before [parseTable] is called,
    so the result does not depend on it; an entry that is kept carries its
    raw [isHidden] value, and a kept table hands the same flag to its
    columns and measures.  The flag is true when the options are absent,
    it is the [includeHiddenObjects] option otherwise, and [parseBimJson]
    passes it to [parseTables].  Partitions and relationships are mapped
    one to one with no filter. *)
Theorem hidden_object_filtering (items : list value) (includeHidden : value) :
  Forall (fun x => present x = true) items →
  let kept :=
    List.filter (fun x => negb (hidden x) || truthy includeHidden) items in
  kept `sublist_of` items
  ∧ (truthy includeHidden = false →
     ∀ x, x ∈ kept ↔ x ∈ items ∧ hidden x = false)
  ∧ (truthy includeHidden = true → kept = items)
  ∧ parseTables (VArr items) includeHidden
    = (out ← mapM (fun t => parseTable t includeHidden) kept; Ok (VArr out))
  ∧ parseColumns (VArr items) includeHidden
    = (out ← mapM parseColumn kept; Ok (VArr out))
  ∧ parseMeasures (VArr items) includeHidden
    = (out ← mapM parseMeasure kept; Ok (VArr out))
  ∧ (∀ pre t post,
       items = pre ++ t :: post → hidden t = true →
       truthy includeHidden = false →
       parseTables (VArr items) includeHidden
       = parseTables (VArr (pre ++ post)) includeHidden)
  ∧ (∀ t r, parseTable t includeHidden = Ok r →
            prop r "isHidden" = prop t "isHidden"
            ∧ parseColumns (coalesce (prop t "columns") (VArr [])) includeHidden
              = Ok (prop r "columns")
            ∧ parseMeasures (coalesce (prop t "measures") (VArr [])) includeHidden
              = Ok (prop r "measures"))
  ∧ (∀ c r, parseColumn c = Ok r → prop r "isHidden" = prop c "isHidden")
  ∧ (∀ m r, parseMeasure m = Ok r → prop r "isHidden" = prop m "isHidden")
  ∧ includeHiddenOf VUndef = VBool true
  ∧ (∀ a hid, includeHiddenOf (parseOptions a hid) = VBool hid)
  ∧ (∀ json options out,
       parseBimJson json options = Ok out →
       parseTables (coalesce (prop (prop json "model") "tables") (VArr []))
         (includeHiddenOf options) = Ok (prop out "tables"))
  ∧ (∃ partitions, parsePartitions (VArr items) = Ok (VArr partitions)
                   ∧ length partitions = length items)
  ∧ (∀ tables out, parseRelationships (VArr items) tables = Ok out →
                   ∃ rs, out = VArr rs ∧ length rs = length items).
Proof.
  intros Hall kept. subst kept.
  repeat match goal with |- _ ∧ _ => split end.
  - apply filter_sublist.
  - intros Hinc x. rewrite Hinc.
    rewrite list_elem_of_In, List.filter_In, <- list_elem_of_In.
    rewrite orb_false_r, negb_true_iff. tauto.
  - intros Hinc. rewrite <- (List.forallb_filter_id
        (fun x => negb (hidden x) || truthy includeHidden) items) at 2; [done|].
    apply forallb_Forall, Forall_forall. intros x _. rewrite Hinc.
    apply orb_true_r.
  - unfold parseTables. by rewrite hidden_filter_pure.
  - unfold parseColumns. by rewrite hidden_filter_pure.
  - unfold parseMeasures. by rewrite hidden_filter_pure.
  - intros pre t post -> Ht Hinc. unfold parseTables.
    rewrite !hidden_filter_pure; [| |done].
    + simpl. rewrite filter_hidden_middle; [done|]. by rewrite Ht, Hinc.
    + apply Forall_app in Hall as [Hpre Hpost%Forall_cons_1].
      apply Forall_app. tauto.
  - intros t r Hr. split; [by eapply parseTable_isHidden|].
    destruct (parseTable_children _ _ _ Hr) as (Hc & _ & Hm). by split.
  - apply parseColumn_isHidden.
  - apply parseMeasure_isHidden.
  - reflexivity.
  - by intros a [].
  - intros json options out (schema & tables & rs & -> & Ht & _)%parseBimJson_Ok_inv.
    exact Ht.
  - destruct (parsePartitions_Ok (VArr items)) as [ps Hps].
    { by apply forallb_Forall. }
    exists ps. split; [done|]. unfold parsePartitions in Hps.
    apply bind_Ok in Hps as (out & Hout & [= <-]). by eapply mapM_length.
  - intros tables out. unfold parseRelationships.
    destruct tables; try discriminate.
    intros (es & _ & (rs & Hrs & [= <-])%bind_Ok)%bind_Ok.
    exists rs. split; [done|]. by eapply mapM_length.
Qed.

Lemma hidden_object_filtering_witness :
  parseTables
    (VArr [VObj [("name", VStr "Customer"); ("isHidden", VBool true);
                 ("columns", VArr [VNull])];
           VObj [("name", VStr "Sales")]])
    (VBool false)
  = parseTables (VArr [VObj [("name", VStr "Sales")]]) (VBool false).
Proof.
  refine (proj1 (proj2 (proj2 (proj2 (proj2 (proj2 (proj2
            (hidden_object_filtering
               [VObj [("name", VStr "Customer"); ("isHidden", VBool true);
                      ("columns", VArr [VNull])];
                VObj [("name", VStr "Sales")]] (VBool false) _)))))))
            [] (VObj [("name", VStr "Customer"); ("isHidden", VBool true);
                      ("columns", VArr [VNull])])
            [VObj [("name", VStr "Sales")]] _ _ _);
    [repeat constructor | reflexivity ..].
Defined.

(** * Relationship resolution *)

Lemma mapM_map {A B} (f : A → result B) (g : A → B) l :
  Forall (fun x => f x = Ok (g x)) l → mapM f l = Ok (map g l).
Proof.
  induction 1 as [|x l Hx _ IH]; simpl; [done|].
  rewrite Hx. simpl. by rewrite IH.
Qed.




Lemma tableEntries_named ts :
  Forall (fun t => namedTable t = true) ts →
  tableEntries ts = Ok (map (fun t => (tableKey t, t)) ts).
Proof.
  intros Hts. unfold tableEntries. apply mapM_map.
  eapply Forall_impl; [exact Hts|]. intros t Ht. simpl in Ht.
  unfold namedTable in Ht. apply andb_prop in Ht as [Hp Hn].
  rewrite (present_get _ _ Hp). simpl. unfold tableKey.
  by destruct (prop t "name").
Qed.



(** * The store model: what a call leaves untouched *)

Local Open Scope nat_scope.


Lemma untouched_ret {A} n (a : A) : untouched n (mret a : Store.comp A).
Proof. by intros h Hn. Qed.

Lemma untouched_throw {A} n e : untouched n (Store.throw e : Store.comp A).
Proof. by intros h Hn. Qed.

Lemma untouched_get n v k : untouched n (Store.get v k).
Proof. intros h Hn. by destruct v. Qed.

Lemma untouched_optget n v k : untouched n (Store.optget v k).
Proof.
  unfold Store.optget. destruct (Store.nullish v);
    [apply untouched_ret | apply untouched_get].
Qed.

Lemma untouched_arrayItems n v : untouched n (Store.arrayItems v).
Proof. by intros h Hn. Qed.

Lemma untouched_toLowerCase n v : untouched n (Store.toLowerCase v).
Proof. intros h Hn. by destruct v. Qed.

Lemma untouched_propertyKey n v : untouched n (Store.propertyKey v).
Proof.
  intros h Hn. unfold Store.propertyKey. by destruct (Store.read _ _ _).
Qed.

Lemma untouched_alloc n c : untouched n (Store.alloc c).
Proof.
  intros h Hn. simpl. rewrite take_app_le by done.
  rewrite length_app. simpl. split; [done | lia].
Qed.

Lemma untouched_setProp n l k v :
  n ≤ l → untouched n (Store.setProp (Store.SRef l) k v).
Proof.
  intros Hl h Hn. unfold Store.setProp. repeat case_match; simpl; try done.
  rewrite take_insert, length_insert. case_decide; [lia|]. split; [done | lia].
Qed.

Lemma untouched_bind {A B} n (m : Store.comp A) (k : A → Store.comp B) :
  untouched n m → (∀ a, untouched n (k a)) → untouched n (m ≫= k).
Proof.
  intros Hm Hk h Hn. unfold mbind, Store.comp_bind.
  destruct (Hm h Hn) as [Ht Hlen].
  destruct (m h) as [[a|e] h1]; simpl in *; [|done].
  destruct (Hk a h1) as [Ht' Hlen']; [lia|].
  split; [congruence | lia].
Qed.

Lemma untouched_bind_alloc {B} n c (k : Store.val → Store.comp B) :
  (∀ l, n ≤ l → untouched n (k (Store.SRef l))) →
  untouched n (Store.alloc c ≫= k).
Proof.
  intros Hk h Hn. unfold mbind, Store.comp_bind. simpl.
  destruct (Hk (length h) Hn (h ++ [c])) as [Ht Hlen].
  { rewrite length_app. simpl. lia. }
  rewrite take_app_le in Ht by done. rewrite length_app in Hlen. simpl in Hlen.
  split; [done | lia].
Qed.

Lemma untouched_mapM {A B} n (f : A → Store.comp B) l :
  (∀ x, untouched n (f x)) → untouched n (mapM f l).
Proof.
  intros Hf. induction l as [|x l IH]; simpl.
  - apply untouched_ret.
  - apply untouched_bind; [done|]. intros y.
    apply untouched_bind; [done|]. intros ys. apply untouched_ret.
Qed.

Lemma untouched_filterM {A} n (p : A → Store.comp bool) l :
  (∀ x, untouched n (p x)) → untouched n (Store.filterM p l).
Proof.
  intros Hp. induction l as [|x l IH]; simpl.
  - apply untouched_ret.
  - apply untouched_bind; [done|]. intros y.
    apply untouched_bind; [done|]. intros ys. apply untouched_ret.
Qed.

Create HintDb frame.

#[local] Hint Resolve untouched_ret untouched_throw untouched_get
  untouched_optget untouched_arrayItems untouched_toLowerCase
  untouched_propertyKey untouched_alloc : frame.

(** Walks a computation statement by statement. *)
Ltac framed :=
  repeat first
    [ solve [auto with frame nocore]
    | apply untouched_bind_alloc; intros ? ?
    | apply untouched_bind; [|intros ?]
    | apply untouched_setProp; lia
    | apply untouched_mapM; intros ?
    | apply untouched_filterM; intros ?
    | match goal with
      | |- untouched _ (if ?b then _ else _) => destruct b
      | |- untouched _ (match ?o with Some _ => _ | None => _ end) => destruct o
      end ].

Lemma untouched_mapDataType n v : untouched n (Store.mapDataType v).
Proof. unfold Store.mapDataType. framed. Qed.

Lemma untouched_mapPartitionSourceType n v :
  untouched n (Store.mapPartitionSourceType v).
Proof. unfold Store.mapPartitionSourceType. framed. Qed.

Lemma untouched_keepItem n inc x : untouched n (Store.keepItem inc x).
Proof. unfold Store.keepItem. framed. Qed.

Lemma untouched_orEmpty n v : untouched n (Store.orEmpty v).
Proof. unfold Store.orEmpty. framed. Qed.

#[local] Hint Resolve untouched_mapDataType untouched_mapPartitionSourceType
  untouched_keepItem untouched_orEmpty : frame.

Lemma untouched_parseAnnotations n v : untouched n (Store.parseAnnotations v).
Proof. unfold Store.parseAnnotations. framed. Qed.

Lemma untouched_parseColumn n c : untouched n (Store.parseColumn c).
Proof. unfold Store.parseColumn. framed. Qed.

Lemma untouched_parsePartition n p : untouched n (Store.parsePartition p).
Proof. unfold Store.parsePartition. framed. Qed.

Lemma untouched_parseMeasure n m : untouched n (Store.parseMeasure m).
Proof. unfold Store.parseMeasure. framed. Qed.

#[local] Hint Resolve untouched_parseAnnotations untouched_parseColumn
  untouched_parsePartition untouched_parseMeasure : frame.

Lemma untouched_parseColumns n v inc : untouched n (Store.parseColumns v inc).
Proof. unfold Store.parseColumns. framed. Qed.

Lemma untouched_parsePartitions n v : untouched n (Store.parsePartitions v).
Proof. unfold Store.parsePartitions. framed. Qed.

Lemma untouched_parseMeasures n v inc : untouched n (Store.parseMeasures v inc).
Proof. unfold Store.parseMeasures. framed. Qed.

#[local] Hint Resolve untouched_parseColumns untouched_parsePartitions
  untouched_parseMeasures : frame.

Lemma untouched_parseTable n t inc : untouched n (Store.parseTable t inc).
Proof. unfold Store.parseTable. framed. Qed.

#[local] Hint Resolve untouched_parseTable : frame.

Lemma untouched_parseTables n v inc : untouched n (Store.parseTables v inc).
Proof. unfold Store.parseTables. framed. Qed.

Lemma untouched_parseRelationship n r tm :
  untouched n (Store.parseRelationship r tm).
Proof. unfold Store.parseRelationship. framed. Qed.

#[local] Hint Resolve untouched_parseTables untouched_parseRelationship : frame.

Lemma untouched_parseRelationships n v ts :
  untouched n (Store.parseRelationships v ts).
Proof. unfold Store.parseRelationships, Store.tableEntries. framed. Qed.

Lemma untouched_parseCulture n inc c : untouched n (Store.parseCulture inc c).
Proof. unfold Store.parseCulture. framed. Qed.

#[local] Hint Resolve untouched_parseRelationships untouched_parseCulture : frame.

Lemma untouched_parseDataModelSchema n m inc :
  untouched n (Store.parseDataModelSchema m inc).
Proof. unfold Store.parseDataModelSchema. framed. Qed.

#[local] Hint Resolve untouched_parseDataModelSchema : frame.

Lemma untouched_parseBimJson n json options :
  untouched n (Store.parseBimJson json options).
Proof. unfold Store.parseBimJson. framed. Qed.

(** * The store model computes what the tree model computes *)

Lemma read_readIn n (h : list Store.cell) v :
  Store.read n h v = readIn everywhere n h v.
Proof.
  unfold everywhere.
  revert v. induction n as [|n IH]; intros v; destruct v; simpl; try done.
  destruct (h !! l) as [[ps|xs]|]; [| |done]; f_equal; apply mapM_ext; intros x.
  - f_equal. apply IH.
  - apply IH.
Qed.

(** More fuel, a larger region and a store that keeps the cells of the
    region give the same tree. *)
Lemma readIn_mono (Q Q' : Store.loc → bool) n n' (h h' : list Store.cell) v t :
  readIn Q n h v = Some t →
  n ≤ n' →
  (∀ l, Q l = true → Q' l = true) →
  (∀ l c, Q l = true → h !! l = Some c → h' !! l = Some c) →
  readIn Q' n' h' v = Some t.
Proof.
  intros Hread Hn HQ Hh. revert n' v t Hread Hn.
  induction n as [|n IH]; intros n' v t Hread Hn.
  - destruct v; simpl in *; try discriminate; by destruct n'.
  - destruct v; try (destruct n'; simpl in *; done).
    destruct n' as [|n']; [lia|]. simpl in *.
    destruct (Q l) eqn:Hl; [|discriminate]. rewrite (HQ _ Hl).
    destruct (h !! l) as [c|] eqn:Hc; [|discriminate].
    rewrite (Hh _ _ Hl Hc).
    destruct c as [ps|xs].
    + apply fmap_Some in Hread as (pst & Hps & ->).
      apply fmap_Some. exists pst. split; [|done].
      apply mapM_Some. apply mapM_Some in Hps.
      eapply Forall2_impl; [exact Hps|]. intros kv y Hy. simpl in *.
      apply fmap_Some in Hy as (tw & Hw & ->).
      apply fmap_Some. exists tw. split; [|done]. apply IH; [done | lia].
    + apply fmap_Some in Hread as (ts & Hxs & ->).
      apply fmap_Some. exists ts. split; [|done].
      apply mapM_Some. apply mapM_Some in Hxs.
      eapply Forall2_impl; [exact Hxs|]. intros x y Hy. simpl in *.
      apply IH; [done | lia].
Qed.

Lemma readIn_fuel Q n n' (h : list Store.cell) v t :
  readIn Q n h v = Some t → n ≤ n' → readIn Q n' h v = Some t.
Proof. intros. eapply readIn_mono; eauto. Qed.

Lemma readIn_prefix Q n (h h' : list Store.cell) v t :
  readIn Q n h v = Some t → h `prefix_of` h' → readIn Q n h' v = Some t.
Proof.
  intros Hr Hp. eapply readIn_mono; eauto.
  intros l c _ Hc. by eapply prefix_lookup_Some.
Qed.

Lemma reads_prefix b Q (h h' : list Store.cell) v t :
  reads b Q h v t → h `prefix_of` h' → reads b Q h' v t.
Proof.
  intros (n & Hle & Hn) Hp. exists n. split.
  - intros Hb. apply prefix_length in Hp. specialize (Hle Hb). lia.
  - by eapply readIn_prefix.
Qed.

Lemma reads_region b (Q Q' : Store.loc → bool) (h : list Store.cell) v t :
  reads b Q h v t → (∀ l, Q l = true → Q' l = true) → reads b Q' h v t.
Proof.
  intros (n & Hle & Hn) HQ. exists n. split; [done|].
  eapply readIn_mono; eauto.
Qed.

Lemma reads_denotes b Q (h : list Store.cell) v t :
  reads b Q h v t → denotes Q h v t.
Proof. intros (n & _ & Hn). exists n. by split. Qed.

(** A read follows allocated cells only. *)
Lemma reads_below b Q (h : list Store.cell) v t :
  reads b Q h v t → reads b (below Q (length h)) h v t.
Proof.
  intros (n & Hle & Hn). exists n. split; [done|]. clear Hle.
  revert v t Hn. induction n as [|n IH]; intros v t Hn.
  - by destruct v.
  - destruct v; try done. simpl in *. unfold below at 1.
    destruct (Q l) eqn:Hl; [|discriminate]. simpl.
    destruct (h !! l) as [c|] eqn:Hc; [|discriminate].
    apply lookup_lt_Some in Hc as Hlt. apply Nat.ltb_lt in Hlt as ->.
    destruct c as [ps|xs].
    + apply fmap_Some in Hn as (pst & Hps & ->).
      apply fmap_Some. exists pst. split; [|done].
      apply mapM_Some. apply mapM_Some in Hps.
      eapply Forall2_impl; [exact Hps|]. intros kv y Hy. simpl in *.
      apply fmap_Some in Hy as (tw & Hw & ->).
      apply fmap_Some. exists tw. split; [|done]. by apply IH.
    + apply fmap_Some in Hn as (ts & Hxs & ->).
      apply fmap_Some. exists ts. split; [|done].
      apply mapM_Some. apply mapM_Some in Hxs.
      eapply Forall2_impl; [exact Hxs|]. intros x y Hy. by apply IH.
Qed.

Lemma open_prefix Q (h h' : list Store.cell) :
  open Q h → h `prefix_of` h' → open Q h'.
Proof.
  intros Ho Hp l Hl. apply Ho. apply prefix_length in Hp. lia.
Qed.

(** The operators agree on a value and the tree it denotes. *)
Lemma readIn_truthy Q n (h : list Store.cell) v t :
  readIn Q n h v = Some t → Store.truthy v = truthy t.
Proof.
  destruct n, v; simpl; try (by intros [= <-]); try discriminate.
  destruct (Q l); [|discriminate].
  destruct (h !! l) as [[ps|xs]|]; [| |discriminate];
    by intros (? & _ & ->)%fmap_Some.
Qed.

Lemma readIn_nullish Q n (h : list Store.cell) v t :
  readIn Q n h v = Some t → Store.nullish v = nullish t.
Proof.
  destruct n, v; simpl; try (by intros [= <-]); try discriminate.
  destruct (Q l); [|discriminate].
  destruct (h !! l) as [[ps|xs]|]; [| |discriminate];
    by intros (? & _ & ->)%fmap_Some.
Qed.

Lemma readIn_str_eq Q n (h : list Store.cell) v t s :
  readIn Q n h v = Some t → Store.str_eq v s = str_eq t s.
Proof.
  destruct n, v; simpl; try (by intros [= <-]); try discriminate.
  destruct (Q l); [|discriminate].
  destruct (h !! l) as [[ps|xs]|]; [| |discriminate];
    by intros (? & _ & ->)%fmap_Some.
Qed.

Lemma readIn_ofValue Q n (h : list Store.cell) t :
  primitive t = true → readIn Q n h (Store.ofValue t) = Some t.
Proof. by destruct t, n. Qed.

Lemma readIn_undef Q n (h : list Store.cell) :
  readIn Q n h Store.SUndef = Some VUndef.
Proof. by destruct n. Qed.

Lemma lookup_prop_related {A B} (f : A → option B) k
    (ps : list (string * A)) (pst : list (string * B)) :
  Forall2 (fun kv y => pair kv.1 <$> f kv.2 = Some y) ps pst →
  match lookup_prop k pst with
  | Some tw => ∃ w, lookup_prop k ps = Some w ∧ f w = Some tw
  | None => lookup_prop k ps = None
  end.
Proof.
  induction 1 as [|[k1 w] [k2 tw] ps pst Hhd _ IH]; simpl; [done|].
  apply fmap_Some in Hhd as (tw' & Hw & [= ? ?]). simpl in *. subst.
  destruct (lookup_prop k pst) as [tx|].
  - destruct IH as (x & -> & Hx). eauto.
  - rewrite IH. destruct (String.eqb k _); eauto.
Qed.

(** A property read: the store and the tree raise alike or return related
    values, and the store is not changed. *)
Lemma get_related Q n (h : list Store.cell) v t k :
  readIn Q n h v = Some t →
  match get t k with
  | Ok tw => ∃ w, Store.get v k h = (Ok w, h) ∧ readIn Q (pred n) h w = Some tw
  | Throw e => Store.get v k h = (Throw e, h)
  end.
Proof.
  destruct v;
    try (destruct n; simpl; intros [= <-]; simpl; eauto using readIn_undef; fail).
  - destruct n as [|n]; simpl; [discriminate|]. destruct (Q l); [|discriminate].
    destruct (h !! l) as [[ps|xs]|]; [| |discriminate].
    + intros (pst & Hps%mapM_Some & ->)%fmap_Some. simpl.
      pose proof (lookup_prop_related _ k _ _ Hps) as Hk.
      destruct (lookup_prop k pst) as [tw|].
      * destruct Hk as (w & -> & Hw). eauto.
      * rewrite Hk. simpl. eauto using readIn_undef.
    + intros (ts & _ & ->)%fmap_Some. simpl. eauto using readIn_undef.
  - intros Hf. assert (t = VBuiltin f) as -> by (destruct n; simpl in Hf; congruence).
    simpl. eexists. split; [done|].
    destruct (String.eqb k "name"); [|apply readIn_undef].
    apply readIn_ofValue. by destruct f.
Qed.

(** ** Simulation rules *)

Lemma sim_ret {A B} (R : list Store.cell → A → B → Prop) h a b :
  R h a b → sim R h (mret a) (Ok b).
Proof. intros HR. split; [done | exact HR]. Qed.

Lemma sim_throw {A B} (R : list Store.cell → A → B → Prop) h e :
  sim R h (Store.throw e) (Throw e).
Proof. by split. Qed.

Lemma sim_bind {A A' B B'} (R1 : list Store.cell → A → A' → Prop)
    (R2 : list Store.cell → B → B' → Prop) h
    (m : Store.comp A) (p : result A') (k : A → Store.comp B) (kp : A' → result B') :
  sim R1 h m p →
  (∀ a b h1, h `prefix_of` h1 → R1 h1 a b → sim R2 h1 (k a) (kp b)) →
  sim R2 h (m ≫= k) (p ≫= kp).
Proof.
  intros [Hp Hm] Hk. unfold sim, simB, mbind, Store.comp_bind in *.
  destruct (m h) as [[a|e] h1]; simpl in *.
  - destruct p as [b|e']; [|done]. simpl.
    destruct (Hk a b h1 Hp Hm) as [Hp' Hk']. split; [|done].
    by etrans.
  - destruct p as [b|e']; [done|]. subst e'. by split.
Qed.

(** A step that does not change the store. *)
Lemma sim_bind_same {A A' B B'} (R1 : list Store.cell → A → A' → Prop)
    (R2 : list Store.cell → B → B' → Prop) h
    (m : Store.comp A) (p : result A') (k : A → Store.comp B) (kp : A' → result B') :
  (m h).2 = h →
  sim R1 h m p →
  (∀ a b, R1 h a b → sim R2 h (k a) (kp b)) →
  sim R2 h (m ≫= k) (p ≫= kp).
Proof.
  intros Hsame [Hp Hm] Hk. unfold sim, simB, mbind, Store.comp_bind in *.
  destruct (m h) as [[a|e] h1]; simpl in *; subst h1.
  - destruct p as [b|e']; [|done]. simpl. by apply Hk.
  - destruct p as [b|e']; [done|]. subst e'. by split.
Qed.

Lemma sim_weaken {A B} (R R' : list Store.cell → A → B → Prop) h m p :
  (∀ h' a b, h `prefix_of` h' → R h' a b → R' h' a b) →
  sim R h m p → sim R' h m p.
Proof.
  intros HR [Hp Hm]. split; [done|].
  destruct (m h).1, p; try done. by apply HR.
Qed.

Lemma get_same v k (h : list Store.cell) : (Store.get v k h).2 = h.
Proof. by destruct v. Qed.

Lemma sim_get b Q (h : list Store.cell) v t k :
  reads b Q h v t → sim (reads b Q) h (Store.get v k) (get t k).
Proof.
  intros (n & Hle & Hn). pose proof (get_related _ _ _ _ _ k Hn) as Hg.
  unfold sim, simB. destruct (get t k) as [tw|e].
  - destruct Hg as (w & -> & Hw). simpl. split; [done|].
    exists (pred n). split; [|done]. intros Hb. specialize (Hle Hb). lia.
  - rewrite Hg. by split.
Qed.

Lemma sim_bind_get {B B'} b Q (R : list Store.cell → B → B' → Prop)
    (h : list Store.cell) v t key (k : Store.val → Store.comp B)
    (kp : value → result B') :
  reads b Q h v t →
  (∀ w tw, reads b Q h w tw → sim R h (k w) (kp tw)) →
  sim R h (Store.get v key ≫= k) (get t key ≫= kp).
Proof.
  intros Hv Hk. eapply sim_bind_same; [apply get_same | by apply sim_get | done].
Qed.

Lemma reads_prim b Q (h : list Store.cell) t :
  primitive t = true → reads b Q h (Store.ofValue t) t.
Proof.
  intros Ht. exists 0. split; [lia|]. by apply readIn_ofValue.
Qed.

Lemma reads_undef b Q (h : list Store.cell) : reads b Q h Store.SUndef VUndef.
Proof. by apply (reads_prim b Q h VUndef). Qed.

Lemma reads_str b Q (h : list Store.cell) s : reads b Q h (Store.SStr s) (VStr s).
Proof. by apply (reads_prim b Q h (VStr s)). Qed.

Lemma reads_bool b Q (h : list Store.cell) x : reads b Q h (Store.SBool x) (VBool x).
Proof. by apply (reads_prim b Q h (VBool x)). Qed.

Lemma reads_num b Q (h : list Store.cell) n : reads b Q h (Store.SNum n) (VNum n).
Proof. by apply (reads_prim b Q h (VNum n)). Qed.

Lemma reads_truthy b Q (h : list Store.cell) v t :
  reads b Q h v t → Store.truthy v = truthy t.
Proof. intros (n & _ & Hn). by eapply readIn_truthy. Qed.

Lemma reads_nullish b Q (h : list Store.cell) v t :
  reads b Q h v t → Store.nullish v = nullish t.
Proof. intros (n & _ & Hn). by eapply readIn_nullish. Qed.

Lemma reads_str_eq b Q (h : list Store.cell) v t s :
  reads b Q h v t → Store.str_eq v s = str_eq t s.
Proof. intros (n & _ & Hn). by eapply readIn_str_eq. Qed.

Lemma reads_coalesce b Q (h : list Store.cell) v t w tw :
  reads b Q h v t → reads b Q h w tw →
  reads b Q h (Store.coalesce v w) (coalesce t tw).
Proof.
  intros Hv Hw. unfold Store.coalesce, coalesce.
  rewrite (reads_nullish _ _ _ _ _ Hv). by destruct (nullish t).
Qed.

Lemma sim_optget b Q (h : list Store.cell) v t k :
  reads b Q h v t → sim (reads b Q) h (Store.optget v k) (optget t k).
Proof.
  intros Hv. unfold Store.optget, optget.
  rewrite (reads_nullish _ _ _ _ _ Hv). destruct (nullish t).
  - apply sim_ret, reads_undef.
  - by apply sim_get.
Qed.

Lemma optget_same v k (h : list Store.cell) : (Store.optget v k h).2 = h.
Proof. unfold Store.optget. destruct (Store.nullish v); [done | apply get_same]. Qed.

Lemma sim_bind_optget {B B'} b Q (R : list Store.cell → B → B' → Prop)
    (h : list Store.cell) v t key (k : Store.val → Store.comp B)
    (kp : value → result B') :
  reads b Q h v t →
  (∀ w tw, reads b Q h w tw → sim R h (k w) (kp tw)) →
  sim R h (Store.optget v key ≫= k) (optget t key ≫= kp).
Proof.
  intros Hv Hk. eapply sim_bind_same; [apply optget_same | by apply sim_optget | done].
Qed.

(** Fuel that serves every element of a list. *)
Lemma Forall2_common_fuel {A B} (f : nat → A → option B) l k :
  (∀ n n' x y, f n x = Some y → n ≤ n' → f n' x = Some y) →
  Forall2 (fun x y => ∃ n, f n x = Some y) l k →
  ∃ n, Forall2 (fun x y => f n x = Some y) l k.
Proof.
  intros Hmono. induction 1 as [|x y l k [n Hn] _ [m IH]].
  - exists 0. constructor.
  - exists (n `max` m). constructor.
    + eapply Hmono; [exact Hn | lia].
    + eapply Forall2_impl; [exact IH|]. intros x' y' Hy. simpl in Hy.
      eapply Hmono; [exact Hy | lia].
Qed.

(** A new object or array denotes the tree of its parts. *)
Lemma denotes_new_obj Q (h : list Store.cell) ps pst :
  Q (length h) = true →
  Forall2 (fun kv y => kv.1 = y.1 ∧ denotes Q h kv.2 y.2) ps pst →
  denotes Q (h ++ [Store.CObj ps]) (Store.SRef (length h)) (VObj pst).
Proof.
  intros HQ Hall.
  destruct (Forall2_common_fuel
              (fun n (kv : string * Store.val) => pair kv.1 <$> readIn Q n h kv.2)
              ps pst) as [n Hn].
  { intros n n' x y (tw & Hw & ->)%fmap_Some Hle.
    apply fmap_Some. exists tw. split; [|done]. by eapply readIn_fuel. }
  { eapply Forall2_impl; [exact Hall|]. intros [k w] [k' tw] [Hk (n & _ & Hw)].
    simpl in *. subst k'. exists n. by rewrite Hw. }
  exists (S n). split; [done|]. simpl. rewrite HQ.
  rewrite lookup_app_r, Nat.sub_diag by done. simpl.
  apply fmap_Some. exists pst. split; [|done]. apply mapM_Some.
  eapply Forall2_impl; [exact Hn|]. intros kv y Hy. simpl in *.
  apply fmap_Some in Hy as (tw & Hw & ->).
  apply fmap_Some. exists tw. split; [|done].
  eapply readIn_prefix; [exact Hw | by apply prefix_app_r].
Qed.

Lemma denotes_new_arr Q (h : list Store.cell) xs ts :
  Q (length h) = true →
  Forall2 (denotes Q h) xs ts →
  denotes Q (h ++ [Store.CArr xs]) (Store.SRef (length h)) (VArr ts).
Proof.
  intros HQ Hall.
  destruct (Forall2_common_fuel (fun n => readIn Q n h) xs ts) as [n Hn].
  { intros n n' x y Hy Hle. by eapply readIn_fuel. }
  { eapply Forall2_impl; [exact Hall|]. intros x y (n & _ & Hy). by exists n. }
  exists (S n). split; [done|]. simpl. rewrite HQ.
  rewrite lookup_app_r, Nat.sub_diag by done. simpl.
  apply fmap_Some. exists ts. split; [|done]. apply mapM_Some.
  eapply Forall2_impl; [exact Hn|]. intros x y Hy. simpl in *.
  eapply readIn_prefix; [exact Hy | by apply prefix_app_r].
Qed.

Lemma sim_alloc_obj Q (h : list Store.cell) ps pst :
  open Q h →
  Forall2 (fun kv y => kv.1 = y.1 ∧ denotes Q h kv.2 y.2) ps pst →
  sim (denotes Q) h (Store.alloc (Store.CObj ps)) (Ok (VObj pst)).
Proof.
  intros Ho Hall. split; [by apply prefix_app_r|]. simpl.
  apply denotes_new_obj; [by apply Ho | done].
Qed.

Lemma sim_alloc_arr Q (h : list Store.cell) xs ts :
  open Q h →
  Forall2 (denotes Q h) xs ts →
  sim (denotes Q) h (Store.alloc (Store.CArr xs)) (Ok (VArr ts)).
Proof.
  intros Ho Hall. split; [by apply prefix_app_r|]. simpl.
  apply denotes_new_arr; [by apply Ho | done].
Qed.

Lemma arrayItems_related b Q (h : list Store.cell) v t :
  reads b Q h v t →
  match t with
  | VArr ts =>
      ∃ xs, Store.arrayItems v h = (Ok (Some xs), h)
            ∧ Forall2 (reads b Q h) xs ts
  | _ => Store.arrayItems v h = (Ok None, h)
  end.
Proof.
  intros (n & Hle & Hn).
  destruct v; try (destruct n; simpl in Hn; injection Hn as <-; done).
  destruct n as [|n]; [done|]. simpl in Hn. unfold Store.arrayItems.
  destruct (Q l); [|done].
  destruct (h !! l) as [[ps|xs]|]; [| |done].
  - by apply fmap_Some in Hn as (pst & _ & ->).
  - apply fmap_Some in Hn as (ts & Hxs%mapM_Some & ->).
    exists xs. split; [done|].
    eapply Forall2_impl; [exact Hxs|]. intros x y Hy. exists n.
    split; [|done]. intros Hb. specialize (Hle Hb). lia.
Qed.

Lemma Forall2_reads_prefix b Q (h h' : list Store.cell) xs ts :
  Forall2 (reads b Q h) xs ts → h `prefix_of` h' → Forall2 (reads b Q h') xs ts.
Proof.
  intros Hall Hp. eapply Forall2_impl; [exact Hall|].
  intros x y Hy. by eapply reads_prefix.
Qed.

Lemma Forall2_reads_denotes b Q (h : list Store.cell) xs ts :
  Forall2 (reads b Q h) xs ts → Forall2 (denotes Q h) xs ts.
Proof.
  intros Hall. eapply Forall2_impl; [exact Hall|].
  intros x y Hy. by eapply reads_denotes.
Qed.

Lemma sim_mapM {A A' B B'} (Rin : list Store.cell → A → A' → Prop)
    (Rout : list Store.cell → B → B' → Prop) h
    (f : A → Store.comp B) (fp : A' → result B') xs ts :
  (∀ h1 h2 a b, h1 `prefix_of` h2 → Rin h1 a b → Rin h2 a b) →
  (∀ h1 h2 a b, h1 `prefix_of` h2 → Rout h1 a b → Rout h2 a b) →
  (∀ h1 x tx, h `prefix_of` h1 → Rin h1 x tx → sim Rout h1 (f x) (fp tx)) →
  Forall2 (Rin h) xs ts →
  sim (fun h' => Forall2 (Rout h')) h (mapM f xs) (mapM fp ts).
Proof.
  intros Hin Hout Hf Hall. revert ts h Hf Hall.
  induction xs as [|x xs IH]; intros ts h Hf Hall.
  - apply Forall2_nil_inv_l in Hall as ->. simpl. apply sim_ret. constructor.
  - apply Forall2_cons_inv_l in Hall as (tx & ts' & Hx & Hxs & ->). simpl.
    eapply sim_bind; [by apply Hf|]. intros y ty h1 Hp1 Hy.
    eapply sim_bind.
    + apply IH.
      * intros h2 x' tx' Hp2. apply Hf. by etrans.
      * eapply Forall2_impl; [exact Hxs|]. intros a b0. by apply Hin.
    + intros ys tys h2 Hp2 Hys. apply sim_ret. constructor; [|done].
      by eapply Hout.
Qed.

Lemma sim_keepItem b b' Q (h : list Store.cell) inc tinc x tx :
  reads b' Q h inc tinc → reads b Q h x tx →
  sim (fun _ (a c : bool) => a = c) h (Store.keepItem inc x)
      (hd ← get tx "isHidden"; Ok (negb (truthy hd) || truthy tinc))
  ∧ (Store.keepItem inc x h).2 = h.
Proof.
  intros Hinc Hx. unfold Store.keepItem. split.
  - eapply sim_bind_get; [exact Hx|]. intros w tw Hw. apply sim_ret.
    by rewrite (reads_truthy _ _ _ _ _ Hw), (reads_truthy _ _ _ _ _ Hinc).
  - unfold mbind, Store.comp_bind. pose proof (get_same x "isHidden" h) as Hs.
    destruct (Store.get x "isHidden" h) as [[a|e] h1]; simpl in *; by subst.
Qed.

(** The hidden-object filter keeps related entries and leaves the store. *)
Lemma sim_filter b b' Q (h : list Store.cell) inc tinc xs ts :
  reads b' Q h inc tinc →
  Forall2 (reads b Q h) xs ts →
  sim (fun h' => Forall2 (reads b Q h')) h
      (Store.filterM (Store.keepItem inc) xs)
      (filterM (fun x => hd ← get x "isHidden";
                         Ok (negb (truthy hd) || truthy tinc)) ts).
Proof.
  intros Hinc Hall. induction Hall as [|x tx xs ts Hx Hxs IH]; simpl.
  - apply sim_ret. constructor.
  - destruct (sim_keepItem b b' Q h inc tinc x tx Hinc Hx) as [Hk Hsame].
    eapply sim_bind_same; [exact Hsame | exact Hk |].
    intros keep keep' <-.
    eapply sim_bind; [exact IH|]. intros ys tys h1 Hp Hys.
    apply sim_ret. destruct keep; [|done]. constructor; [|done].
    by eapply reads_prefix.
Qed.

Lemma typeMap_get_primitive key : primitive (typeMap_get key) = true.
Proof.
  unfold typeMap_get. destruct (assoc key typeMap) as [d|]; [by destruct d|].
  by destruct (assoc key Object_prototype).
Qed.

Lemma sim_propertyKey Q (h : list Store.cell) v t :
  denotesWithin Q h v t →
  sim (fun _ (a c : string) => a = c) h (Store.propertyKey v) (toPropertyKey t).
Proof.
  intros (n & Hle & Hn). unfold sim, simB, Store.propertyKey.
  rewrite read_readIn.
  rewrite (readIn_mono Q everywhere n (length h) h h v t Hn); [|by apply Hle|done|done].
  simpl. split; [done|]. by destruct (toPropertyKey t).
Qed.

Lemma sim_mapDataType Q (h : list Store.cell) v t :
  denotesWithin Q h v t →
  sim (denotes Q) h (Store.mapDataType v) (mapDataType t).
Proof.
  intros Hv. unfold Store.mapDataType, mapDataType.
  rewrite (reads_truthy _ _ _ _ _ Hv). destruct (negb (truthy t)).
  - apply sim_ret. by apply reads_prim.
  - eapply sim_bind; [by apply (sim_propertyKey Q)|].
    intros key key' h1 Hp <-. apply sim_ret.
    apply reads_coalesce; apply reads_prim; [apply typeMap_get_primitive | done].
Qed.

Lemma sim_mapPartitionSourceType b Q (h : list Store.cell) v t :
  reads b Q h v t →
  sim (denotes Q) h (Store.mapPartitionSourceType v) (mapPartitionSourceType t)
  ∧ (Store.mapPartitionSourceType v h).2 = h.
Proof.
  intros Hv. unfold Store.mapPartitionSourceType, mapPartitionSourceType.
  rewrite (reads_truthy _ _ _ _ _ Hv). destruct (negb (truthy t)).
  { split; [|done]. apply sim_ret. by apply reads_prim. }
  split.
  - eapply sim_bind_get; [exact Hv|]. intros ty tty Hty.
    rewrite (reads_str_eq _ _ _ _ _ _ Hty). destruct (str_eq tty "m").
    { apply sim_ret. by apply reads_prim. }
    eapply sim_bind_get; [exact Hv|]. intros e te He.
    rewrite (reads_truthy _ _ _ _ _ He). destruct (truthy te).
    { apply sim_ret. by apply reads_prim. }
    eapply sim_bind_get; [exact Hv|]. intros q tq Hq.
    rewrite (reads_truthy _ _ _ _ _ Hq). destruct (truthy tq);
      apply sim_ret; by apply reads_prim.
  - unfold Store.mapPartitionSourceType, mbind, Store.comp_bind.
    repeat (match goal with
            | |- context [Store.get ?x ?k h] =>
                pose proof (get_same x k h);
                destruct (Store.get x k h) as [[?|?] ?]; simpl in *; subst
            | |- context [if ?c then _ else _] => destruct c
            end; try done).
Qed.

(** ** Objects under construction *)

Lemma fieldsDenote_set_prop Q (h : list Store.cell) ps pst k v tv :
  fieldsDenote Q h ps pst → denotes Q h v tv →
  fieldsDenote Q h (set_prop k v ps) (set_prop k tv pst).
Proof.
  intros Hall Hv. induction Hall as [|[k1 w] [k2 tw] ps pst [Hk Hw] Htl IH]; simpl.
  - constructor; [by split | constructor].
  - simpl in *. subst k2. destruct (String.eqb k k1).
    + constructor; [by split | exact Htl].
    + constructor; [by split | exact IH].
Qed.

Lemma fieldsDenote_mono (Q Q' : Store.loc → bool) (h h' : list Store.cell) ps pst :
  fieldsDenote Q h ps pst →
  (∀ v t, denotes Q h v t → denotes Q' h' v t) →
  fieldsDenote Q' h' ps pst.
Proof.
  intros Hall Hd. eapply Forall2_impl; [exact Hall|].
  intros kv y [Hk Hv]. split; [done | by apply Hd].
Qed.

(** An object cell denotes the object of its properties. *)
Lemma denotes_obj_at Q (h : list Store.cell) l ps pst :
  h !! l = Some (Store.CObj ps) → Q l = true →
  fieldsDenote Q h ps pst →
  denotes Q h (Store.SRef l) (VObj pst).
Proof.
  intros Hl HQ Hall.
  destruct (Forall2_common_fuel
              (fun n (kv : string * Store.val) => pair kv.1 <$> readIn Q n h kv.2)
              ps pst) as [n Hn].
  { intros n n' x y (tw & Hw & ->)%fmap_Some Hle.
    apply fmap_Some. exists tw. split; [|done]. by eapply readIn_fuel. }
  { eapply Forall2_impl; [exact Hall|]. intros [k w] [k' tw] [Hk (n & _ & Hw)].
    simpl in *. subst k'. exists n. by rewrite Hw. }
  exists (S n). split; [done|]. simpl. rewrite HQ, Hl.
  apply fmap_Some. exists pst. split; [|done]. by apply mapM_Some.
Qed.

Lemma denotes_arr_at Q (h : list Store.cell) l xs ts :
  h !! l = Some (Store.CArr xs) → Q l = true →
  Forall2 (denotes Q h) xs ts →
  denotes Q h (Store.SRef l) (VArr ts).
Proof.
  intros Hl HQ Hall.
  destruct (Forall2_common_fuel (fun n => readIn Q n h) xs ts) as [n Hn].
  { intros n n' x y Hy Hle. by eapply readIn_fuel. }
  { eapply Forall2_impl; [exact Hall|]. intros x y (n & _ & Hy). by exists n. }
  exists (S n). split; [done|]. simpl. rewrite HQ, Hl.
  apply fmap_Some. exists ts. split; [|done]. by apply mapM_Some.
Qed.

(** A read that avoids a cell does not see an update of that cell. *)
Lemma reads_insert b Q (h : list Store.cell) l c v t :
  reads b Q h v t → Q l = false → reads b Q (<[l := c]> h) v t.
Proof.
  intros (n & Hle & Hn) HQ. exists n. split.
  - rewrite length_insert. done.
  - eapply readIn_mono; eauto. intros l' c' Hl' Hc'.
    rewrite list_lookup_insert_ne; [done|]. congruence.
Qed.

Lemma prefix_insert (h0 h : list Store.cell) l c :
  h0 `prefix_of` h → length h0 ≤ l → h0 `prefix_of` <[l := c]> h.
Proof.
  intros [k ->] Hl. rewrite insert_app_r_alt by done. by apply prefix_app_r.
Qed.

(** A property read of a value of the base store, from a later store. *)
Lemma get_prefix b Q (hb h : list Store.cell) v t k :
  reads b Q hb v t → hb `prefix_of` h →
  Store.get v k h = ((Store.get v k hb).1, h).
Proof.
  intros (n & _ & Hn) Hp. destruct v; try done. simpl.
  destruct n as [|n]; [done|]. simpl in Hn. destruct (Q l); [|done].
  destruct (hb !! l) as [c|] eqn:Hc; [|done].
  by rewrite (prefix_lookup_Some _ _ _ _ Hc Hp).
Qed.

Lemma simB_get_from {B B'} b Q (R : list Store.cell → B → B' → Prop)
    (h0 hb h : list Store.cell) v t key (k : Store.val → Store.comp B)
    (kp : value → result B') :
  reads b Q hb v t → hb `prefix_of` h → h0 `prefix_of` h →
  (∀ w tw, reads b Q hb w tw → simB R h0 h (k w) (kp tw)) →
  simB R h0 h (Store.get v key ≫= k) (get t key ≫= kp).
Proof.
  intros Hv Hp Hp0 Hk. unfold simB, mbind, Store.comp_bind.
  rewrite (get_prefix _ _ _ _ _ _ key Hv Hp).
  destruct (sim_get _ _ _ _ _ key Hv) as [_ Hg].
  rewrite get_same in Hg.
  destruct (Store.get v key hb).1 as [w|e], (get t key) as [tw|e'];
    simpl in *; try done. by apply Hk.
Qed.

Lemma simB_optget_from {B B'} b Q (R : list Store.cell → B → B' → Prop)
    (h0 hb h : list Store.cell) v t key (k : Store.val → Store.comp B)
    (kp : value → result B') :
  reads b Q hb v t → hb `prefix_of` h → h0 `prefix_of` h →
  (∀ w tw, reads b Q hb w tw → simB R h0 h (k w) (kp tw)) →
  simB R h0 h (Store.optget v key ≫= k) (optget t key ≫= kp).
Proof.
  intros Hv Hp Hp0 Hk. unfold Store.optget, optget.
  rewrite (reads_nullish _ _ _ _ _ Hv). destruct (nullish t).
  - simpl. apply (Hk Store.SUndef VUndef), reads_undef.
  - by eapply simB_get_from.
Qed.

Lemma simB_alloc {B B'} (R : list Store.cell → B → B' → Prop)
    (h0 h : list Store.cell) c (k : Store.val → Store.comp B) (p : result B') :
  simB R h0 (h ++ [c]) (k (Store.SRef (length h))) p →
  simB R h0 h (Store.alloc c ≫= k) p.
Proof. done. Qed.

Lemma simB_setProp {B B'} (R : list Store.cell → B → B' → Prop)
    (h0 h : list Store.cell) l ps key v (k : Store.comp B) (p : result B') :
  h !! l = Some (Store.CObj ps) →
  simB R h0 (<[l := Store.CObj (set_prop key v ps)]> h) k p →
  simB R h0 h (Store.setProp (Store.SRef l) key v ;; k) p.
Proof.
  intros Hl Hk. unfold simB, mbind, Store.comp_bind, Store.setProp.
  by rewrite Hl.
Qed.

Lemma simB_skip {B B'} (R : list Store.cell → B → B' → Prop)
    (h0 h : list Store.cell) (k : Store.comp B) (p : result B') :
  simB R h0 h k p → simB R h0 h (mret tt ;; k) p.
Proof. done. Qed.

Lemma simB_ret {A B} (R : list Store.cell → A → B → Prop)
    (h0 h : list Store.cell) a b :
  h0 `prefix_of` h → R h a b → simB R h0 h (mret a) (Ok b).
Proof. by split. Qed.

Lemma result_bind_Ok {A B} (a : A) (f : A → result B) : Ok a ≫= f = f a.
Proof. done. Qed.

Lemma simB_setProp_last {B B'} (R : list Store.cell → B → B' → Prop)
    (h0 h : list Store.cell) ps key v (k : Store.comp B) (p : result B') :
  simB R h0 (h ++ [Store.CObj (set_prop key v ps)]) k p →
  simB R h0 (h ++ [Store.CObj ps])
    (Store.setProp (Store.SRef (length h)) key v ;; k) p.
Proof.
  intros Hk. eapply simB_setProp.
  - by rewrite lookup_app_r, Nat.sub_diag.
  - by rewrite insert_app_r_alt, Nat.sub_diag.
Qed.

(** The end of a constructor function: the object built in the last cell
    denotes the tree object built beside it. *)
Lemma simB_ret_last Q (h0 h : list Store.cell) ps pst :
  open Q h → h0 `prefix_of` h → fieldsDenote Q h ps pst →
  simB (denotes Q) h0 (h ++ [Store.CObj ps]) (mret (Store.SRef (length h)))
    (Ok (VObj pst)).
Proof.
  intros Ho Hp Hall. apply simB_ret.
  - etrans; [exact Hp | by apply prefix_app_r].
  - apply denotes_new_obj; [by apply Ho | done].
Qed.

Ltac field_facts :=
  repeat first
    [ apply Forall2_nil_2
    | apply Forall2_cons_2; [split; [reflexivity|] |]
    | apply reads_coalesce
    | apply reads_str | apply reads_bool | apply reads_num | apply reads_undef
    | apply reads_prim; reflexivity
    | eassumption
    | eapply reads_denotes; eassumption ].

Lemma simB_assoc {A B C C'} (R : list Store.cell → C → C' → Prop)
    (h0 h : list Store.cell) (m : Store.comp A) (k : A → Store.comp B)
    (k2 : B → Store.comp C) (p : result C') :
  simB R h0 h (m ≫= (fun a => k a ≫= k2)) p →
  simB R h0 h ((m ≫= k) ≫= k2) p.
Proof.
  unfold simB, mbind, Store.comp_bind. by destruct (m h) as [[a|e] h1].
Qed.

Lemma result_bind_assoc {A B C} (p : result A) (f : A → result B)
    (g : B → result C) :
  (p ≫= f) ≫= g = p ≫= (fun a => f a ≫= g).
Proof. by destruct p. Qed.

(** The last statements of [parseColumn], after the expression. *)
Lemma parseColumn_rest Q (h0 h : list Store.cell) c tc ps pst :
  open Q h → h0 `prefix_of` h → denotesWithin Q h c tc →
  fieldsDenote Q h ps pst →
  simB (denotes Q) h0 (h ++ [Store.CObj ps])
    (formatString ← Store.get c "formatString";
     (if Store.truthy formatString
      then Store.setProp (Store.SRef (length h)) "formatString" formatString
      else mret tt);;
     summarizeBy ← Store.get c "summarizeBy";
     (if Store.truthy summarizeBy
      then Store.setProp (Store.SRef (length h)) "summarization" summarizeBy
      else mret tt);;
     mret (Store.SRef (length h)))
    (formatString ← get tc "formatString";
     let column :=
       if truthy formatString then set_prop "formatString" formatString pst
       else pst in
     summarizeBy ← get tc "summarizeBy";
     let column :=
       if truthy summarizeBy then set_prop "summarization" summarizeBy column
       else column in
     Ok (VObj column)).
Proof.
  intros Ho Hp Hc Hfields.
  eapply (simB_get_from _ _ _ _ h);
    [exact Hc | by apply prefix_app_r | by etrans; [|apply prefix_app_r] |].
  intros f tf Hf. rewrite (reads_truthy _ _ _ _ _ Hf). cbv zeta.
  destruct (truthy tf).
  - apply simB_setProp_last.
    eapply (simB_get_from _ _ _ _ h);
      [exact Hc | by apply prefix_app_r | by etrans; [|apply prefix_app_r] |].
    intros s ts Hs. rewrite (reads_truthy _ _ _ _ _ Hs).
    destruct (truthy ts).
    + apply simB_setProp_last. apply simB_ret_last; [done..|].
      repeat apply fieldsDenote_set_prop; eauto using reads_denotes.
    + apply simB_skip. apply simB_ret_last; [done..|].
      repeat apply fieldsDenote_set_prop; eauto using reads_denotes.
  - apply simB_skip.
    eapply (simB_get_from _ _ _ _ h);
      [exact Hc | by apply prefix_app_r | by etrans; [|apply prefix_app_r] |].
    intros s ts Hs. rewrite (reads_truthy _ _ _ _ _ Hs).
    destruct (truthy ts).
    + apply simB_setProp_last. apply simB_ret_last; [done..|].
      repeat apply fieldsDenote_set_prop; eauto using reads_denotes.
    + apply simB_skip. by apply simB_ret_last.
Qed.

Lemma sim_parseColumn Q (h : list Store.cell) c tc :
  open Q h → denotesWithin Q h c tc →
  sim (denotes Q) h (Store.parseColumn c) (parseColumn tc).
Proof.
  intros Ho Hc. unfold Store.parseColumn, parseColumn.
  eapply sim_bind_get; [exact Hc|]. intros name tname Hname.
  eapply sim_bind_get; [exact Hc|]. intros raw traw Hraw.
  eapply sim_bind; [by apply (sim_mapDataType Q)|]. intros dt tdt h1 Hp Hdt.
  pose proof (reads_prefix _ _ _ _ _ _ Hc Hp) as Hc1.
  pose proof (reads_prefix _ _ _ _ _ _ Hname Hp) as Hname1.
  pose proof (open_prefix _ _ _ Ho Hp) as Ho1.
  eapply sim_bind_get; [exact Hc1|]. intros hid thid Hhid.
  eapply sim_bind_get; [exact Hc1|]. intros desc tdesc Hdesc.
  cbv zeta. unfold sim. apply simB_alloc.
  assert (Hfields : fieldsDenote Q h1
            [("name", Store.coalesce name (Store.SStr "Column"));
             ("dataType", dt); ("isHidden", hid); ("description", desc)]
            [("name", coalesce tname (VStr "Column"));
             ("dataType", tdt); ("isHidden", thid); ("description", tdesc)])
    by (unfold fieldsDenote; field_facts).
  revert Hfields.
  generalize [("name", Store.coalesce name (Store.SStr "Column"));
              ("dataType", dt); ("isHidden", hid); ("description", desc)].
  generalize [("name", coalesce tname (VStr "Column"));
              ("dataType", tdt); ("isHidden", thid); ("description", tdesc)].
  intros pst ps Hfields.
  eapply (simB_get_from _ _ _ _ h1);
    [exact Hc1 | by apply prefix_app_r | by apply prefix_app_r |].
  intros e te He. rewrite (reads_truthy _ _ _ _ _ He).
  destruct (truthy te).
  - rewrite result_bind_Ok. apply simB_setProp_last.
    apply parseColumn_rest; [done..|].
    apply fieldsDenote_set_prop; eauto using reads_denotes.
  - apply simB_assoc. rewrite result_bind_assoc.
    eapply (simB_get_from _ _ _ _ h1);
      [exact Hc1 | by apply prefix_app_r | by apply prefix_app_r |].
    intros cc tcc Hcc.
    apply simB_assoc. rewrite result_bind_assoc.
    eapply (simB_optget_from _ _ _ _ h1);
      [exact Hcc | by apply prefix_app_r | by apply prefix_app_r |].
    intros ne tne Hne. rewrite (reads_truthy _ _ _ _ _ Hne).
    destruct (truthy tne).
    + rewrite result_bind_Ok. apply simB_setProp_last.
      apply parseColumn_rest; [done..|].
      apply fieldsDenote_set_prop; eauto using reads_denotes.
    + rewrite result_bind_Ok. apply simB_skip.
      by apply parseColumn_rest.
Qed.

Lemma simB_of_sim {A B} (R : list Store.cell → A → B → Prop)
    (h0 h : list Store.cell) m p :
  h0 `prefix_of` h → sim R h m p → simB R h0 h m p.
Proof. intros Hp [Hp' Hm]. split; [by etrans | done]. Qed.

(** An allocation whose result the tree computation has no use for. *)
Lemma sim_skip_alloc {B B'} (R : list Store.cell → B → B' → Prop)
    (h : list Store.cell) c (k : Store.comp B) (p : result B') :
  (∀ h1, h `prefix_of` h1 → sim R h1 k p) →
  sim R h (Store.alloc c ;; k) p.
Proof.
  intros Hk. apply simB_alloc. apply simB_of_sim; [by apply prefix_app_r|].
  apply Hk. by apply prefix_app_r.
Qed.

Lemma sim_bind_arrayItems {B B'} b Q (R : list Store.cell → B → B' → Prop)
    (h : list Store.cell) v t (k : option (list Store.val) → Store.comp B)
    (p : result B') :
  reads b Q h v t →
  match t with
  | VArr ts => ∀ xs, Forall2 (reads b Q h) xs ts → sim R h (k (Some xs)) p
  | _ => sim R h (k None) p
  end →
  sim R h (Store.arrayItems v ≫= k) p.
Proof.
  intros Hv Hk. pose proof (arrayItems_related _ _ _ _ _ Hv) as Ha.
  unfold sim, simB, mbind, Store.comp_bind.
  destruct t; try (rewrite Ha; exact Hk).
  destruct Ha as (xs & -> & Hxs). by apply Hk.
Qed.

Lemma reads_new_empty b Q (h : list Store.cell) :
  open Q h →
  reads b Q (h ++ [Store.CArr []]) (Store.SRef (length h)) (VArr []).
Proof.
  intros Ho. exists 1. split.
  - intros _. rewrite length_app. simpl. lia.
  - simpl. rewrite (Ho (length h)) by done.
    by rewrite lookup_app_r, Nat.sub_diag.
Qed.

Lemma sim_empty Q (h : list Store.cell) :
  open Q h → sim (denotes Q) h (Store.alloc (Store.CArr [])) (Ok (VArr [])).
Proof. intros Ho. apply sim_alloc_arr; [done | constructor]. Qed.

(** [raw ?? []] as a step of the store computation alone. *)
Lemma sim_bind_orEmpty {B B'} b Q (R : list Store.cell → B → B' → Prop)
    (h : list Store.cell) v t (k : Store.val → Store.comp B) (p : result B') :
  open Q h → reads b Q h v t →
  (∀ w h1, h `prefix_of` h1 → reads b Q h1 w (coalesce t (VArr [])) →
           sim R h1 (k w) p) →
  sim R h (Store.orEmpty v ≫= k) p.
Proof.
  intros Ho Hv Hk. unfold Store.orEmpty, coalesce in *.
  rewrite (reads_nullish _ _ _ _ _ Hv). destruct (nullish t).
  - apply simB_alloc. apply simB_of_sim; [by apply prefix_app_r|].
    apply Hk; [by apply prefix_app_r | by apply reads_new_empty].
  - by apply Hk.
Qed.

Lemma toLowerCase_related b Q (h : list Store.cell) v t :
  reads b Q h v t →
  sim (fun _ (a c : string) => a = c) h (Store.toLowerCase v) (toLowerCase t)
  ∧ (Store.toLowerCase v h).2 = h.
Proof.
  intros (n & _ & Hn).
  destruct v; try (destruct n; simpl in Hn; injection Hn as <-; by split).
  destruct n as [|n]; [done|]. simpl in Hn. destruct (Q l); [|done].
  destruct (h !! l) as [[ps|xs]|]; [| |done];
    apply fmap_Some in Hn as (? & _ & ->); by split.
Qed.

Lemma sim_bind_toLowerCase {B B'} b Q (R : list Store.cell → B → B' → Prop)
    (h : list Store.cell) v t (k : string → Store.comp B) (kp : string → result B') :
  reads b Q h v t →
  (∀ s, sim R h (k s) (kp s)) →
  sim R h (Store.toLowerCase v ≫= k) (toLowerCase t ≫= kp).
Proof.
  intros Hv Hk. destruct (toLowerCase_related _ _ _ _ _ Hv) as [Hs Hsame].
  eapply sim_bind_same; [exact Hsame | exact Hs |]. by intros s ? <-.
Qed.

Lemma reads_mapCardinality b Q (h : list Store.cell) c tc f tf t tt' :
  reads b Q h f tf → reads b Q h t tt' →
  reads b Q h (Store.mapCardinality c f t) (mapCardinality tc tf tt').
Proof.
  intros Hf Ht. unfold Store.mapCardinality, mapCardinality.
  rewrite !(reads_str_eq _ _ _ _ _ _ Hf), !(reads_str_eq _ _ _ _ _ _ Ht).
  repeat case_match; by apply reads_prim.
Qed.

Lemma reads_mapCrossFilteringBehavior b Q (h : list Store.cell) c tc :
  reads b Q h c tc →
  reads b Q h (Store.mapCrossFilteringBehavior c) (mapCrossFilteringBehavior tc).
Proof.
  intros Hc. unfold Store.mapCrossFilteringBehavior, mapCrossFilteringBehavior.
  rewrite !(reads_str_eq _ _ _ _ _ _ Hc).
  repeat case_match; by apply reads_prim.
Qed.

Ltac gets H := repeat (eapply sim_bind_get; [exact H|]; intros ? ? ?).

Lemma sim_parseMeasure b Q (h : list Store.cell) v t :
  open Q h → reads b Q h v t →
  sim (denotes Q) h (Store.parseMeasure v) (parseMeasure t).
Proof.
  intros Ho Hv. unfold Store.parseMeasure, parseMeasure. gets Hv.
  apply sim_alloc_obj; [done|]. field_facts.
Qed.

Lemma sim_annotation b Q (h : list Store.cell) v t :
  open Q h → reads b Q h v t →
  sim (denotes Q) h
    (name ← Store.get v "name"; value ← Store.get v "value";
     Store.alloc (Store.CObj [("name", Store.coalesce name (Store.SStr ""));
                              ("value", Store.coalesce value (Store.SStr ""))]))
    (name ← get t "name"; val ← get t "value";
     Ok (VObj [("name", coalesce name (VStr ""));
               ("value", coalesce val (VStr ""))])).
Proof.
  intros Ho Hv. gets Hv. apply sim_alloc_obj; [done|]. field_facts.
Qed.

Lemma sim_parseAnnotations b Q (h : list Store.cell) v t :
  open Q h → reads b Q h v t →
  sim (denotes Q) h (Store.parseAnnotations v) (parseAnnotations t).
Proof.
  intros Ho Hv. unfold Store.parseAnnotations, parseAnnotations.
  eapply sim_bind_arrayItems; [exact Hv|].
  destruct t; try (by apply sim_empty).
  intros xs Hxs.
  eapply sim_bind.
  - eapply (sim_mapM (reads b Q) (denotes Q)); [| | |exact Hxs].
    + intros; by eapply reads_prefix.
    + intros; by eapply reads_prefix.
    + intros h1 x tx Hp Hx. apply (sim_annotation b); [|done].
      by eapply open_prefix.
  - intros out tout h1 Hp Hout. apply sim_alloc_arr; [|done].
    by eapply open_prefix.
Qed.

(** The three filtered collections share one shape. *)
Lemma sim_filtered b b' Q (h : list Store.cell) v t inc tinc
    (f : Store.val → Store.comp Store.val) (fp : value → result value) :
  open Q h → reads b Q h v t → reads b' Q h inc tinc →
  (∀ h1 x tx, h `prefix_of` h1 → reads b Q h1 x tx →
              sim (denotes Q) h1 (f x) (fp tx)) →
  sim (denotes Q) h
    (items ← Store.arrayItems v;
     match items with
     | Some items =>
         kept ← Store.filterM (Store.keepItem inc) items;
         Store.alloc (Store.CArr kept);;
         out ← mapM f kept;
         Store.alloc (Store.CArr out)
     | None => Store.alloc (Store.CArr [])
     end)
    match t with
    | VArr items =>
        kept ← filterM (fun c => hd ← get c "isHidden";
                                 Ok (negb (truthy hd) || truthy tinc)) items;
        out ← mapM fp kept;
        Ok (VArr out)
    | _ => Ok (VArr [])
    end.
Proof.
  intros Ho Hv Hinc Hf.
  eapply sim_bind_arrayItems; [exact Hv|].
  destruct t; try (by apply sim_empty).
  intros xs Hxs.
  eapply sim_bind; [by apply (sim_filter b b' Q)|].
  intros kept tkept h1 Hp1 Hkept.
  apply sim_skip_alloc. intros h2 Hp2.
  eapply sim_bind.
  - eapply (sim_mapM (reads b Q) (denotes Q)).
    + intros; by eapply reads_prefix.
    + intros; by eapply reads_prefix.
    + intros h3 x tx Hp3 Hx. apply Hf; [|done].
      etrans; [exact Hp1|]. by etrans.
    + eapply Forall2_reads_prefix; [exact Hkept | exact Hp2].
  - intros out tout h3 Hp3 Hout. apply sim_alloc_arr; [|done].
    eapply open_prefix; [exact Ho|].
    etrans; [exact Hp1|]. by etrans.
Qed.

Lemma sim_parseMeasures b b' Q (h : list Store.cell) v t inc tinc :
  open Q h → reads b Q h v t → reads b' Q h inc tinc →
  sim (denotes Q) h (Store.parseMeasures v inc) (parseMeasures t tinc).
Proof.
  intros Ho Hv Hinc. apply (sim_filtered b b'); [done..|].
  intros h1 x tx Hp Hx. apply (sim_parseMeasure b); [|done].
  by eapply open_prefix.
Qed.

Lemma sim_parseColumns b' Q (h : list Store.cell) v t inc tinc :
  open Q h → denotesWithin Q h v t → reads b' Q h inc tinc →
  sim (denotes Q) h (Store.parseColumns v inc) (parseColumns t tinc).
Proof.
  intros Ho Hv Hinc. apply (sim_filtered true b'); [done..|].
  intros h1 x tx Hp Hx. apply sim_parseColumn; [|done].
  by eapply open_prefix.
Qed.

Ltac from_base h Hsrc :=
  eapply (simB_get_from _ _ _ _ h);
  [exact Hsrc | by apply prefix_app_r | by etrans; [|apply prefix_app_r] |].

(** The assignments of [parsePartition], last to first. *)
Lemma parsePartition_dataView b Q (h0 h : list Store.cell) src tsrc ps pst :
  open Q h → h0 `prefix_of` h → reads b Q h src tsrc →
  fieldsDenote Q h ps pst →
  simB (denotes Q) h0 (h ++ [Store.CObj ps])
    ((dataView ← Store.get src "dataView";
      if Store.truthy dataView then
        Store.setProp (Store.SRef (length h)) "dataView"
          (if Store.str_eq dataView "Sample"
           then Store.ofValue (DataView_value Sample)
           else Store.ofValue (DataView_value Full))
      else mret tt);;
     mret (Store.SRef (length h)))
    ((dataView ← get tsrc "dataView";
      Ok (if truthy dataView then
            set_prop "dataView"
              (if str_eq dataView "Sample" then DataView_value Sample
               else DataView_value Full) pst
          else pst)) ≫= (fun partition => Ok (VObj partition))).
Proof.
  intros Ho Hp Hsrc Hfields.
  apply simB_assoc. rewrite result_bind_assoc. from_base h Hsrc.
  intros d td Hd. rewrite (reads_truthy _ _ _ _ _ Hd), (reads_str_eq _ _ _ _ _ _ Hd).
  rewrite result_bind_Ok. destruct (truthy td).
  - apply simB_setProp_last. apply simB_ret_last; [done..|].
    apply fieldsDenote_set_prop; [done|].
    destruct (str_eq td "Sample"); by apply reads_prim.
  - apply simB_skip. by apply simB_ret_last.
Qed.

Lemma parsePartition_query b Q (h0 h : list Store.cell) src tsrc ps pst :
  open Q h → h0 `prefix_of` h → reads b Q h src tsrc →
  fieldsDenote Q h ps pst →
  simB (denotes Q) h0 (h ++ [Store.CObj ps])
    ((query ← Store.get src "query";
      (if Store.truthy query
       then Store.setProp (Store.SRef (length h)) "query" query
       else mret tt);;
      dataView ← Store.get src "dataView";
      if Store.truthy dataView then
        Store.setProp (Store.SRef (length h)) "dataView"
          (if Store.str_eq dataView "Sample"
           then Store.ofValue (DataView_value Sample)
           else Store.ofValue (DataView_value Full))
      else mret tt);;
     mret (Store.SRef (length h)))
    ((query ← get tsrc "query";
      let partition :=
        if truthy query then set_prop "query" query pst else pst in
      dataView ← get tsrc "dataView";
      Ok (if truthy dataView then
            set_prop "dataView"
              (if str_eq dataView "Sample" then DataView_value Sample
               else DataView_value Full) partition
          else partition)) ≫= (fun partition => Ok (VObj partition))).
Proof.
  intros Ho Hp Hsrc Hfields.
  apply simB_assoc. rewrite result_bind_assoc. from_base h Hsrc.
  intros q tq Hq. rewrite (reads_truthy _ _ _ _ _ Hq). cbv zeta.
  apply simB_assoc. destruct (truthy tq).
  - apply simB_setProp_last. eapply parsePartition_dataView; [done..|].
    apply fieldsDenote_set_prop; eauto using reads_denotes.
  - apply simB_skip. by eapply parsePartition_dataView.
Qed.

Lemma parsePartition_expression b Q (h0 h : list Store.cell) src tsrc ps pst :
  open Q h → h0 `prefix_of` h → reads b Q h src tsrc →
  fieldsDenote Q h ps pst →
  simB (denotes Q) h0 (h ++ [Store.CObj ps])
    ((expression ← Store.get src "expression";
      (if Store.truthy expression
       then Store.setProp (Store.SRef (length h)) "expression" expression
       else mret tt);;
      query ← Store.get src "query";
      (if Store.truthy query
       then Store.setProp (Store.SRef (length h)) "query" query
       else mret tt);;
      dataView ← Store.get src "dataView";
      if Store.truthy dataView then
        Store.setProp (Store.SRef (length h)) "dataView"
          (if Store.str_eq dataView "Sample"
           then Store.ofValue (DataView_value Sample)
           else Store.ofValue (DataView_value Full))
      else mret tt);;
     mret (Store.SRef (length h)))
    ((expression ← get tsrc "expression";
      let partition :=
        if truthy expression then set_prop "expression" expression pst
        else pst in
      query ← get tsrc "query";
      let partition :=
        if truthy query then set_prop "query" query partition else partition in
      dataView ← get tsrc "dataView";
      Ok (if truthy dataView then
            set_prop "dataView"
              (if str_eq dataView "Sample" then DataView_value Sample
               else DataView_value Full) partition
          else partition)) ≫= (fun partition => Ok (VObj partition))).
Proof.
  intros Ho Hp Hsrc Hfields.
  apply simB_assoc. rewrite result_bind_assoc. from_base h Hsrc.
  intros e te He. rewrite (reads_truthy _ _ _ _ _ He). cbv zeta.
  apply simB_assoc. destruct (truthy te).
  - apply simB_setProp_last. eapply parsePartition_query; [done..|].
    apply fieldsDenote_set_prop; eauto using reads_denotes.
  - apply simB_skip. by eapply parsePartition_query.
Qed.

Lemma sim_parsePartition b Q (h : list Store.cell) v t :
  open Q h → reads b Q h v t →
  sim (denotes Q) h (Store.parsePartition v) (parsePartition t).
Proof.
  intros Ho Hv. unfold Store.parsePartition, parsePartition.
  eapply sim_bind_get; [exact Hv|]. intros name tname Hname.
  eapply sim_bind_get; [exact Hv|]. intros src tsrc Hsrc.
  destruct (sim_mapPartitionSourceType _ Q h _ _ Hsrc) as [Hmap Hsame].
  eapply sim_bind_same; [exact Hsame | exact Hmap |].
  intros st tst Hst.
  eapply sim_bind_get; [exact Hv|]. intros desc tdesc Hdesc.
  cbv zeta. unfold sim. apply simB_alloc.
  assert (Hfields : fieldsDenote Q h
            [("name", Store.coalesce name (Store.SStr "Partition"));
             ("sourceType", st); ("description", desc)]
            [("name", coalesce tname (VStr "Partition"));
             ("sourceType", tst); ("description", tdesc)])
    by (unfold fieldsDenote; field_facts).
  rewrite (reads_truthy _ _ _ _ _ Hsrc). destruct (truthy tsrc).
  - by eapply parsePartition_expression.
  - rewrite result_bind_Ok. apply simB_skip. by apply simB_ret_last.
Qed.

Lemma sim_parsePartitions b Q (h : list Store.cell) v t :
  open Q h → reads b Q h v t →
  sim (denotes Q) h (Store.parsePartitions v) (parsePartitions t).
Proof.
  intros Ho Hv. unfold Store.parsePartitions, parsePartitions.
  eapply sim_bind_arrayItems; [exact Hv|].
  destruct t; try (by apply sim_empty).
  intros xs Hxs.
  eapply sim_bind.
  - eapply (sim_mapM (reads b Q) (denotes Q)); [| | |exact Hxs].
    + intros; by eapply reads_prefix.
    + intros; by eapply reads_prefix.
    + intros h1 x tx Hp Hx. apply (sim_parsePartition b); [|done].
      by eapply open_prefix.
  - intros out tout h1 Hp Hout. apply sim_alloc_arr; [|done].
    by eapply open_prefix.
Qed.

(** Carries the facts about a store over to a store that extends it. *)
Ltac forward Hp :=
  match type of Hp with
  | ?h `prefix_of` _ =>
      repeat match goal with
        | H : reads _ _ h _ _ |- _ => eapply reads_prefix in H; [|exact Hp]
        | H : open _ h |- _ => eapply open_prefix in H; [|exact Hp]
        | H : Forall2 (reads _ _ h) _ _ |- _ =>
            eapply Forall2_reads_prefix in H; [|exact Hp]
        end
  end.

Ltac facts :=
  repeat first
    [ apply Forall2_nil_2
    | apply Forall2_cons_2; [split; [reflexivity|] |]
    | apply reads_coalesce
    | apply reads_mapCardinality
    | apply reads_mapCrossFilteringBehavior
    | apply reads_str | apply reads_bool | apply reads_num | apply reads_undef
    | apply reads_prim; reflexivity
    | eassumption
    | eapply reads_denotes; eassumption ].

Lemma sim_parseTable b' Q (h : list Store.cell) v t inc tinc :
  open Q h → denotesWithin Q h v t → reads b' Q h inc tinc →
  sim (denotes Q) h (Store.parseTable v inc) (parseTable t tinc).
Proof.
  intros Ho Hv Hinc. unfold Store.parseTable, parseTable. gets Hv.
  eapply sim_bind_orEmpty; [exact Ho | eassumption |]. intros cj h1 Hp1 Hcj.
  forward Hp1.
  eapply sim_bind; [by apply (sim_parseColumns b' Q)|].
  intros cols tcols h2 Hp2 Hcols. forward Hp2.
  gets Hv.
  eapply sim_bind_orEmpty; [exact Ho | eassumption |]. intros pj h3 Hp3 Hpj.
  forward Hp3.
  eapply sim_bind; [by apply (sim_parsePartitions true Q)|].
  intros parts tparts h4 Hp4 Hparts. forward Hp4.
  gets Hv.
  eapply sim_bind_orEmpty; [exact Ho | eassumption |]. intros mj h5 Hp5 Hmj.
  forward Hp5.
  eapply sim_bind; [by apply (sim_parseMeasures true b' Q)|].
  intros ms tms h6 Hp6 Hms. forward Hp6.
  apply sim_alloc_obj; [done|]. facts.
Qed.

Lemma sim_parseTables b' Q (h : list Store.cell) v t inc tinc :
  open Q h → denotesWithin Q h v t → reads b' Q h inc tinc →
  sim (denotes Q) h (Store.parseTables v inc) (parseTables t tinc).
Proof.
  intros Ho Hv Hinc. apply (sim_filtered true b'); [done..|].
  intros h1 x tx Hp Hx. forward Hp. by apply (sim_parseTable b').
Qed.

Lemma sim_parseRelationship b Q (h : list Store.cell) v t tm tm' :
  open Q h → reads b Q h v t →
  sim (denotes Q) h (Store.parseRelationship v tm) (parseRelationship t tm').
Proof.
  intros Ho Hv. unfold Store.parseRelationship, parseRelationship. cbv zeta.
  eapply sim_bind_get; [exact Hv|]. intros rf trf Hrf.
  eapply sim_bind_get; [exact Hv|]. intros rt trt Hrt.
  eapply (sim_bind_toLowerCase b Q); [apply reads_coalesce; [done | apply reads_str]|].
  intros fromKey.
  eapply (sim_bind_toLowerCase b Q); [apply reads_coalesce; [done | apply reads_str]|].
  intros toKey.
  gets Hv. apply sim_alloc_obj; [done|]. facts.
Qed.

Lemma sim_tableEntries b Q (h : list Store.cell) ts tts :
  Forall2 (reads b Q h) ts tts →
  sim (fun _ _ _ => True) h (Store.tableEntries ts) (tableEntries tts).
Proof.
  intros Hts. unfold Store.tableEntries, tableEntries.
  eapply sim_weaken; [|eapply (sim_mapM (reads b Q) (fun _ _ _ => True));
                        [| | |exact Hts]]; try done.
  - intros; by eapply reads_prefix.
  - intros h1 x tx Hp Hx.
    eapply sim_bind_get; [exact Hx|]. intros name tname Hname.
    eapply (sim_bind_toLowerCase b Q); [exact Hname|]. intros key.
    by apply sim_ret.
Qed.

Lemma sim_parseRelationships b b' Q (h : list Store.cell) v t tables ttables :
  open Q h → reads b Q h v t → reads b' Q h tables ttables →
  sim (denotes Q) h (Store.parseRelationships v tables)
      (parseRelationships t ttables).
Proof.
  intros Ho Hv Ht. unfold Store.parseRelationships, parseRelationships.
  eapply sim_bind_arrayItems; [exact Hv|].
  destruct t; try (by apply sim_empty).
  intros xs Hxs.
  eapply sim_bind_arrayItems; [exact Ht|].
  destruct ttables; try (by apply sim_throw).
  intros ts Hts.
  eapply sim_bind; [by apply (sim_tableEntries b' Q)|].
  intros es tes h1 Hp1 _. forward Hp1. cbv zeta.
  eapply sim_bind.
  - eapply (sim_mapM (reads b Q) (denotes Q)); [| | |exact Hxs].
    + intros; by eapply reads_prefix.
    + intros; by eapply reads_prefix.
    + intros h2 x tx Hp2 Hx. apply (sim_parseRelationship b); [|done].
      by eapply open_prefix.
  - intros out tout h2 Hp2 Hout. apply sim_alloc_arr; [|done].
    by eapply open_prefix.
Qed.

Lemma sim_parseCulture b b' Q (h : list Store.cell) inc tinc c tc :
  open Q h → reads b' Q h inc tinc → reads b Q h c tc →
  sim (denotes Q) h (Store.parseCulture inc c)
    (cname ← get tc "name";
     annotations ←
       (if truthy tinc then raw ← get tc "annotations"; parseAnnotations raw
        else Ok VUndef);
     Ok (VObj [("name", cname); ("annotations", annotations)])).
Proof.
  intros Ho Hinc Hc. unfold Store.parseCulture.
  eapply sim_bind_get; [exact Hc|]. intros cname tcname Hcname.
  eapply sim_bind.
  - rewrite (reads_truthy _ _ _ _ _ Hinc). destruct (truthy tinc).
    + eapply sim_bind_get; [exact Hc|]. intros raw traw Hraw.
      by apply (sim_parseAnnotations b).
    + apply sim_ret. apply reads_undef.
  - intros ann tann h1 Hp Hann. forward Hp.
    apply sim_alloc_obj; [done|]. facts.
Qed.

(** ** The schema: an object that is assigned to after later allocations *)


Lemma without_sub Q l l' : without Q l l' = true → Q l' = true.
Proof. unfold without. by intros [? _]%andb_prop. Qed.

Lemma without_self Q l : without Q l l = false.
Proof. unfold without. rewrite Nat.eqb_refl. apply andb_false_r. Qed.

Lemma simB_grow {A A' B B'} (R1 : list Store.cell → A → A' → Prop)
    (R2 : list Store.cell → B → B' → Prop) (h0 h : list Store.cell)
    (m : Store.comp A) (p : result A') (k : A → Store.comp B) (kp : A' → result B') :
  h0 `prefix_of` h →
  sim R1 h m p →
  (∀ a b h1, h `prefix_of` h1 → R1 h1 a b → simB R2 h0 h1 (k a) (kp b)) →
  simB R2 h0 h (m ≫= k) (p ≫= kp).
Proof.
  intros Hp0 [Hp Hm] Hk. unfold sim, simB, mbind, Store.comp_bind in *.
  destruct (m h) as [[a|e] h1]; simpl in *.
  - destruct p as [b|e']; [|done]. simpl. by apply Hk.
  - destruct p as [b|e']; [done|]. subst e'. split; [by etrans | done].
Qed.

Lemma simB_bind_arrayItems {B B'} b Q (R : list Store.cell → B → B' → Prop)
    (h0 h : list Store.cell) v t (k : option (list Store.val) → Store.comp B)
    (p : result B') :
  reads b Q h v t →
  match t with
  | VArr ts => ∀ xs, Forall2 (reads b Q h) xs ts → simB R h0 h (k (Some xs)) p
  | _ => simB R h0 h (k None) p
  end →
  simB R h0 h (Store.arrayItems v ≫= k) p.
Proof.
  intros Hv Hk. pose proof (arrayItems_related _ _ _ _ _ Hv) as Ha.
  unfold simB, mbind, Store.comp_bind.
  destruct t; try (rewrite Ha; exact Hk).
  destruct Ha as (xs & -> & Hxs). by apply Hk.
Qed.

Lemma fieldsDenote_prefix Q (h h' : list Store.cell) ps pst :
  fieldsDenote Q h ps pst → h `prefix_of` h' → fieldsDenote Q h' ps pst.
Proof.
  intros Hall Hp. eapply fieldsDenote_mono; [exact Hall|].
  intros v t Hv. by eapply reads_prefix.
Qed.

(** The object in cell [l] after an assignment to it. *)
Lemma denotes_after_set Q (h : list Store.cell) l ps pst key v tv :
  h !! l = Some (Store.CObj ps) → Q l = true →
  fieldsDenote (without Q l) h ps pst →
  denotes (without Q l) h v tv →
  denotes Q (<[l := Store.CObj (set_prop key v ps)]> h) (Store.SRef l)
    (VObj (set_prop key tv pst)).
Proof.
  intros Hl HQ Hfields Hv.
  eapply denotes_obj_at; [|done|].
  - apply list_lookup_insert_eq. by eapply lookup_lt_Some.
  - eapply fieldsDenote_mono; [by apply fieldsDenote_set_prop|].
    intros w tw Hw. eapply reads_region; [|apply without_sub].
    apply reads_insert; [done | apply without_self].
Qed.

Lemma schema_annotations b b' Q (h0 h : list Store.cell) l m tm inc tinc ps pst :
  h !! l = Some (Store.CObj ps) → Q l = true →
  h0 `prefix_of` h → length h0 ≤ l →
  open (without Q l) h →
  reads b (without Q l) h m tm → reads b' (without Q l) h inc tinc →
  fieldsDenote (without Q l) h ps pst →
  simB (denotes Q) h0 h
    (annotations ← Store.get m "annotations";
     (if Store.truthy annotations && Store.truthy inc then
        parsed ← Store.parseAnnotations annotations;
        Store.setProp (Store.SRef l) "annotations" parsed
      else mret tt);;
     mret (Store.SRef l))
    (annotations ← get tm "annotations";
     schema ←
       (if truthy annotations && truthy tinc then
          parsed ← parseAnnotations annotations;
          Ok (set_prop "annotations" parsed pst)
        else Ok pst);
     Ok (VObj schema)).
Proof.
  intros Hl HQ Hp0 Hle Ho Hm Hinc Hfields.
  eapply (simB_get_from _ _ _ _ h); [exact Hm | done | done |].
  intros a ta Ha.
  rewrite (reads_truthy _ _ _ _ _ Ha), (reads_truthy _ _ _ _ _ Hinc).
  destruct (truthy ta && truthy tinc).
  - apply simB_assoc. rewrite result_bind_assoc.
    eapply simB_grow; [done | by apply (sim_parseAnnotations b (without Q l))|].
    intros parsed tparsed h1 Hp1 Hparsed.
    rewrite result_bind_Ok.
    pose proof (prefix_lookup_Some _ _ _ _ Hl Hp1) as Hl1.
    eapply simB_setProp; [exact Hl1|].
    apply simB_ret.
    + apply prefix_insert; [by etrans | done].
    + apply denotes_after_set; [done | done | | done].
      by eapply fieldsDenote_prefix.
  - rewrite result_bind_Ok. apply simB_skip. apply simB_ret; [done|].
    eapply denotes_obj_at; [done | done |].
    eapply fieldsDenote_mono; [exact Hfields|].
    intros w tw Hw. eapply reads_region; [exact Hw | apply without_sub].
Qed.

Lemma reads_without b Q (h : list Store.cell) l v t :
  reads b Q h v t → length h ≤ l → reads b (without Q l) h v t.
Proof.
  intros Hv Hl. eapply reads_region; [by apply reads_below|].
  intros l'. unfold below, without.
  intros [-> Hlt%Nat.ltb_lt]%andb_prop. simpl.
  apply negb_true_iff, Nat.eqb_neq. lia.
Qed.

Lemma open_without Q (h h' : list Store.cell) l :
  open Q h → length h ≤ l → l < length h' → open (without Q l) h'.
Proof.
  intros Ho Hl Hl' l' Hlen. unfold without.
  rewrite Ho by lia. simpl. apply negb_true_iff, Nat.eqb_neq. lia.
Qed.

Lemma open_insert Q (h : list Store.cell) l c : open Q h → open Q (<[l := c]> h).
Proof. intros Ho l' Hl'. apply Ho. by rewrite length_insert in Hl'. Qed.

Lemma schema_cultures b b' Q (h0 h : list Store.cell) l m tm inc tinc ps pst :
  h !! l = Some (Store.CObj ps) → Q l = true →
  h0 `prefix_of` h → length h0 ≤ l →
  open (without Q l) h →
  reads b (without Q l) h m tm → reads b' (without Q l) h inc tinc →
  fieldsDenote (without Q l) h ps pst →
  simB (denotes Q) h0 h
    (cultures ← Store.get m "cultures";
     items ← Store.arrayItems cultures;
     match items with
     | Some items =>
         cs ← mapM (Store.parseCulture inc) items;
         arr ← Store.alloc (Store.CArr cs);
         Store.setProp (Store.SRef l) "cultures" arr
     | None => mret tt
     end;;
     annotations ← Store.get m "annotations";
     (if Store.truthy annotations && Store.truthy inc then
        parsed ← Store.parseAnnotations annotations;
        Store.setProp (Store.SRef l) "annotations" parsed
      else mret tt);;
     mret (Store.SRef l))
    (cultures ← get tm "cultures";
     schema ←
       match cultures with
       | VArr items =>
           cs ← mapM (fun c =>
                        cname ← get c "name";
                        annotations ←
                          (if truthy tinc then
                             raw ← get c "annotations"; parseAnnotations raw
                           else Ok VUndef);
                        Ok (VObj [("name", cname); ("annotations", annotations)]))
                     items;
           Ok (set_prop "cultures" (VArr cs) pst)
       | _ => Ok pst
       end;
     annotations ← get tm "annotations";
     schema ←
       (if truthy annotations && truthy tinc then
          parsed ← parseAnnotations annotations;
          Ok (set_prop "annotations" parsed schema)
        else Ok schema);
     Ok (VObj schema)).
Proof.
  intros Hl HQ Hp0 Hle Ho Hm Hinc Hfields.
  eapply (simB_get_from _ _ _ _ h); [exact Hm | done | done |].
  intros c tc Hc.
  eapply simB_bind_arrayItems; [exact Hc|].
  destruct tc;
    try (rewrite result_bind_Ok; apply simB_skip;
         by eapply (schema_annotations b b')).
  intros xs Hxs.
  apply simB_assoc. rewrite result_bind_assoc.
  eapply simB_grow; [done | |].
  { eapply (sim_mapM (reads b (without Q l)) (denotes (without Q l)));
      [| | |exact Hxs].
    - intros; by eapply reads_prefix.
    - intros; by eapply reads_prefix.
    - intros h1 x tx Hp Hx. forward Hp. by apply (sim_parseCulture b b'). }
  intros cs tcs h1 Hp1 Hcs.
  apply simB_assoc. apply simB_alloc. rewrite result_bind_Ok.
  assert (Hp2 : h `prefix_of` h1 ++ [Store.CArr cs])
    by (etrans; [exact Hp1 | by apply prefix_app_r]).
  pose proof (prefix_lookup_Some _ _ _ _ Hl Hp2) as Hl2.
  eapply simB_setProp; [exact Hl2|].
  pose proof (lookup_lt_Some _ _ _ Hl2) as Hlt.
  eapply (schema_annotations b b').
  - by apply list_lookup_insert_eq.
  - done.
  - apply prefix_insert; [by etrans | done].
  - done.
  - apply open_insert. by eapply open_prefix.
  - apply reads_insert; [|apply without_self]. by eapply reads_prefix.
  - apply reads_insert; [|apply without_self]. by eapply reads_prefix.
  - eapply fieldsDenote_mono.
    + apply fieldsDenote_set_prop.
      * eapply fieldsDenote_prefix; [exact Hfields | exact Hp2].
      * apply denotes_new_arr; [|exact Hcs].
        eapply open_prefix in Ho; [|exact Hp1]. by apply Ho.
    + intros w tw Hw. apply reads_insert; [done | apply without_self].
Qed.

Lemma sim_parseDataModelSchema b b' Q (h : list Store.cell) m tm inc tinc :
  open Q h → reads b Q h m tm → reads b' Q h inc tinc →
  sim (denotes Q) h (Store.parseDataModelSchema m inc)
      (parseDataModelSchema tm tinc).
Proof.
  intros Ho Hm Hinc. unfold Store.parseDataModelSchema, parseDataModelSchema.
  eapply sim_bind_get; [exact Hm|]. intros name tname Hname.
  eapply sim_bind_get; [exact Hm|]. intros cl tcl Hcl.
  cbv zeta. unfold sim. do 3 apply simB_alloc.
  set (h2 := (h ++ [Store.CArr []]) ++ [Store.CArr []]).
  assert (Hlen : length h2 = S (S (length h)))
    by (unfold h2; rewrite !length_app; simpl; lia).
  assert (Hp : h `prefix_of` h2)
    by (unfold h2; rewrite <- app_assoc; by apply prefix_app_r).
  assert (Hp' : h `prefix_of` h2 ++ [Store.CObj
            [("name", Store.coalesce name (Store.SStr "Model"));
             ("compatibilityLevel", Store.coalesce cl (Store.SNum 0));
             ("cultures", Store.SRef (length h));
             ("annotations", Store.SRef (length (h ++ [Store.CArr []])))]])
    by (etrans; [exact Hp | by apply prefix_app_r]).
  assert (Hempty : ∀ l', l' = length h ∨ l' = S (length h) →
            denotes (without Q (length h2)) h2 (Store.SRef l') (VArr [])).
  { intros l' Hl'. eapply denotes_arr_at; [| |constructor].
    - unfold h2. destruct Hl' as [-> | ->].
      + rewrite <- app_assoc. by rewrite lookup_app_r, Nat.sub_diag.
      + rewrite lookup_app_r; rewrite length_app; simpl; [|lia].
        by replace (S (length h) - (length h + 1)) with 0 by lia.
    - unfold without. rewrite Ho by lia. simpl.
      apply negb_true_iff, Nat.eqb_neq. lia. }
  eapply (schema_cultures b b' Q h _ (length h2)).
  - by rewrite lookup_app_r, Nat.sub_diag.
  - apply Ho. lia.
  - done.
  - lia.
  - eapply (open_without Q h); [done | lia |]. rewrite length_app. simpl. lia.
  - eapply reads_prefix; [|exact Hp']. apply reads_without; [done | lia].
  - eapply reads_prefix; [|exact Hp']. apply reads_without; [done | lia].
  - eapply (fieldsDenote_prefix _ h2); [|by apply prefix_app_r].
    unfold fieldsDenote.
    repeat (apply Forall2_cons_2; [split; [reflexivity|] |]);
      [| | | |apply Forall2_nil_2].
    + eapply reads_prefix; [|exact Hp]. apply reads_without; [|lia].
      apply reads_coalesce; [by eapply reads_denotes | apply reads_str].
    + eapply reads_prefix; [|exact Hp]. apply reads_without; [|lia].
      apply reads_coalesce; [by eapply reads_denotes | apply reads_num].
    + apply Hempty. by left.
    + apply Hempty. right. rewrite length_app. simpl. lia.
Qed.

Lemma sim_parseBimJson b Q (h : list Store.cell) json tjson options toptions :
  open Q h → denotesWithin Q h json tjson → reads b Q h options toptions →
  sim (denotes Q) h (Store.parseBimJson json options)
      (parseBimJson tjson toptions).
Proof.
  intros Ho Hj Hopt. unfold Store.parseBimJson, parseBimJson.
  eapply sim_bind_optget; [exact Hopt|]. intros ra tra Hra.
  eapply sim_bind_optget; [exact Hopt|]. intros rh trh Hrh. cbv zeta.
  assert (Hia : reads b Q h (Store.coalesce ra (Store.SBool true))
                  (coalesce tra (VBool true)))
    by (apply reads_coalesce; [done | apply reads_bool]).
  assert (Hih : reads b Q h (Store.coalesce rh (Store.SBool true))
                  (coalesce trh (VBool true)))
    by (apply reads_coalesce; [done | apply reads_bool]).
  eapply sim_bind_get; [exact Hj|]. intros m tm Hm.
  rewrite (reads_truthy _ _ _ _ _ Hm). destruct (negb (truthy tm)).
  { apply sim_throw. }
  eapply sim_bind; [by apply (sim_parseDataModelSchema true b Q)|].
  intros schema tschema h1 Hp1 Hschema. forward Hp1.
  eapply sim_bind_get; [exact Hm|]. intros tj ttj Htj.
  eapply sim_bind_orEmpty; [exact Ho | exact Htj |]. intros tj' h2 Hp2 Htj'.
  forward Hp2.
  eapply sim_bind; [by apply (sim_parseTables b Q)|].
  intros tables ttables h3 Hp3 Htables. forward Hp3.
  eapply sim_bind_get; [exact Hm|]. intros rj trj Hrj.
  eapply sim_bind_orEmpty; [exact Ho | exact Hrj |]. intros rj' h4 Hp4 Hrj'.
  forward Hp4.
  eapply sim_bind; [by apply (sim_parseRelationships true false Q)|].
  intros rels trels h5 Hp5 Hrels. forward Hp5.
  apply sim_alloc_obj; [done|]. facts.
Qed.

(** ** What a call returns is new *)


Lemma returnsNew_alloc c : returnsNew (Store.alloc c).
Proof. intros h v h' [= <- <-]. eauto. Qed.

Lemma returnsNew_throw e : returnsNew (Store.throw e).
Proof. intros h v h' [=]. Qed.

Lemma returnsNew_bind {A} (m : Store.comp A) (k : A → Store.comp Store.val) :
  untouched 0 m → (∀ a, returnsNew (k a)) → returnsNew (m ≫= k).
Proof.
  intros Hm Hk h v h'. unfold mbind, Store.comp_bind.
  destruct (Hm h) as [_ Hlen]; [lia|].
  destruct (m h) as [[a|e] h1]; [|discriminate]. simpl in Hlen.
  intros (l & -> & Hl)%Hk. exists l. split; [done | lia].
Qed.

Lemma returnsNew_parseBimJson json options :
  returnsNew (Store.parseBimJson json options).
Proof.
  unfold Store.parseBimJson.
  repeat first
    [ apply returnsNew_alloc
    | apply returnsNew_throw
    | apply returnsNew_bind; [auto with frame nocore | intros ?]
    | match goal with |- returnsNew (if ?b then _ else _) => destruct b end ].
Qed.

Lemma open_everywhere (h : list Store.cell) : open everywhere h.
Proof. done. Qed.

Lemma read_denotesWithin (h : list Store.cell) v t :
  Store.read (length h) h v = Some t → denotesWithin everywhere h v t.
Proof. intros Hr. exists (length h). split; [done|]. by rewrite <- read_readIn. Qed.

Lemma denotes_read (h : list Store.cell) v t :
  denotes everywhere h v t → ∃ fuel, Store.read fuel h v = Some t.
Proof. intros (n & _ & Hn). exists n. by rewrite read_readIn. Qed.

(** C9: a call of [parseBimJson] on a document held in the store changes
    no cell that existed before the call: the final store is the initial
    one followed by the cells the call allocated, so the document and the
    options read back as the same trees.  The value returned is a
    reference to a cell allocated by the call and denotes the model that
    the tree-level parser computes from the document; a failure is the
    same error.  Parsing the same value again in the final store returns
    a second reference that denotes the same model (or raises the same
    error), and the first result still denotes it. *)
Theorem parseBimJson_leaves_input (json options : Store.val)
    (h : list Store.cell) (document opts : value) :
  Store.read (length h) h json = Some document →
  Store.read (length h) h options = Some opts →
  let first := Store.parseBimJson json options h in
  let second := Store.parseBimJson json options first.2 in
  h `prefix_of` first.2
  ∧ Store.read (length h) first.2 json = Some document
  ∧ Store.read (length h) first.2 options = Some opts
  ∧ first.2 `prefix_of` second.2
  ∧ match parseBimJson document opts with
    | Ok model =>
        ∃ l1 l2,
          first.1 = Ok (Store.SRef l1) ∧ length h ≤ l1
          ∧ second.1 = Ok (Store.SRef l2) ∧ length first.2 ≤ l2
          ∧ (∃ fuel, Store.read fuel first.2 (Store.SRef l1) = Some model)
          ∧ (∃ fuel, Store.read fuel second.2 (Store.SRef l1) = Some model)
          ∧ (∃ fuel, Store.read fuel second.2 (Store.SRef l2) = Some model)
    | Throw e => first.1 = Throw e ∧ second.1 = Throw e
    end.
Proof.
  intros Hj Ho first second.
  pose proof (read_denotesWithin _ _ _ Hj) as Hjw.
  pose proof (read_denotesWithin _ _ _ Ho) as How.
  destruct (sim_parseBimJson true everywhere h json document options opts
              (open_everywhere h) Hjw How) as [Hp1 Hsim1].
  fold first in Hp1, Hsim1.
  destruct (sim_parseBimJson true everywhere first.2 json document options opts
              (open_everywhere _) (reads_prefix _ _ _ _ _ _ Hjw Hp1)
              (reads_prefix _ _ _ _ _ _ How Hp1)) as [Hp2 Hsim2].
  fold second in Hp2, Hsim2.
  assert (Hread : ∀ v t, Store.read (length h) h v = Some t →
                         Store.read (length h) first.2 v = Some t).
  { intros v t Hv. rewrite read_readIn in *. by eapply readIn_prefix. }
  repeat match goal with |- _ ∧ _ => split end; auto.
  destruct (parseBimJson document opts) as [model|e].
  - destruct first.1 as [v1|] eqn:Hf; [|done].
    destruct second.1 as [v2|] eqn:Hs; [|done].
    destruct (returnsNew_parseBimJson json options h v1 first.2) as (l1 & -> & Hl1).
    { subst first. by destruct (Store.parseBimJson json options h); simplify_eq/=. }
    destruct (returnsNew_parseBimJson json options first.2 v2 second.2)
      as (l2 & -> & Hl2).
    { subst second. by destruct (Store.parseBimJson json options first.2); simplify_eq/=. }
    exists l1, l2. repeat split; auto.
    + by apply denotes_read.
    + apply denotes_read. by eapply reads_prefix.
    + by apply denotes_read.
  - destruct first.1 as [|e1]; [done|]. destruct second.1 as [|e2]; [done|].
    by subst.
Qed.

Lemma parseBimJson_leaves_input_witness :
  let h := [Store.CObj [("name", Store.SStr "S")];
            Store.CObj [("model", Store.SRef 0)]] in
  let first := Store.parseBimJson (Store.SRef 1) Store.SUndef h in
  h `prefix_of` first.2
  ∧ Store.read (length h) first.2 (Store.SRef 1)
    = Some (VObj [("model", VObj [("name", VStr "S")])]).
Proof.
  intros h first.
  pose proof (parseBimJson_leaves_input (Store.SRef 1) Store.SUndef h
                (VObj [("model", VObj [("name", VStr "S")])]) VUndef
                eq_refl eq_refl) as H.
  split; [exact (proj1 H) | exact (proj1 (proj2 H))].
Defined.

(** * Further properties of the encoding detector *)

Local Open Scope nat_scope.

Lemma to_N_lowByte u : Byte.to_N (lowByte u) = (u mod 256)%N.
Proof.
  unfold lowByte. destruct (Byte.of_N (u mod 256)) as [b|] eqn:E; simpl.
  - by apply Byte.to_of_N.
  - apply Byte.of_N_None_iff in E.
    pose proof (N.mod_upper_bound u 256). lia.
Qed.

Lemma to_N_highByte u : (u < 65536)%N → Byte.to_N (highByte u) = (u / 256)%N.
Proof.
  intros Hu. unfold highByte.
  destruct (Byte.of_N (u / 256)) as [b|] eqn:E; simpl.
  - by apply Byte.to_of_N.
  - apply Byte.of_N_None_iff in E.
    assert (u / 256 < 256)%N by (apply N.Div0.div_lt_upper_bound; lia). lia.
Qed.

Lemma utf16leDecode_encode t tail :
  codeUnits t = true → length tail ≤ 1 →
  utf16leDecode (utf16leEncode t ++ tail) = t.
Proof.
  intros Ht Htail. induction t as [|u t IH]; simpl.
  - by destruct tail as [|? [|? ?]]; simpl in *; try lia.
  - simpl in Ht. apply andb_prop in Ht as [Hu Ht]. apply N.ltb_lt in Hu.
    rewrite IH by done. rewrite to_N_lowByte, to_N_highByte by done.
    f_equal. pose proof (N.div_mod u 256). lia.
Qed.

Lemma swapPairs_utf16beEncode t : swapPairs (utf16beEncode t) = utf16leEncode t.
Proof. induction t as [|u t IH]; simpl; [done|]. by rewrite IH. Qed.

Lemma length_utf16beEncode t : length (utf16beEncode t) = 2 * length t.
Proof. induction t as [|u t IH]; simpl; [done|]. rewrite IH. lia. Qed.

(** X1: a text written as UTF-16 little-endian behind the marker FF FE is
    read back as it was, and a single stray byte after it is dropped. *)
Theorem detectAndDecodeBom_utf16le_round_trip
    (utf8Decode : list Byte.byte → text) (t : text) (tail : list Byte.byte) :
  codeUnits t = true → length tail ≤ 1 →
  detectAndDecodeBom utf8Decode (Byte.xff :: Byte.xfe :: utf16leEncode t ++ tail)
  = Ok t.
Proof.
  intros Ht Htail. rewrite detectAndDecodeBom_utf16le_marker.
  by rewrite utf16leDecode_encode.
Qed.

Lemma detectAndDecodeBom_utf16le_round_trip_witness :
  detectAndDecodeBom (fun _ => [])
    (Byte.xff :: Byte.xfe :: utf16leEncode [123%N; 8364%N] ++ [Byte.x41])
  = Ok [123%N; 8364%N].
Proof.
  apply (detectAndDecodeBom_utf16le_round_trip (fun _ => []) [123%N; 8364%N]
           [Byte.x41]); [reflexivity | simpl; lia].
Defined.

(** X2: a text written as UTF-16 big-endian behind the marker FE FF is
    read back as it was. *)
Theorem detectAndDecodeBom_utf16be_round_trip
    (utf8Decode : list Byte.byte → text) (t : text) :
  codeUnits t = true →
  detectAndDecodeBom utf8Decode (Byte.xfe :: Byte.xff :: utf16beEncode t) = Ok t.
Proof.
  intros Ht. rewrite detectAndDecodeBom_utf16be_marker.
  - rewrite swapPairs_utf16beEncode.
    rewrite <- (app_nil_r (utf16leEncode t)).
    rewrite utf16leDecode_encode; [done | done | simpl; lia].
  - rewrite length_utf16beEncode. by rewrite Nat.even_mul.
Qed.

Lemma detectAndDecodeBom_utf16be_round_trip_witness :
  detectAndDecodeBom (fun _ => [])
    (Byte.xfe :: Byte.xff :: utf16beEncode [123%N; 8364%N])
  = Ok [123%N; 8364%N].
Proof.
  apply (detectAndDecodeBom_utf16be_round_trip (fun _ => []) [123%N; 8364%N]).
  reflexivity.
Defined.

(** The marker tests of the detector, as prefixes of the buffer. *)
Lemma marker2_startsWith buffer a b :
  (2 <=? length buffer) && byteIs buffer 0 a && byteIs buffer 1 b
  = startsWith [a; b] buffer.
Proof.
  destruct buffer as [|x [|y r]]; simpl; try done.
  - unfold byteIs. simpl. by rewrite andb_false_r.
  - unfold byteIs. simpl. by rewrite andb_true_r.
Qed.

Lemma marker3_startsWith buffer a b c :
  (3 <=? length buffer) && byteIs buffer 0 a && byteIs buffer 1 b
  && byteIs buffer 2 c
  = startsWith [a; b; c] buffer.
Proof.
  destruct buffer as [|x [|y [|z r]]]; simpl; try done.
  - unfold byteIs. simpl. by rewrite andb_false_r.
  - unfold byteIs. simpl. by rewrite !andb_false_r.
  - unfold byteIs. simpl. by rewrite andb_true_r, andb_assoc.
Qed.

Lemma byteIs_other buffer i x y :
  byteIs buffer i x = true → x ≠ y → byteIs buffer i y = false.
Proof.
  intros Hx Hne. destruct (byteIs buffer i y) eqn:Hy; [|done].
  destruct Hne. by eapply byteIs_inj.
Qed.

(** When the bytes at 1 and 3 are zero and the first byte is not, the
    buffer is read as UTF-16 little-endian in whole. *)
Lemma detectAndDecodeBom_heuristic utf8Decode buffer :
  byteIs buffer 1 Byte.x00 = true → byteIs buffer 3 Byte.x00 = true →
  byteIs buffer 0 Byte.x00 = false →
  detectAndDecodeBom utf8Decode buffer = Ok (utf16leDecode buffer).
Proof.
  intros H1 H3 H0. unfold detectAndDecodeBom.
  rewrite (byteIs_other _ _ _ Byte.xbb H1), (byteIs_other _ _ _ Byte.xfe H1),
    (byteIs_other _ _ _ Byte.xff H1) by discriminate.
  rewrite H1, H3, H0. apply byteIs_length in H3.
  assert ((4 <=? length buffer) = true) as -> by (apply Nat.leb_le; lia).
  by rewrite !andb_false_r.
Qed.

Lemma highByte_small c : (c < 256)%N → highByte c = Byte.x00.
Proof. intros Hc. unfold highByte. by rewrite N.div_small. Qed.

Lemma lowByte_nonzero c :
  (0 < c < 256)%N → Byte.eqb (lowByte c) Byte.x00 = false.
Proof.
  intros Hc. destruct (Byte.eqb (lowByte c) Byte.x00) eqn:E; [|done].
  apply Byte.byte_dec_bl in E.
  pose proof (to_N_lowByte c) as Hl. rewrite E in Hl. simpl in Hl.
  rewrite N.mod_small in Hl; lia.
Qed.

(** X3: a text written as UTF-16 little-endian with no marker is read
    back as it was when it has at least two characters, both below 256 and
    the first not NUL, as a JSON object written that way has. *)
Theorem detectAndDecodeBom_unmarked_utf16le
    (utf8Decode : list Byte.byte → text) (c1 c2 : N) (rest : text) :
  (0 < c1 < 256)%N → (c2 < 256)%N → codeUnits rest = true →
  detectAndDecodeBom utf8Decode (utf16leEncode (c1 :: c2 :: rest))
  = Ok (c1 :: c2 :: rest).
Proof.
  intros Hc1 Hc2 Hrest.
  assert (Hdec : utf16leDecode (utf16leEncode (c1 :: c2 :: rest))
                 = c1 :: c2 :: rest).
  { rewrite <- (app_nil_r (utf16leEncode _)).
    apply utf16leDecode_encode; [|simpl; lia].
    simpl. rewrite Hrest.
    assert ((c1 <? 65536)%N = true) as -> by (apply N.ltb_lt; lia).
    assert ((c2 <? 65536)%N = true) as -> by (apply N.ltb_lt; lia). done. }
  rewrite <- Hdec at 2. apply detectAndDecodeBom_heuristic.
  - simpl. unfold byteIs. simpl. rewrite highByte_small by lia. done.
  - simpl. unfold byteIs. simpl. rewrite highByte_small by lia. done.
  - simpl. unfold byteIs. simpl. by apply lowByte_nonzero.
Qed.

Lemma detectAndDecodeBom_unmarked_utf16le_witness :
  detectAndDecodeBom (fun _ => []) (utf16leEncode [123%N; 34%N; 8364%N])
  = Ok [123%N; 34%N; 8364%N].
Proof.
  apply (detectAndDecodeBom_unmarked_utf16le (fun _ => []) 123 34 [8364%N]);
    [lia | lia | reflexivity].
Defined.

Lemma nulFree_byteIs buffer i :
  nulFree buffer = true → byteIs buffer i Byte.x00 = false.
Proof.
  intros Hn. unfold byteIs. destruct (buffer !! i) as [b|] eqn:E; [|done].
  unfold nulFree in Hn. rewrite forallb_forall in Hn.
  apply negb_true_iff, Hn, list_elem_of_In. by eapply list_elem_of_lookup_2.
Qed.

(** X4: a buffer that holds no zero byte and begins with none of the three
    markers is decoded as UTF-8 in whole; the empty buffer is one. *)
Theorem detectAndDecodeBom_plain_utf8
    (utf8Decode : list Byte.byte → text) (buffer : list Byte.byte) :
  nulFree buffer = true →
  startsWith [Byte.xef; Byte.xbb; Byte.xbf] buffer = false →
  startsWith [Byte.xff; Byte.xfe] buffer = false →
  startsWith [Byte.xfe; Byte.xff] buffer = false →
  detectAndDecodeBom utf8Decode buffer = Ok (utf8Decode buffer).
Proof.
  intros Hn H8 Hle Hbe. unfold detectAndDecodeBom.
  rewrite marker3_startsWith, !marker2_startsWith, H8, Hle, Hbe.
  by rewrite (nulFree_byteIs _ 1 Hn), andb_false_r.
Qed.

Lemma detectAndDecodeBom_plain_utf8_witness :
  detectAndDecodeBom (fun b => map Byte.to_N b) [Byte.x7b; Byte.x7d]
  = Ok [123%N; 125%N]
  ∧ detectAndDecodeBom (fun b => map Byte.to_N b) [] = Ok [].
Proof.
  split.
  - apply (detectAndDecodeBom_plain_utf8 (fun b => map Byte.to_N b)
             [Byte.x7b; Byte.x7d]); reflexivity.
  - apply (detectAndDecodeBom_plain_utf8 (fun b => map Byte.to_N b) []);
      reflexivity.
Defined.

(** Two markers a buffer begins with have the same first byte. *)
Lemma startsWith_head a ms b ns buffer :
  startsWith (a :: ms) buffer = true → startsWith (b :: ns) buffer = true →
  a = b.
Proof.
  destruct buffer as [|x r]; simpl; [discriminate|].
  intros [Ha%Byte.byte_dec_bl _]%andb_prop [Hb%Byte.byte_dec_bl _]%andb_prop.
  congruence.
Qed.

(** When the detector raises, and what. *)
Lemma detectAndDecodeBom_Throw utf8Decode buffer e :
  detectAndDecodeBom utf8Decode buffer = Throw e ↔
  e = oddSwap
  ∧ startsWith [Byte.xfe; Byte.xff] buffer = true
  ∧ Nat.even (length buffer) = false.
Proof.
  unfold detectAndDecodeBom, swap16.
  rewrite marker3_startsWith, !marker2_startsWith.
  destruct (startsWith [Byte.xef; Byte.xbb; Byte.xbf] buffer) eqn:H8.
  { split; [discriminate|]. intros (_ & Hbe & _).
    by pose proof (startsWith_head _ _ _ _ _ H8 Hbe). }
  destruct (startsWith [Byte.xff; Byte.xfe] buffer) eqn:Hle.
  { split; [discriminate|]. intros (_ & Hbe & _).
    by pose proof (startsWith_head _ _ _ _ _ Hle Hbe). }
  destruct (startsWith [Byte.xfe; Byte.xff] buffer) eqn:Hbe.
  - destruct (Nat.even (length buffer)); simpl.
    + split; [discriminate | by intros (_ & _ & ?)].
    + split; [by intros [= <-] | by intros (-> & _)].
  - split; [|by intros (_ & ? & _)].
    repeat case_match; discriminate.
Qed.

(** X5: the detector fails on exactly the buffers of odd length that begin
    with the big-endian marker FE FF, always with the RangeError of the
    byte swap; on every buffer of even length it returns a text. *)
Theorem detectAndDecodeBom_failure
    (utf8Decode : list Byte.byte → text) (buffer : list Byte.byte) :
  (∀ e, detectAndDecodeBom utf8Decode buffer = Throw e ↔
        e = oddSwap
        ∧ startsWith [Byte.xfe; Byte.xff] buffer = true
        ∧ Nat.even (length buffer) = false)
  ∧ (Nat.even (length buffer) = true →
     ∃ t, detectAndDecodeBom utf8Decode buffer = Ok t).
Proof.
  split; [intros e; apply detectAndDecodeBom_Throw|].
  intros Hev.
  destruct (detectAndDecodeBom utf8Decode buffer) as [t|e] eqn:E;
    [by exists t|].
  apply detectAndDecodeBom_Throw in E as (_ & _ & Hodd). congruence.
Qed.

(** * Further properties of the document loader *)

Lemma classify_foreign filePath e :
  isTomParserError e = false →
  classify filePath e
  = TomParserError
      (if codeIs e "ENOENT" then FILE_NOT_FOUND
       else if isSyntaxError e then INVALID_JSON else "UNKNOWN")
      (if codeIs e "ENOENT" then "BIM file not found: " +:+ filePath
       else if isSyntaxError e then "Invalid JSON in BIM file: " +:+ err_message e
       else "Error parsing BIM file: " +:+ err_message e)
      (Some e).
Proof.
  intros He. unfold classify. rewrite He.
  destruct (codeIs e "ENOENT"); [done|]. by destruct (isSyntaxError e).
Qed.

(** X6: a file of odd length that begins with the big-endian marker makes
    [parseBimFile] fail before any JSON is parsed: the error has the code
    UNKNOWN and carries the RangeError of the byte swap as its cause. *)
Theorem parseBimFile_odd_big_endian
    (utf8Decode : list Byte.byte → text)
    (readFile : string → result (list Byte.byte))
    (JSON_parse : text → result value) (filePath : string) (options : value)
    (buffer : list Byte.byte) :
  readFile filePath = Ok buffer →
  startsWith [Byte.xfe; Byte.xff] buffer = true →
  Nat.even (length buffer) = false →
  parseBimFile utf8Decode readFile JSON_parse filePath options
  = Throw (TomParserError "UNKNOWN"
             "Error parsing BIM file: Buffer size must be a multiple of 16-bits"
             (Some oddSwap)).
Proof.
  intros Hread Hbe Hodd. unfold parseBimFile, loadAndParse.
  rewrite Hread. simpl.
  assert (detectAndDecodeBom utf8Decode buffer = Throw oddSwap) as ->.
  { by apply detectAndDecodeBom_Throw. }
  reflexivity.
Qed.

Lemma parseBimFile_odd_big_endian_witness :
  parseBimFile (fun _ => []) (fun _ => Ok [Byte.xfe; Byte.xff; Byte.x7b])
    (fun _ => Ok VNull) "model.bim" VUndef
  = Throw (TomParserError "UNKNOWN"
             "Error parsing BIM file: Buffer size must be a multiple of 16-bits"
             (Some oddSwap)).
Proof.
  apply (parseBimFile_odd_big_endian (fun _ => [])
           (fun _ => Ok [Byte.xfe; Byte.xff; Byte.x7b]) (fun _ => Ok VNull)
           "model.bim" VUndef [Byte.xfe; Byte.xff; Byte.x7b]);
    reflexivity.
Defined.

(** X7: when neither the file read nor the JSON parser raises a
    TomParserError of its own, every error that leaves [parseBimFile] is a
    TomParserError, and it is either the missing-model error, passed
    through with no cause, or a wrapper around the original error with the
    code FILE_NOT_FOUND, INVALID_JSON or UNKNOWN.  The codes
    UNKNOWN_DATA_TYPE, MALFORMED_RELATIONSHIP and INVALID_PARTITION are
    never raised. *)
Theorem parseBimFile_error_kinds
    (utf8Decode : list Byte.byte → text)
    (readFile : string → result (list Byte.byte))
    (JSON_parse : text → result value) (filePath : string) (options : value)
    (e : error) :
  (∀ p err, readFile p = Throw err → isTomParserError err = false) →
  (∀ t err, JSON_parse t = Throw err → isTomParserError err = false) →
  parseBimFile utf8Decode readFile JSON_parse filePath options = Throw e →
  err_cls e = ClsTomParserError
  ∧ (e = missingModel
     ∨ ∃ cause, err_cause e = Some cause
         ∧ isTomParserError cause = false
         ∧ err_code e
           = Some (if codeIs cause "ENOENT" then FILE_NOT_FOUND
                   else if isSyntaxError cause then INVALID_JSON
                   else "UNKNOWN"))
  ∧ err_code e ≠ Some UNKNOWN_DATA_TYPE
  ∧ err_code e ≠ Some MALFORMED_RELATIONSHIP
  ∧ err_code e ≠ Some INVALID_PARTITION.
Proof.
  intros Hread Hparse. unfold parseBimFile.
  destruct (loadAndParse _ _ _ _ _) as [model|e0] eqn:Hload; [discriminate|].
  intros [= <-].
  assert (Hsrc : e0 = missingModel ∨ isTomParserError e0 = false).
  { unfold loadAndParse in Hload.
    apply bind_Throw in Hload as [H | (buffer & _ & Hload)]; [eauto|].
    apply bind_Throw in Hload as [H | (content & _ & Hload)].
    { apply detectAndDecodeBom_Throw in H as (-> & _). by right. }
    apply bind_Throw in Hload as [H | (json & _ & Hload)]; [eauto|].
    apply parseBimJson_Throw in Hload as [(-> & _) | ->]; [by left | by right]. }
  destruct Hsrc as [-> | He0].
  - repeat split; try discriminate. by left.
  - rewrite (classify_foreign _ _ He0).
    split; [done|]. split.
    + right. exists e0. by repeat split.
    + simpl. destruct (codeIs e0 "ENOENT"); [by repeat split|].
      destruct (isSyntaxError e0); by repeat split.
Qed.

Lemma parseBimFile_error_kinds_witness :
  err_cls (TomParserError FILE_NOT_FOUND "BIM file not found: model.bim"
             (Some (MkError ClsError (Some "ENOENT") "no such file" None)))
  = ClsTomParserError.
Proof.
  apply (parseBimFile_error_kinds (fun _ => [])
           (fun _ => Throw (MkError ClsError (Some "ENOENT") "no such file" None))
           (fun _ => Ok VNull) "model.bim" VUndef).
  - intros p err [= <-]. reflexivity.
  - intros t err [=].
  - reflexivity.
Defined.

(** * The shape of the result *)

Lemma present_coalesce a b : present b = true → present (coalesce a b) = true.
Proof. unfold present, coalesce. by destruct (nullish a) eqn:E; [|rewrite E]. Qed.

Lemma mapM_Forall_out {A B} (f : A → result B) (P : B → Prop) l ys :
  (∀ x y, f x = Ok y → P y) → mapM f l = Ok ys → Forall P ys.
Proof.
  intros Hf H%mapM_Forall2. induction H; constructor; eauto.
Qed.

Lemma mapM_arrayOf (f : value → result value) (p : value → bool) l ys :
  (∀ x y, f x = Ok y → p y = true) → mapM f l = Ok ys →
  arrayOf p (VArr ys) = true.
Proof.
  intros Hf H. simpl. apply forallb_Forall. by eapply mapM_Forall_out.
Qed.

Lemma mapDataType_present v d : mapDataType v = Ok d → present d = true.
Proof.
  unfold mapDataType. intros H. returned; [done|].
  by apply present_coalesce.
Qed.

Lemma prop_obj ps k : prop (VObj ps) k = default VUndef (lookup_prop k ps).
Proof. reflexivity. Qed.

Arguments columnOut : simpl never.
Arguments partitionOut : simpl never.
Arguments measureOut : simpl never.
Arguments tableOut : simpl never.
Arguments relationshipOut : simpl never.
Arguments annotationOut : simpl never.
Arguments cultureOut : simpl never.
Arguments schemaOut : simpl never.

(** Decides a shape predicate on an object whose property names are
    known. *)
Ltac shape :=
  simpl; rewrite ?prop_obj; simpl;
  repeat match goal with
    | |- _ && _ = true => apply andb_true_intro; split
    end;
  try first [done | by apply present_coalesce | assumption].

Lemma parseColumn_columnOut c r : parseColumn c = Ok r → columnOut r = true.
Proof.
  unfold parseColumn. intros H. returned.
  all: apply mapDataType_present in H0.
  all: destruct (truthy (prop c "summarizeBy")) eqn:?,
         (truthy (prop c "formatString")) eqn:?.
  all: unfold columnOut; shape.
Qed.

(** The source type with the tests that led to it. *)
Lemma mapPartitionSourceType_cases source x :
  mapPartitionSourceType source = Ok x →
  (x = PartitionSourceType_value None_
   ∧ (truthy source = false
      ∨ truthy source = true ∧ str_eq (prop source "type") "m" = false
        ∧ truthy (prop source "expression") = false
        ∧ truthy (prop source "query") = false))
  ∨ (x = PartitionSourceType_value M
     ∧ truthy source = true ∧ str_eq (prop source "type") "m" = true)
  ∨ (x = PartitionSourceType_value Calculated
     ∧ truthy source = true ∧ str_eq (prop source "type") "m" = false
     ∧ truthy (prop source "expression") = true)
  ∨ (x = PartitionSourceType_value Query
     ∧ truthy source = true ∧ str_eq (prop source "type") "m" = false
     ∧ truthy (prop source "expression") = false
     ∧ truthy (prop source "query") = true).
Proof.
  unfold mapPartitionSourceType. intros H.
  destruct (truthy source) eqn:Hs; simpl in H.
  - returned; [right; left | right; right; left | right; right; right | left];
      repeat split; auto.
  - injection H as <-. left. auto.
Qed.

Lemma mapPartitionSourceType_member source x :
  mapPartitionSourceType source = Ok x →
  oneOf ["query"; "m"; "calculated"; "none"] x = true.
Proof.
  intros [(-> & _) | [(-> & _) | [(-> & _) | (-> & _)]]]%mapPartitionSourceType_cases;
    reflexivity.
Qed.

Lemma parsePartition_partitionOut p r :
  parsePartition p = Ok r → partitionOut r = true.
Proof.
  unfold parsePartition. intros H. returned.
  all: apply mapPartitionSourceType_member in H0.
  - destruct (truthy (prop (prop p "source") "dataView")) eqn:?,
      (truthy (prop (prop p "source") "query")) eqn:?,
      (truthy (prop (prop p "source") "expression")) eqn:?,
      (str_eq (prop (prop p "source") "dataView") "Sample") eqn:?.
    all: unfold partitionOut; shape.
  - unfold partitionOut; shape.
Qed.

Lemma parseMeasure_measureOut m r : parseMeasure m = Ok r → measureOut r = true.
Proof. unfold parseMeasure. intros H. returned. unfold measureOut. shape. Qed.

Lemma parseAnnotations_arrayOf v r :
  parseAnnotations v = Ok r → arrayOf annotationOut r = true.
Proof.
  unfold parseAnnotations. intros H.
  destruct v; try (by injection H as <-).
  apply bind_Ok in H as (out & Hout & [= <-]).
  eapply mapM_arrayOf; [|exact Hout].
  intros a y Hy. simpl in Hy. returned. unfold annotationOut. shape.
Qed.

Lemma parseColumns_arrayOf v inc r :
  parseColumns v inc = Ok r → arrayOf columnOut r = true.
Proof.
  unfold parseColumns. intros H. destruct v; try (by injection H as <-).
  apply bind_Ok in H as (kept & _ & (out & Hout & [= <-])%bind_Ok).
  eapply mapM_arrayOf; [|exact Hout]. apply parseColumn_columnOut.
Qed.

Lemma parsePartitions_arrayOf v r :
  parsePartitions v = Ok r → arrayOf partitionOut r = true.
Proof.
  unfold parsePartitions. intros H. destruct v; try (by injection H as <-).
  apply bind_Ok in H as (out & Hout & [= <-]).
  eapply mapM_arrayOf; [|exact Hout]. apply parsePartition_partitionOut.
Qed.

Lemma parseMeasures_arrayOf v inc r :
  parseMeasures v inc = Ok r → arrayOf measureOut r = true.
Proof.
  unfold parseMeasures. intros H. destruct v; try (by injection H as <-).
  apply bind_Ok in H as (kept & _ & (out & Hout & [= <-])%bind_Ok).
  eapply mapM_arrayOf; [|exact Hout]. apply parseMeasure_measureOut.
Qed.

Lemma parseTable_tableOut t inc r : parseTable t inc = Ok r → tableOut r = true.
Proof.
  unfold parseTable. intros H. returned.
  match goal with
  | Hc : parseColumns _ _ = Ok _, Hp : parsePartitions _ = Ok _,
    Hm : parseMeasures _ _ = Ok _ |- _ =>
      apply parseColumns_arrayOf in Hc; apply parsePartitions_arrayOf in Hp;
      apply parseMeasures_arrayOf in Hm
  end.
  unfold tableOut. shape.
Qed.

Lemma parseTables_arrayOf v inc r :
  parseTables v inc = Ok r → arrayOf tableOut r = true.
Proof.
  unfold parseTables. intros H. destruct v; try (by injection H as <-).
  apply bind_Ok in H as (kept & _ & (out & Hout & [= <-])%bind_Ok).
  eapply mapM_arrayOf; [|exact Hout]. intros x y. apply parseTable_tableOut.
Qed.

Lemma toLowerCase_Ok_string v s : toLowerCase v = Ok s → isString v = true.
Proof. by destruct v. Qed.

Lemma mapCardinality_member d f t :
  oneOf ["1:1"; "1:*"; "*:1"] (mapCardinality d f t) = true.
Proof. unfold mapCardinality. by repeat case_match. Qed.

Lemma mapCrossFilteringBehavior_member d :
  oneOf ["bothDirections"; "oneDirection"; "none"] (mapCrossFilteringBehavior d)
  = true.
Proof. unfold mapCrossFilteringBehavior. by repeat case_match. Qed.

Lemma parseRelationship_relationshipOut r tm out :
  parseRelationship r tm = Ok out → relationshipOut out = true.
Proof.
  unfold parseRelationship. intros H. returned.
  repeat match goal with
    | Hl : toLowerCase _ = Ok _ |- _ => apply toLowerCase_Ok_string in Hl
    end.
  unfold relationshipOut. shape.
  - apply mapCardinality_member.
  - apply mapCrossFilteringBehavior_member.
Qed.

Lemma parseDataModelSchema_schemaOut m inc r :
  parseDataModelSchema m inc = Ok r → schemaOut r = true.
Proof.
  unfold parseDataModelSchema. intros H.
  apply bind_Ok in H as (name & Hname & H). apply get_Ok_prop in Hname.
  apply bind_Ok in H as (level & Hlevel & H). apply get_Ok_prop in Hlevel.
  apply bind_Ok in H as (cultures & _ & H).
  apply bind_Ok in H as (schema1 & Hcultures & H).
  apply bind_Ok in H as (annotations & _ & H).
  apply bind_Ok in H as (schema2 & Hannotations & [= <-]).
  assert (Hcs : ∃ cs, arrayOf cultureOut cs = true
                ∧ schema1 = [("name", coalesce name (VStr "Model"));
                             ("compatibilityLevel", coalesce level (VNum 0));
                             ("cultures", cs); ("annotations", VArr [])]).
  { destruct cultures; try (injection Hcultures as <-; by exists (VArr [])).
    apply bind_Ok in Hcultures as (cs & Hcs & [= <-]).
    exists (VArr cs). split; [|done].
    eapply mapM_arrayOf; [|exact Hcs].
    intros c y Hy. simpl in Hy.
    apply bind_Ok in Hy as (cname & _ & Hy).
    apply bind_Ok in Hy as (a & Ha & [= <-]).
    destruct (truthy inc).
    - apply bind_Ok in Ha as (raw & _ & Ha%parseAnnotations_arrayOf).
      unfold cultureOut. shape. by rewrite Ha, orb_true_r.
    - injection Ha as <-. reflexivity. }
  destruct Hcs as (cs & Hcs & ->).
  destruct (truthy annotations && truthy inc).
  - apply bind_Ok in Hannotations as (parsed & Hp%parseAnnotations_arrayOf & [= <-]).
    unfold schemaOut. shape.
  - injection Hannotations as <-. unfold schemaOut. shape.
Qed.

(** X8: whatever the document holds, a model that [parseBimJson] returns
    has the documented shape: an object with [model], [tables] and
    [relationships]; the schema has a name, a compatibility level and
    arrays of cultures and annotations; every table has a name and arrays
    of columns, partitions and measures, whose entries carry their fixed
    properties, a name, and only truthy optional properties; every
    relationship has string end points and enum members for cardinality
    and cross filtering. *)
Theorem parseBimJson_output_shape (json options out : value) :
  parseBimJson json options = Ok out → modelOut out = true.
Proof.
  unfold parseBimJson. rewrite !optget_total. simpl. intros H.
  apply bind_Ok in H as (m & _ & H).
  destruct (negb (truthy m)); [discriminate|].
  apply bind_Ok in H as (schema & Hschema%parseDataModelSchema_schemaOut & H).
  apply bind_Ok in H as (tj & _ & H).
  apply bind_Ok in H as (tables & Htables & H).
  apply bind_Ok in H as (rj & _ & H).
  apply bind_Ok in H as (rels & Hrels & [= <-]).
  apply parseTables_arrayOf in Htables.
  assert (arrayOf relationshipOut rels = true) as Hr.
  { unfold parseRelationships in Hrels.
    destruct (coalesce rj (VArr [])); try (by injection Hrels as <-).
    destruct tables; try discriminate.
    apply bind_Ok in Hrels as (es & _ & (rs & Hrs & [= <-])%bind_Ok).
    eapply mapM_arrayOf; [|exact Hrs].
    intros x y. apply parseRelationship_relationshipOut. }
  unfold modelOut. shape.
Qed.

Lemma parseBimJson_output_shape_witness :
  modelOut (returnedValue (parseBimJson sampleDocument VUndef)) = true.
Proof.
  apply (parseBimJson_output_shape sampleDocument VUndef). reflexivity.
Defined.

(** * Hidden objects in the result *)

Lemma filterM_kept {A} (p : A → result bool) l kept :
  filterM p l = Ok kept → Forall (fun x => p x = Ok true) kept.
Proof.
  revert kept. induction l as [|x l IH]; simpl; intros kept.
  - intros [= <-]. constructor.
  - intros (b & Hb & (ks & Hks & [= <-])%bind_Ok)%bind_Ok.
    destruct b; [constructor|]; auto.
Qed.

(** What the three filtered collections return under a falsy flag holds
    no entry whose [isHidden] is truthy. *)
Lemma filtered_noHidden (f : value → result value) includeHidden items r :
  (∀ x y, f x = Ok y → prop y "isHidden" = prop x "isHidden") →
  truthy includeHidden = false →
  (kept ← filterM (fun x => h ← get x "isHidden";
                            Ok (negb (truthy h) || truthy includeHidden)) items;
   out ← mapM f kept; Ok (VArr out)) = Ok r →
  ∃ out kept, r = VArr out
    ∧ Forall2 (fun x y => f x = Ok y) kept out
    ∧ Forall (fun y => hidden y = false) out.
Proof.
  intros Hf Hinc (kept & Hkept & (out & Hout & [= <-])%bind_Ok)%bind_Ok.
  exists out, kept. split; [done|].
  apply filterM_kept in Hkept. apply mapM_Forall2 in Hout. split; [done|].
  induction Hout as [|x y kept out Hxy _ IH]; [constructor|].
  apply Forall_cons in Hkept as [Hx Hkept].
  constructor; [|by apply IH].
  simpl in Hx. apply bind_Ok in Hx as (h & Hh%get_Ok_prop & [= Hx]).
  subst h. rewrite Hinc, orb_false_r in Hx. apply negb_true_iff in Hx.
  unfold hidden. by rewrite (Hf _ _ Hxy).
Qed.

Lemma parseColumns_noHidden v includeHidden r :
  truthy includeHidden = false → parseColumns v includeHidden = Ok r →
  arrayOf (fun c => negb (hidden c)) r = true.
Proof.
  intros Hinc H. unfold parseColumns in H.
  destruct v; try (by injection H as <-).
  apply filtered_noHidden in H as (out & _ & -> & _ & Hout);
    [|apply parseColumn_isHidden|done].
  apply forallb_Forall. eapply Forall_impl; [exact Hout|].
  by intros y ->.
Qed.

Lemma parseMeasures_noHidden v includeHidden r :
  truthy includeHidden = false → parseMeasures v includeHidden = Ok r →
  arrayOf (fun m => negb (hidden m)) r = true.
Proof.
  intros Hinc H. unfold parseMeasures in H.
  destruct v; try (by injection H as <-).
  apply filtered_noHidden in H as (out & _ & -> & _ & Hout);
    [|apply parseMeasure_isHidden|done].
  apply forallb_Forall. eapply Forall_impl; [exact Hout|].
  by intros y ->.
Qed.

Lemma parseTables_noHidden v includeHidden r :
  truthy includeHidden = false → parseTables v includeHidden = Ok r →
  noHidden r = true.
Proof.
  intros Hinc H. unfold parseTables in H.
  destruct v; try (by injection H as <-).
  apply filtered_noHidden in H as (out & kept & -> & Hparsed & Hout);
    [|intros x y; apply parseTable_isHidden|done].
  apply forallb_Forall.
  induction Hparsed as [|t r kept out Hr _ IH]; [constructor|].
  apply Forall_cons in Hout as [Hh Hout]. constructor; [|by apply IH].
  simpl. rewrite Hh. simpl.
  destruct (parseTable_children _ _ _ Hr) as (Hc & _ & Hm).
  by rewrite (parseColumns_noHidden _ _ _ Hinc Hc),
    (parseMeasures_noHidden _ _ _ Hinc Hm).
Qed.

(** X9: when the [includeHiddenObjects] option is falsy, the model that
    [parseBimJson] returns holds no hidden object: no table of the result
    has a truthy [isHidden], and neither has any column or measure of any
    table of the result. *)
Theorem parseBimJson_excludes_hidden (json options out : value) :
  truthy (includeHiddenOf options) = false →
  parseBimJson json options = Ok out →
  noHidden (prop out "tables") = true.
Proof.
  intros Hinc (schema & tables & rs & -> & Ht & _)%parseBimJson_Ok_inv.
  by eapply parseTables_noHidden.
Qed.

Lemma parseBimJson_excludes_hidden_witness :
  noHidden
    (prop (returnedValue (parseBimJson sampleDocument (parseOptions true false)))
       "tables") = true.
Proof.
  apply (parseBimJson_excludes_hidden sampleDocument (parseOptions true false));
    reflexivity.
Defined.

(** * The optional properties of columns and partitions *)

Lemma optget_Ok_prop v k x : optget v k = Ok x → x = prop v k.
Proof.
  rewrite optget_total. intros [= <-].
  by destruct v.
Qed.

(** X10: in a column that [parseColumn] returns, [expression] is the raw
    [expression] when that is truthy, else the [expression] of the raw
    [calculatedColumn] when that is truthy, else it is not set;
    [formatString] is set exactly when the raw one is truthy;
    [summarization] is the raw [summarizeBy], set exactly when truthy, and
    the names [summarizeBy] and [calculatedColumn] never appear.  An empty
    string therefore never shows up as an optional property. *)
Theorem parseColumn_optional_fields (c r : value) :
  parseColumn c = Ok r →
  let direct := prop c "expression" in
  let nested := prop (prop c "calculatedColumn") "expression" in
  prop r "expression"
  = (if truthy direct then direct else if truthy nested then nested else VUndef)
  ∧ has_prop "expression" r = truthy direct || truthy nested
  ∧ prop r "formatString"
    = (if truthy (prop c "formatString") then prop c "formatString" else VUndef)
  ∧ has_prop "formatString" r = truthy (prop c "formatString")
  ∧ prop r "summarization"
    = (if truthy (prop c "summarizeBy") then prop c "summarizeBy" else VUndef)
  ∧ has_prop "summarization" r = truthy (prop c "summarizeBy")
  ∧ has_prop "summarizeBy" r = false
  ∧ has_prop "calculatedColumn" r = false
  ∧ prop r "name" = coalesce (prop c "name") (VStr "Column")
  ∧ mapDataType (prop c "dataType") = Ok (prop r "dataType")
  ∧ prop r "isHidden" = prop c "isHidden"
  ∧ prop r "description" = prop c "description".
Proof.
  unfold parseColumn. intros H. returned.
  all: repeat match goal with
         | Ho : optget _ _ = Ok _ |- _ => apply optget_Ok_prop in Ho; subst
         end.
  all: destruct (truthy (prop c "summarizeBy")) eqn:Hs,
         (truthy (prop c "formatString")) eqn:Hf.
  all: simpl; rewrite ?prop_obj; simpl.
  all: repeat match goal with H : truthy _ = _ |- _ => rewrite H end.
  all: by repeat split.
Qed.

Lemma parseColumn_optional_fields_witness :
  prop (returnedValue
          (parseColumn
             (VObj [("name", VStr "Margin"); ("dataType", VStr "Double");
                    ("expression", VStr "");
                    ("calculatedColumn",
                     VObj [("expression", VStr "[Amount] * 0.2")])])))
    "expression"
  = VStr "[Amount] * 0.2".
Proof.
  apply (parseColumn_optional_fields
           (VObj [("name", VStr "Margin"); ("dataType", VStr "Double");
                  ("expression", VStr "");
                  ("calculatedColumn",
                   VObj [("expression", VStr "[Amount] * 0.2")])])).
  reflexivity.
Defined.

(** X11: in a partition that [parsePartition] returns, the source type
    agrees with the optional properties: Calculated comes with a truthy
    [expression], Query with a truthy [query] and no [expression], None
    with neither.  The data view, set only for a truthy raw value, is
    Sample for the exact string Sample and Full for anything else.  With
    no source the partition has just its three fixed properties. *)
Theorem parsePartition_source_fields (p r : value) :
  parsePartition p = Ok r →
  let source := prop p "source" in
  (prop r "sourceType" = PartitionSourceType_value Calculated →
   truthy (prop r "expression") = true)
  ∧ (prop r "sourceType" = PartitionSourceType_value Query →
     truthy (prop r "query") = true ∧ has_prop "expression" r = false)
  ∧ (prop r "sourceType" = PartitionSourceType_value None_ →
     has_prop "expression" r = false ∧ has_prop "query" r = false)
  ∧ prop r "dataView"
    = (if truthy source && truthy (prop source "dataView")
       then if str_eq (prop source "dataView") "Sample"
            then DataView_value Sample else DataView_value Full
       else VUndef)
  ∧ (truthy source = false →
     r = VObj [("name", coalesce (prop p "name") (VStr "Partition"));
               ("sourceType", PartitionSourceType_value None_);
               ("description", prop p "description")]).
Proof.
  unfold parsePartition. intros H. returned.
  - match goal with
    | Hm : mapPartitionSourceType _ = Ok _ |- _ =>
        apply mapPartitionSourceType_cases in Hm
          as [(-> & Hn) | [(-> & _ & Hm) | [(-> & _ & Hm & He) | (-> & _ & Hm & He & Hq)]]]
    end.
    + destruct Hn as [Hn | (_ & _ & He & Hq)]; [congruence|].
      rewrite He, Hq.
      destruct (truthy (prop (prop p "source") "dataView"));
        simpl; rewrite ?prop_obj; simpl; repeat split; try done; congruence.
    + destruct (truthy (prop (prop p "source") "dataView")),
        (truthy (prop (prop p "source") "query")),
        (truthy (prop (prop p "source") "expression"));
        simpl; rewrite ?prop_obj; simpl; repeat split; try done; congruence.
    + rewrite He.
      destruct (truthy (prop (prop p "source") "dataView")),
        (truthy (prop (prop p "source") "query"));
        simpl; rewrite ?prop_obj; simpl; repeat split; try done; congruence.
    + rewrite He, Hq.
      destruct (truthy (prop (prop p "source") "dataView"));
        simpl; rewrite ?prop_obj; simpl; repeat split; try done; congruence.
  - match goal with
    | Hm : mapPartitionSourceType _ = Ok _ |- _ =>
        apply mapPartitionSourceType_cases in Hm
          as [(-> & _) | [(_ & ? & _) | [(_ & ? & _) | (_ & ? & _)]]];
        try congruence
    end.
    simpl. by repeat split.
Qed.

Lemma parsePartition_source_fields_witness :
  prop (returnedValue (parsePartition samplePartition)) "dataView"
  = DataView_value Sample.
Proof.
  apply (parsePartition_source_fields samplePartition). reflexivity.
Defined.

(** * Where the collections raise *)

Lemma mapM_raises {A B} (f : A → result B) l :
  Exists (fun x => ∃ e, f x = Throw e) l → ∃ e, mapM f l = Throw e.
Proof.
  induction 1 as [x l [e He] | x l _ [e IH]]; simpl.
  - rewrite He. simpl. eauto.
  - destruct (f x) as [y|e']; simpl; [|eauto]. rewrite IH. simpl. eauto.
Qed.

Lemma filterM_raises {A} (p : A → result bool) l :
  Exists (fun x => ∃ e, p x = Throw e) l → ∃ e, filterM p l = Throw e.
Proof.
  induction 1 as [x l [e He] | x l _ [e IH]]; simpl.
  - rewrite He. simpl. eauto.
  - destruct (p x) as [y|e']; simpl; [|eauto]. rewrite IH. simpl. eauto.
Qed.

Lemma existsb_Exists {A} (p : A → bool) l :
  existsb p l = true ↔ Exists (fun x => p x = true) l.
Proof.
  induction l as [|x l IH]; simpl.
  - split; [discriminate | by intros ?%Exists_nil].
  - rewrite orb_true_iff, IH, Exists_cons. tauto.
Qed.

Lemma forallb_existsb_negb {A} (p : A → bool) l :
  forallb p l = negb (existsb (fun x => negb (p x)) l).
Proof.
  induction l as [|x l IH]; simpl; [done|].
  rewrite IH. by destruct (p x).
Qed.

Lemma get_nullish_raises v k : nullish v = true → ∃ e, get v k = Throw e.
Proof. destruct v; try discriminate; simpl; eauto. Qed.

Lemma nullish_present v : nullish v = negb (present v).
Proof. unfold present. by rewrite negb_involutive. Qed.

(** X12: on an array, [parseAnnotations], [parsePartitions] and
    [parseMeasures] raise exactly when some entry is null or undefined, and
    what they raise is then a TypeError; the measures raise on such an
    entry whatever the hidden-objects flag. *)
Theorem leaf_collections_raise (items : list value) (includeHidden : value) :
  ((∃ e, parseAnnotations (VArr items) = Throw e)
   ↔ existsb nullish items = true)
  ∧ ((∃ e, parsePartitions (VArr items) = Throw e)
     ↔ existsb nullish items = true)
  ∧ ((∃ e, parseMeasures (VArr items) includeHidden = Throw e)
     ↔ existsb nullish items = true)
  ∧ (∀ e, parseAnnotations (VArr items) = Throw e
          ∨ parsePartitions (VArr items) = Throw e
          ∨ parseMeasures (VArr items) includeHidden = Throw e →
          e = TypeError (err_message e)).
Proof.
  assert (Hsplit : existsb nullish items = true
                   ∨ entries present (VArr items) = true).
  { simpl. rewrite (forallb_existsb_negb present).
    destruct (existsb nullish items) eqn:E; [by left | right].
    assert (existsb (fun x => negb (present x)) items = false) as ->; [|done].
    rewrite <- E. clear. induction items as [|x l IH]; simpl; [done|].
    by rewrite IH, nullish_present. }
  assert (Hnull : existsb nullish items = true →
                  Exists (fun x => nullish x = true) items).
  { apply existsb_Exists. }
  repeat match goal with |- _ ∧ _ => split end.
  - split.
    + intros [e He]. destruct Hsplit as [|Hp]; [done|].
      apply parseAnnotations_Ok in Hp as [out Hout]. congruence.
    + intros Hex%Hnull. unfold parseAnnotations.
      edestruct (mapM_raises (fun a =>
                   name ← get a "name"; val ← get a "value";
                   Ok (VObj [("name", coalesce name (VStr ""));
                             ("value", coalesce val (VStr ""))])) items)
        as [e He]; [|rewrite He; simpl; eauto].
      eapply Exists_impl; [exact Hex|]. intros x Hx. simpl.
      destruct (get_nullish_raises x "name" Hx) as [e ->]. simpl. eauto.
  - split.
    + intros [e He]. destruct Hsplit as [|Hp]; [done|].
      apply parsePartitions_Ok in Hp as [out Hout]. congruence.
    + intros Hex%Hnull. unfold parsePartitions.
      edestruct (mapM_raises parsePartition items)
        as [e He]; [|rewrite He; simpl; eauto].
      eapply Exists_impl; [exact Hex|]. intros x Hx. simpl.
      unfold parsePartition.
      destruct (get_nullish_raises x "name" Hx) as [e ->]. simpl. eauto.
  - split.
    + intros [e He]. destruct Hsplit as [|Hp]; [done|].
      apply (parseMeasures_Ok _ includeHidden) in Hp as [out Hout]. congruence.
    + intros Hex%Hnull. unfold parseMeasures.
      edestruct (filterM_raises (fun m =>
                   h ← get m "isHidden";
                   Ok (negb (truthy h) || truthy includeHidden)) items)
        as [e He]; [|rewrite He; simpl; eauto].
      eapply Exists_impl; [exact Hex|]. intros x Hx. simpl.
      destruct (get_nullish_raises x "isHidden" Hx) as [e ->]. simpl. eauto.
  - intros e [H | [H | H]].
    + by apply parseAnnotations_engine in H.
    + by apply parsePartitions_engine in H.
    + by apply parseMeasures_engine in H.
Qed.

Lemma toLowerCase_raises v :
  nameable v = false → ∃ e, toLowerCase (coalesce v (VStr "")) = Throw e.
Proof. destruct v; try discriminate; simpl; eauto. Qed.

Lemma parseRelationship_raises r (tableMap : gmap string value) :
  relationshipShaped r = false → ∃ e, parseRelationship r tableMap = Throw e.
Proof.
  unfold relationshipShaped, parseRelationship. intros Hr.
  destruct (present r) eqn:Hp; simpl in Hr.
  - rewrite !(present_get _ _ Hp). simpl.
    destruct (nameable (prop r "fromTable")) eqn:Hf; simpl in Hr.
    + destruct (toLowerCase_nameable _ Hf) as [kf ->]. simpl.
      destruct (toLowerCase_raises _ Hr) as [e ->]. simpl. eauto.
    + destruct (toLowerCase_raises _ Hf) as [e ->]. simpl. eauto.
  - apply negb_false_iff in Hp.
    destruct (get_nullish_raises r "fromTable" Hp) as [e ->]. simpl. eauto.
Qed.

Lemma tableEntry_raises t :
  namedTable t = false →
  ∃ e, (name ← get t "name"; key ← toLowerCase name; Ok (key, t)) = Throw e.
Proof.
  unfold namedTable. intros Ht.
  destruct (present t) eqn:Hp; simpl in Ht.
  - rewrite (present_get _ _ Hp). simpl.
    destruct (prop t "name"); try discriminate; simpl; eauto.
  - apply negb_false_iff in Hp.
    destruct (get_nullish_raises t "name" Hp) as [e ->]. simpl. eauto.
Qed.

Lemma forallb_false_Exists {A} (p : A → bool) l :
  forallb p l = false → Exists (fun x => p x = false) l.
Proof.
  induction l as [|x l IH]; simpl; [discriminate|].
  destruct (p x) eqn:E; simpl; [right; auto | by left].
Qed.

(** X13: with a list of tables and a list of relationships,
    [parseRelationships] raises exactly when some table is null or has a
    name that is not a string, or some relationship is null or has a
    [fromTable] or [toTable] that is neither a string nor absent; what it
    raises is a TypeError.  A table with a numeric name therefore makes the
    call raise even when the relationship list is empty. *)
Theorem parseRelationships_raises (ts rels : list value) :
  ((∃ e, parseRelationships (VArr rels) (VArr ts) = Throw e)
   ↔ forallb namedTable ts && forallb relationshipShaped rels = false)
  ∧ (∀ e, parseRelationships (VArr rels) (VArr ts) = Throw e →
          e = TypeError (err_message e))
  ∧ (∀ t, namedTable t = false →
          ∃ e, parseRelationships (VArr []) (VArr [t]) = Throw e).
Proof.
  assert (Hiff : ∀ ts rels,
    (∃ e, parseRelationships (VArr rels) (VArr ts) = Throw e)
    ↔ forallb namedTable ts && forallb relationshipShaped rels = false).
  { clear. intros ts rels. split.
    - intros [e He].
      destruct (forallb namedTable ts) eqn:Hts; [|done].
      destruct (forallb relationshipShaped rels) eqn:Hrels; [|done].
      apply forallb_Forall in Hts, Hrels.
      unfold parseRelationships in He.
      rewrite (tableEntries_named _ Hts) in He. simpl in He.
      rewrite (mapM_map _ relationshipRecord) in He; [discriminate|].
      eapply Forall_impl; [exact Hrels|]. intros r Hr.
      by apply parseRelationship_Ok.
    - intros H. unfold parseRelationships.
      destruct (forallb namedTable ts) eqn:Hts; simpl in H.
      + apply forallb_Forall in Hts.
        rewrite (tableEntries_named _ Hts). simpl.
        edestruct (mapM_raises (fun relJson =>
                     parseRelationship relJson
                       (newMap (map (fun t => (tableKey t, t)) ts))) rels)
          as [e He]; [|rewrite He; simpl; eauto].
        eapply Exists_impl; [exact (forallb_false_Exists _ _ H)|].
        intros r Hr. by apply parseRelationship_raises.
      + unfold tableEntries.
        edestruct (mapM_raises (fun t =>
                     name ← get t "name"; key ← toLowerCase name; Ok (key, t)) ts)
          as [e He]; [|rewrite He; simpl; eauto].
        eapply Exists_impl; [exact (forallb_false_Exists _ _ Hts)|].
        intros t Ht. by apply tableEntry_raises. }
  split; [apply Hiff|]. split.
  - intros e He. by apply parseRelationships_engine in He.
  - intros t Ht. apply Hiff. simpl. by rewrite Ht.
Qed.

(** * The cross-filter mapper *)

(** X14: [mapCrossFilteringBehavior] yields BothDirections for the exact
    string Both and for nothing else, OneDirection for the exact string
    OneDirection and for nothing else, and None for every other value,
    other spellings and absent values among them. *)
Theorem mapCrossFilteringBehavior_exact (crossFilterDirection : value) :
  (mapCrossFilteringBehavior crossFilterDirection
   = CrossFilteringBehavior_value BothDirections
   ↔ crossFilterDirection = VStr "Both")
  ∧ (mapCrossFilteringBehavior crossFilterDirection
     = CrossFilteringBehavior_value OneDirection
     ↔ crossFilterDirection = VStr "OneDirection")
  ∧ (mapCrossFilteringBehavior crossFilterDirection
     = CrossFilteringBehavior_value NoneDirection
     ↔ crossFilterDirection ≠ VStr "Both"
       ∧ crossFilterDirection ≠ VStr "OneDirection").
Proof.
  unfold mapCrossFilteringBehavior.
  destruct (str_eq crossFilterDirection "Both") eqn:Hb.
  { apply str_eq_spec in Hb as ->. simpl.
    repeat split; try done; try discriminate. by intros [? _]. }
  destruct (str_eq crossFilterDirection "OneDirection") eqn:Ho.
  { apply str_eq_spec in Ho as ->.
    repeat split; try done; try discriminate. by intros [_ ?]. }
  assert (crossFilterDirection ≠ VStr "Both").
  { intros Heq%str_eq_spec. congruence. }
  assert (crossFilterDirection ≠ VStr "OneDirection").
  { intros Heq%str_eq_spec. congruence. }
  repeat split; try done; try discriminate.
Qed.

(** * Data types of string tokens *)

(** X15: for every string that is not the name of a member of
    [Object.prototype], [mapDataType] returns the enum member the table
    gives for that exact string, and Unknown when the table has no row for
    it; the match is case sensitive. *)
Theorem mapDataType_string_tokens (s : string) :
  assoc s Object_prototype = None →
  mapDataType (VStr s)
  = Ok (DataType_value (default Unknown (assoc s typeMap))).
Proof.
  intros Hproto. unfold mapDataType.
  destruct (negb (truthy (VStr s))) eqn:Ht.
  - simpl in Ht. apply negb_true_iff, negb_false_iff, String.eqb_eq in Ht.
    by subst s.
  - remember typeMap as rows eqn:Hrows. simpl. unfold typeMap_get.
    rewrite <- Hrows, Hproto. by destruct (assoc s rows) as [[]|].
Qed.

Lemma mapDataType_string_tokens_witness :
  mapDataType (VStr "int64") = Ok (DataType_value Unknown)
  ∧ mapDataType (VStr "DateTimeOffset") = Ok (DataType_value DateTime).
Proof.
  split.
  - apply (mapDataType_string_tokens "int64"). reflexivity.
  - apply (mapDataType_string_tokens "DateTimeOffset"). reflexivity.
Defined.

(** * Defaults *)

Lemma parseColumns_empty v includeHidden :
  isArray v = false →
  parseColumns (coalesce v (VArr [])) includeHidden = Ok (VArr []).
Proof. by destruct v. Qed.

Lemma parsePartitions_empty v :
  isArray v = false → parsePartitions (coalesce v (VArr [])) = Ok (VArr []).
Proof. by destruct v. Qed.

Lemma parseMeasures_empty v includeHidden :
  isArray v = false →
  parseMeasures (coalesce v (VArr [])) includeHidden = Ok (VArr []).
Proof. by destruct v. Qed.

Lemma parseTables_empty v includeHidden :
  isArray v = false →
  parseTables (coalesce v (VArr [])) includeHidden = Ok (VArr []).
Proof. by destruct v. Qed.

Lemma parseRelationships_empty v :
  isArray v = false →
  parseRelationships (coalesce v (VArr [])) (VArr []) = Ok (VArr []).
Proof. by destruct v. Qed.

(** X16: a table that is an object and whose [columns], [partitions] and
    [measures] are missing, or are anything but arrays, is returned with
    three empty arrays, its name defaulting to Table, whatever the
    hidden-objects flag. *)
Theorem parseTable_missing_collections (t includeHidden : value) :
  present t = true →
  isArray (prop t "columns") = false →
  isArray (prop t "partitions") = false →
  isArray (prop t "measures") = false →
  parseTable t includeHidden
  = Ok (VObj [("name", coalesce (prop t "name") (VStr "Table"));
              ("description", prop t "description");
              ("isHidden", prop t "isHidden");
              ("columns", VArr []); ("partitions", VArr []);
              ("measures", VArr [])]).
Proof.
  intros Ht Hc Hp Hm. unfold parseTable. rewrite !(present_get _ _ Ht). simpl.
  rewrite (parseColumns_empty _ _ Hc). simpl.
  rewrite (parsePartitions_empty _ Hp). simpl.
  by rewrite (parseMeasures_empty _ _ Hm).
Qed.

Lemma parseTable_missing_collections_witness :
  parseTable (VObj [("description", VStr "facts"); ("columns", VStr "none")])
    (VBool false)
  = Ok (VObj [("name", VStr "Table"); ("description", VStr "facts");
              ("isHidden", VUndef); ("columns", VArr []);
              ("partitions", VArr []); ("measures", VArr [])]).
Proof.
  apply (parseTable_missing_collections
           (VObj [("description", VStr "facts"); ("columns", VStr "none")])
           (VBool false)); reflexivity.
Defined.

Lemma parseDataModelSchema_bare m includeAnnotations :
  present m = true →
  isArray (prop m "cultures") = false →
  isArray (prop m "annotations") = false →
  parseDataModelSchema m includeAnnotations
  = Ok (VObj [("name", coalesce (prop m "name") (VStr "Model"));
              ("compatibilityLevel",
               coalesce (prop m "compatibilityLevel") (VNum 0));
              ("cultures", VArr []); ("annotations", VArr [])]).
Proof.
  intros Hm Hc Ha. unfold parseDataModelSchema.
  rewrite !(present_get _ _ Hm). simpl.
  destruct (prop m "cultures"); try discriminate Hc; simpl.
  all: destruct (prop m "annotations"); try discriminate Ha; simpl.
  all: by repeat case_match.
Qed.

(** X17: a document whose [model] is truthy and holds no array under
    [cultures], [annotations], [tables] and [relationships] yields, under
    any options, the model with empty lists everywhere, the name
    defaulting to Model and the compatibility level to zero; a name that
    is the empty string and a level that is zero are kept as they are. *)
Theorem parseBimJson_bare_model (json options : value) :
  let m := prop json "model" in
  truthy m = true →
  isArray (prop m "cultures") = false →
  isArray (prop m "annotations") = false →
  isArray (prop m "tables") = false →
  isArray (prop m "relationships") = false →
  parseBimJson json options
  = Ok (VObj [("model",
               VObj [("name", coalesce (prop m "name") (VStr "Model"));
                     ("compatibilityLevel",
                      coalesce (prop m "compatibilityLevel") (VNum 0));
                     ("cultures", VArr []); ("annotations", VArr [])]);
              ("tables", VArr []); ("relationships", VArr [])]).
Proof.
  intros m Hm Hc Ha Ht Hr. subst m. unfold parseBimJson.
  rewrite !optget_total. simpl.
  rewrite (get_present _ _ (truthy_prop_present _ _ Hm)). simpl.
  rewrite Hm. simpl.
  pose proof (truthy_present _ Hm) as Hp.
  rewrite parseDataModelSchema_bare by (done || by apply negb_true_iff).
  simpl. rewrite !(get_present _ _ Hp). simpl.
  rewrite (parseTables_empty _ _ Ht). simpl.
  by rewrite (parseRelationships_empty _ Hr).
Qed.

Lemma parseBimJson_bare_model_witness :
  parseBimJson (VObj [("model", VObj [("name", VStr ""); ("tables", VNum 3)])])
    (parseOptions false false)
  = Ok (VObj [("model",
               VObj [("name", VStr ""); ("compatibilityLevel", VNum 0);
                     ("cultures", VArr []); ("annotations", VArr [])]);
              ("tables", VArr []); ("relationships", VArr [])]).
Proof.
  apply (parseBimJson_bare_model
           (VObj [("model", VObj [("name", VStr ""); ("tables", VNum 3)])])
           (parseOptions false false)); reflexivity.
Defined.

(** * Annotations *)

Lemma cultures_without_annotations includeAnnotations items :
  truthy includeAnnotations = false →
  Forall (fun c => present c = true) items →
  mapM (fun c =>
          cname ← get c "name";
          annotations ←
            (if truthy includeAnnotations then
               raw ← get c "annotations"; parseAnnotations raw
             else Ok VUndef);
          Ok (VObj [("name", cname); ("annotations", annotations)])) items
  = Ok (map (fun c => VObj [("name", prop c "name"); ("annotations", VUndef)])
          items).
Proof.
  intros Hinc Hall. apply mapM_map.
  eapply Forall_impl; [exact Hall|]. intros c Hc. simpl in Hc |- *.
  rewrite Hinc, (present_get _ _ Hc). reflexivity.
Qed.

(** X18: when annotations are not to be included, the schema is built
    without reading any annotation: its [annotations] is the empty array,
    every culture gets [annotations: undefined], and whatever the raw
    annotations hold, null entries among them, the call returns. *)
Theorem parseDataModelSchema_annotations_off (m includeAnnotations : value) :
  truthy includeAnnotations = false →
  present m = true →
  entries present (prop m "cultures") = true →
  parseDataModelSchema m includeAnnotations
  = Ok (VObj [("name", coalesce (prop m "name") (VStr "Model"));
              ("compatibilityLevel",
               coalesce (prop m "compatibilityLevel") (VNum 0));
              ("cultures",
               match prop m "cultures" with
               | VArr items =>
                   VArr (map (fun c => VObj [("name", prop c "name");
                                             ("annotations", VUndef)]) items)
               | _ => VArr []
               end);
              ("annotations", VArr [])]).
Proof.
  intros Hinc Hm Hc. unfold parseDataModelSchema.
  rewrite !(present_get _ _ Hm). simpl. rewrite Hinc, andb_false_r.
  destruct (prop m "cultures") as [| | | | |items| |]; try done.
  simpl in Hc. apply forallb_Forall in Hc.
  pose proof (cultures_without_annotations _ _ Hinc Hc) as Hcs.
  rewrite Hinc in Hcs. simpl in Hcs |- *. by rewrite Hcs.
Qed.

Lemma parseDataModelSchema_annotations_off_witness :
  parseDataModelSchema
    (VObj [("name", VStr "M");
           ("cultures", VArr [VObj [("name", VStr "en-US");
                                    ("annotations", VArr [VNull])]]);
           ("annotations", VArr [VNull])])
    (VBool false)
  = Ok (VObj [("name", VStr "M"); ("compatibilityLevel", VNum 0);
              ("cultures",
               VArr [VObj [("name", VStr "en-US"); ("annotations", VUndef)]]);
              ("annotations", VArr [])]).
Proof.
  apply (parseDataModelSchema_annotations_off
           (VObj [("name", VStr "M");
                  ("cultures", VArr [VObj [("name", VStr "en-US");
                                           ("annotations", VArr [VNull])]]);
                  ("annotations", VArr [VNull])])
           (VBool false)); reflexivity.
Defined.

(** * The errors of the assembler *)

(** X19: an error that leaves [parseBimJson] is either the missing-model
    TomParserError or a TypeError of the engine, which carries no code; a
    null or undefined document gives the latter.  The codes
    UNKNOWN_DATA_TYPE, MALFORMED_RELATIONSHIP and INVALID_PARTITION are
    never raised. *)
Theorem parseBimJson_error_kinds (json options : value) (e : error) :
  parseBimJson json options = Throw e →
  (e = missingModel ∧ nullish json = false
   ∨ err_cls e = ClsTypeError ∧ err_code e = None)
  ∧ (nullish json = true → err_cls e = ClsTypeError)
  ∧ err_code e ≠ Some UNKNOWN_DATA_TYPE
  ∧ err_code e ≠ Some MALFORMED_RELATIONSHIP
  ∧ err_code e ≠ Some INVALID_PARTITION.
Proof.
  intros [(-> & Hj & _) | ->]%parseBimJson_Throw.
  - repeat split; try discriminate; [by left | congruence].
  - repeat split; try discriminate. by right.
Qed.

Lemma parseBimJson_error_kinds_witness :
  err_cls (TypeError "Cannot read properties of null (reading 'isHidden')")
  = ClsTypeError
  ∧ err_code (TypeError "Cannot read properties of null (reading 'isHidden')")
    = None.
Proof.
  destruct (parseBimJson_error_kinds
              (VObj [("model", VObj [("tables", VArr [VNull])])]) VUndef
              (TypeError "Cannot read properties of null (reading 'isHidden')")
              eq_refl) as [[[Hm _] | H] _]; [discriminate Hm | exact H].
Defined.

(** * What the options decide *)

Lemma mapM_ext {A B} (f g : A → result B) l :
  (∀ x, f x = g x) → mapM f l = mapM g l.
Proof.
  intros Hfg. induction l as [|x l IH]; simpl; [done|]. by rewrite Hfg, IH.
Qed.

Lemma parseColumns_truthiness v a b :
  truthy a = truthy b → parseColumns v a = parseColumns v b.
Proof. intros Hab. unfold parseColumns. by rewrite Hab. Qed.

Lemma parseMeasures_truthiness v a b :
  truthy a = truthy b → parseMeasures v a = parseMeasures v b.
Proof. intros Hab. unfold parseMeasures. by rewrite Hab. Qed.

Lemma parseTable_truthiness t a b :
  truthy a = truthy b → parseTable t a = parseTable t b.
Proof.
  intros Hab. unfold parseTable.
  destruct (get t "name") as [name|]; [simpl|done].
  destruct (get t "description") as [description|]; [simpl|done].
  destruct (get t "isHidden") as [isHidden|]; [simpl|done].
  destruct (get t "columns") as [columnsJson|]; [simpl|done].
  rewrite (parseColumns_truthiness _ a b Hab).
  destruct (parseColumns _ b) as [columns|]; [simpl|done].
  destruct (get t "partitions") as [partitionsJson|]; [simpl|done].
  destruct (parsePartitions _) as [partitions|]; [simpl|done].
  destruct (get t "measures") as [measuresJson|]; [simpl|done].
  by rewrite (parseMeasures_truthiness _ a b Hab).
Qed.

Lemma parseTables_truthiness v a b :
  truthy a = truthy b → parseTables v a = parseTables v b.
Proof.
  intros Hab. unfold parseTables. rewrite Hab. destruct v; try done.
  destruct (filterM _ items) as [kept|]; [simpl|done].
  by rewrite (mapM_ext _ (fun tableJson => parseTable tableJson b))
    by (intros x; by apply parseTable_truthiness).
Qed.

Lemma parseDataModelSchema_truthiness m a b :
  truthy a = truthy b → parseDataModelSchema m a = parseDataModelSchema m b.
Proof. intros Hab. unfold parseDataModelSchema. by rewrite Hab. Qed.

(** X20: the options matter to [parseBimJson] only through the truthiness
    of the two flags it derives from them: two option values that give
    flags of the same truthiness give the same outcome on every document.
    Absent options, an empty options object and both flags true are thus
    interchangeable, any truthy flag value stands for true, and other
    option properties are ignored. *)
Theorem parseBimJson_options_truthiness (json o1 o2 : value) :
  truthy (includeAnnotationsOf o1) = truthy (includeAnnotationsOf o2) →
  truthy (includeHiddenOf o1) = truthy (includeHiddenOf o2) →
  parseBimJson json o1 = parseBimJson json o2.
Proof.
  intros Ha Hh. unfold parseBimJson. rewrite !optget_total. simpl.
  fold (includeAnnotationsOf o1) (includeAnnotationsOf o2)
       (includeHiddenOf o1) (includeHiddenOf o2).
  destruct (get json "model") as [m|]; [simpl|done].
  destruct (negb (truthy m)); [done|].
  rewrite (parseDataModelSchema_truthiness _ _ _ Ha).
  destruct (parseDataModelSchema m _) as [schema|]; [simpl|done].
  destruct (get m "tables") as [tj|]; [simpl|done].
  by rewrite (parseTables_truthiness _ _ _ Hh).
Qed.

Lemma parseBimJson_options_truthiness_witness :
  parseBimJson sampleDocument VUndef
  = parseBimJson sampleDocument
      (VObj [("includeHiddenObjects", VStr "no"); ("verbose", VBool true)]).
Proof.
  apply (parseBimJson_options_truthiness sampleDocument VUndef
           (VObj [("includeHiddenObjects", VStr "no"); ("verbose", VBool true)]));
    reflexivity.
Defined.

(** * Excluding hidden objects keeps what succeeds *)

Lemma filterM_all_return {A} (p : A → result bool) l kept :
  filterM p l = Ok kept → Forall (fun x => ∃ b, p x = Ok b) l.
Proof.
  revert kept. induction l as [|x l IH]; simpl; intros kept; [constructor|].
  intros (b & Hb & (ks & Hks & _)%bind_Ok)%bind_Ok.
  constructor; eauto.
Qed.

Lemma mapM_all_return {A B} (f : A → result B) l ys :
  mapM f l = Ok ys → Forall (fun x => ∃ y, f x = Ok y) l.
Proof.
  intros H%mapM_Forall2. induction H; constructor; eauto.
Qed.

(** A filtered collection that returns under a truthy flag returns under
    any flag, when the normaliser of its entries does. *)
Lemma filtered_returns (f g : value → result value) a b items r :
  truthy a = true →
  (∀ x y, f x = Ok y → ∃ y', g x = Ok y') →
  (kept ← filterM (fun x => h ← get x "isHidden";
                            Ok (negb (truthy h) || truthy a)) items;
   out ← mapM f kept; Ok (VArr out)) = Ok r →
  ∃ out',
    (kept ← filterM (fun x => h ← get x "isHidden";
                              Ok (negb (truthy h) || truthy b)) items;
     out ← mapM g kept; Ok (VArr out)) = Ok (VArr out')
    ∧ Forall2 (fun x y' => g x = Ok y')
        (List.filter (fun x => negb (hidden x) || truthy b) items) out'.
Proof.
  intros Ha Hfg (kept & Hkept & (out & Hout & _)%bind_Ok)%bind_Ok.
  assert (Hpresent : Forall (fun x => present x = true) items).
  { apply filterM_all_return in Hkept.
    eapply Forall_impl; [exact Hkept|]. intros x [c Hc]. simpl in Hc.
    destruct x; try done; discriminate Hc. }
  rewrite hidden_filter_pure in Hkept by done.
  injection Hkept as <-.
  assert (List.filter (fun x => negb (hidden x) || truthy a) items = items)
    as Hall.
  { apply List.forallb_filter_id, forallb_Forall, Forall_forall.
    intros x _. by rewrite Ha, orb_true_r. }
  rewrite Hall in Hout. apply mapM_all_return in Hout.
  rewrite hidden_filter_pure by done. simpl.
  edestruct (mapM_Ok g
               (List.filter (fun x => negb (hidden x) || truthy b) items))
    as (out' & Hout' & Hrel).
  { apply Forall_filter_keeps. eapply Forall_impl; [exact Hout|].
    intros x [y Hy]. eauto. }
  exists out'. rewrite Hout'. by split.
Qed.

Lemma parseTable_name t inc r :
  parseTable t inc = Ok r →
  present r = true ∧ prop r "name" = coalesce (prop t "name") (VStr "Table").
Proof. unfold parseTable. intros H. returned. by split. Qed.

Lemma parseTable_returns t a b r :
  truthy a = true → parseTable t a = Ok r → ∃ r', parseTable t b = Ok r'.
Proof.
  intros Ha. unfold parseTable. intros H.
  apply bind_Ok in H as (name & -> & H). simpl.
  apply bind_Ok in H as (description & -> & H). simpl.
  apply bind_Ok in H as (isHidden & -> & H). simpl.
  apply bind_Ok in H as (columnsJson & -> & H). simpl.
  apply bind_Ok in H as (columns & Hc & H).
  apply bind_Ok in H as (partitionsJson & Hpj & H).
  apply bind_Ok in H as (partitions & Hp & H).
  apply bind_Ok in H as (measuresJson & Hmj & H).
  apply bind_Ok in H as (measures & Hm & _).
  assert (∃ cs, parseColumns (coalesce columnsJson (VArr [])) b = Ok cs)
    as [cs ->].
  { unfold parseColumns in Hc |- *.
    destruct (coalesce columnsJson (VArr [])); eauto.
    eapply filtered_returns in Hc as (out' & -> & _); eauto. }
  simpl. rewrite Hpj. simpl. rewrite Hp. simpl. rewrite Hmj. simpl.
  assert (∃ ms, parseMeasures (coalesce measuresJson (VArr [])) b = Ok ms)
    as [ms ->].
  { unfold parseMeasures in Hm |- *.
    destruct (coalesce measuresJson (VArr [])); eauto.
    eapply filtered_returns in Hm as (out' & -> & _); eauto. }
  simpl. eauto.
Qed.

Lemma tableEntries_Ok_named ts es :
  tableEntries ts = Ok es → forallb namedTable ts = true.
Proof.
  intros H. destruct (forallb namedTable ts) eqn:E; [done|].
  apply forallb_false_Exists in E.
  edestruct (mapM_raises (fun t =>
               name ← get t "name"; key ← toLowerCase name; Ok (key, t)) ts)
    as [e He].
  { eapply Exists_impl; [exact E|]. intros t Ht. by apply tableEntry_raises. }
  unfold tableEntries in H. congruence.
Qed.

Lemma parseRelationship_any_map r (m1 m2 : gmap string value) :
  parseRelationship r m1 = parseRelationship r m2.
Proof. reflexivity. Qed.

(** X21: a document that [parseBimJson] accepts with hidden objects
    included is accepted with them excluded, under the same annotations
    flag, and the two results have the same schema and the same
    relationships: a relationship is returned unchanged even when the
    table it names was excluded. *)
Theorem parseBimJson_hidden_exclusion (json o1 o2 out1 : value) :
  truthy (includeAnnotationsOf o1) = truthy (includeAnnotationsOf o2) →
  truthy (includeHiddenOf o1) = true →
  parseBimJson json o1 = Ok out1 →
  ∃ out2, parseBimJson json o2 = Ok out2
    ∧ prop out2 "model" = prop out1 "model"
    ∧ prop out2 "relationships" = prop out1 "relationships".
Proof.
  intros Ha Hh. unfold parseBimJson. rewrite !optget_total. simpl.
  fold (includeAnnotationsOf o1) (includeAnnotationsOf o2)
       (includeHiddenOf o1) (includeHiddenOf o2).
  intros H.
  apply bind_Ok in H as (m & -> & H). simpl.
  destruct (negb (truthy m)); [discriminate|].
  rewrite (parseDataModelSchema_truthiness _ _ _ Ha) in H.
  apply bind_Ok in H as (schema & -> & H). simpl.
  apply bind_Ok in H as (tj & -> & H). simpl.
  apply bind_Ok in H as (tables & Ht & H).
  apply bind_Ok in H as (rj & -> & H).
  apply bind_Ok in H as (rels & Hr & [= <-]).
  assert (Htables : ∃ tables',
            parseTables (coalesce tj (VArr [])) (includeHiddenOf o2) = Ok tables'
            ∧ ∀ rs, parseRelationships (coalesce rj (VArr [])) tables = Ok rs →
                    parseRelationships (coalesce rj (VArr [])) tables' = Ok rs).
  { unfold parseTables in Ht |- *.
    destruct (coalesce tj (VArr [])) as [| | | | |items| |];
      try (injection Ht as <-; eexists; split; [done|]; done).
    pose proof Ht as Hfirst.
    eapply (filtered_returns _ (fun t => parseTable t (includeHiddenOf o2))
              _ (includeHiddenOf o2)) in Ht as (out' & Hout' & Hrel);
      [|done|intros x y; by apply parseTable_returns].
    exists (VArr out'). split; [exact Hout'|].
    intros rs. unfold parseRelationships.
    destruct (coalesce rj (VArr [])) as [| | | | |ritems| |]; try done.
    apply bind_Ok in Hfirst as (kept & Hkept & (out & Hout & [= <-])%bind_Ok).
    intros (es & Hes & (rs' & Hrs & [= <-])%bind_Ok)%bind_Ok.
    apply tableEntries_Ok_named, forallb_Forall in Hes.
    assert (Hnames : Forall (fun t =>
              isString (coalesce (prop t "name") (VStr "Table")) = true) kept).
    { apply mapM_Forall2 in Hout. clear -Hout Hes.
      induction Hout as [|t r kept out Htr _ IH]; [constructor|].
      apply Forall_cons in Hes as [Hr Hes]. constructor; [|by apply IH].
      apply parseTable_name in Htr as [_ <-].
      unfold namedTable in Hr. apply andb_prop in Hr as [_ Hr].
      by destruct (prop r "name"). }
    assert (Hkept_all : kept = items).
    { pose proof (filterM_all_return _ _ _ Hkept) as Hp.
      assert (Forall (fun x => present x = true) items) as Hpresent.
      { eapply Forall_impl; [exact Hp|]. intros x [c Hc]. simpl in Hc.
        destruct x; try done; discriminate Hc. }
      rewrite hidden_filter_pure in Hkept by done. injection Hkept as <-.
      apply List.forallb_filter_id, forallb_Forall, Forall_forall.
      intros x _. by rewrite Hh, orb_true_r. }
    subst kept.
    assert (Forall (fun t' => namedTable t' = true) out') as Hnamed.
    { assert (Forall (fun t =>
                isString (coalesce (prop t "name") (VStr "Table")) = true)
                (List.filter (fun x => negb (hidden x)
                                       || truthy (includeHiddenOf o2)) items))
        as Hsub by by apply Forall_filter_keeps.
      clear -Hrel Hsub.
      induction Hrel as [|t r l out Htr _ IH]; [constructor|].
      apply Forall_cons in Hsub as [Ht Hsub]. constructor; [|by apply IH].
      apply parseTable_name in Htr as [Hp Hn].
      unfold namedTable. rewrite Hp, Hn. simpl.
      by destruct (coalesce (prop t "name") (VStr "Table")). }
    rewrite (tableEntries_named _ Hnamed). simpl.
    rewrite (mapM_ext _ (fun relJson => parseRelationship relJson (newMap es)))
      by (intros r; apply parseRelationship_any_map).
    by rewrite Hrs. }
  destruct Htables as (tables' & -> & Hsame). simpl.
  rewrite (Hsame _ Hr). simpl. eexists. by repeat split.
Qed.

Lemma parseBimJson_hidden_exclusion_witness :
  ∃ out2, parseBimJson sampleDocument (parseOptions true false) = Ok out2
    ∧ prop out2 "model"
      = prop (returnedValue (parseBimJson sampleDocument VUndef)) "model"
    ∧ prop out2 "relationships"
      = prop (returnedValue (parseBimJson sampleDocument VUndef)) "relationships".
Proof.
  apply (parseBimJson_hidden_exclusion sampleDocument VUndef
           (parseOptions true false)); reflexivity.
Defined.

(** * What the result shares with the document *)

(** X22: over the store, the measure [parseMeasure] builds is a new
    object whose properties hold the values of the input as they are: an
    [expression] that is a reference (an array of lines) is the input's
    own array, not a copy of it. *)
Theorem parseMeasure_shares_expression
    (h : list Store.cell) (l : nat) (ps : list (string * Store.val))
    (v : Store.val) :
  h !! l = Some (Store.CObj ps) →
  lookup_prop "expression" ps = Some v →
  Store.nullish v = false →
  ∃ c, Store.parseMeasure (Store.SRef l) h
       = (Ok (Store.SRef (length h)), h ++ [c])
    ∧ Store.get (Store.SRef (length h)) "expression" (h ++ [c])
      = (Ok v, h ++ [c]).
Proof.
  intros Hl Hv Hn. unfold Store.parseMeasure, mbind, Store.comp_bind.
  simpl. rewrite Hl, Hv. simpl. eexists. split; [reflexivity|].
  rewrite list_lookup_middle by done. simpl.
  unfold Store.coalesce. by rewrite Hn.
Qed.

Lemma parseMeasure_shares_expression_witness :
  ∃ c, Store.parseMeasure (Store.SRef 1)
         [Store.CArr [Store.SStr "SUM("; Store.SStr "Sales[Amount])"];
          Store.CObj [("name", Store.SStr "Total");
                      ("expression", Store.SRef 0)]]
       = (Ok (Store.SRef 2),
          [Store.CArr [Store.SStr "SUM("; Store.SStr "Sales[Amount])"];
           Store.CObj [("name", Store.SStr "Total");
                       ("expression", Store.SRef 0)]] ++ [c])
    ∧ Store.get (Store.SRef 2) "expression"
        ([Store.CArr [Store.SStr "SUM("; Store.SStr "Sales[Amount])"];
          Store.CObj [("name", Store.SStr "Total");
                      ("expression", Store.SRef 0)]] ++ [c])
      = (Ok (Store.SRef 0),
         [Store.CArr [Store.SStr "SUM("; Store.SStr "Sales[Amount])"];
          Store.CObj [("name", Store.SStr "Total");
                      ("expression", Store.SRef 0)]] ++ [c]).
Proof.
  apply (parseMeasure_shares_expression
           [Store.CArr [Store.SStr "SUM("; Store.SStr "Sales[Amount])"];
            Store.CObj [("name", Store.SStr "Total");
                        ("expression", Store.SRef 0)]]
           1 [("name", Store.SStr "Total"); ("expression", Store.SRef 0)]
           (Store.SRef 0)); reflexivity.
Defined.
